(** * The SIFT document model: layer sets, catalogue and purge

    A shallow embedding of [sift/model/document.py]: the [prez] presentation
    tuple, the [DocLayerStack] list-like layer set with its lazily rebuilt
    identifier-to-row cache, and the [Document] operations that import,
    clone, toggle and remove presentations.

    Python values are modelled as the code has them.  Integers are [Z]:
    list indices may be negative and wrap around the way Python's do,
    [list.insert] and slices clamp, and [list.insert] refuses an index
    that is no machine index.  Dicts are [gmap]s.  The mutable
    [DocLayerStack] objects live in a store of objects addressed by
    location, so that two slots naming one object are distinguished from
    two slots holding equal copies.  A call is a function from the state to
    an outcome (a value or an exception), the state it leaves, and the
    events it caused, in order: log records, signals (each with the
    document as its subscribers see it), and calls to the workspace.  An
    exception leaves behind whatever was mutated and emitted before it.

    The file has three parts: the model ([PyList], [Stack], [Doc]), the
    notions used to state properties, and the properties: first of a layer
    set on its own (insertion, animation order, the row cache), then of the
    document (import, metadata update, cloning a set, removal and purge),
    and last the invariant of every reachable document and the scenarios
    of the specification run on the model. *)

From stdpp Require Import gmap list strings sorting.
From Stdlib Require Import ZArith Lia.

Open Scope Z_scope.

(** ** Python exceptions and list primitives *)

Inductive PyExc : Type :=
| IndexError
| TypeError
| ValueError
| KeyError
| AttributeError
| AssertionError
| OverflowError
| SystemError.

Inductive Res (A : Type) : Type :=
| Ok (a : A)
| Raise (e : PyExc).
Arguments Ok {A} a.
Arguments Raise {A} e.

Module PyList.
Section PyList.
Context {A : Type}.

(** [l[i]] for an [int] index: non-negative indices count from the front,
    negative ones from the back, anything else is out of range. *)
Definition norm_index (l : list A) (i : Z) : option nat :=
  if decide (0 ≤ i < Z.of_nat (length l)) then Some (Z.to_nat i)
  else if decide (- Z.of_nat (length l) ≤ i < 0)
       then Some (Z.to_nat (i + Z.of_nat (length l)))
       else None.

Definition getitem (l : list A) (i : Z) : Res A :=
  match norm_index l i with
  | Some k => match l !! k with Some x => Ok x | None => Raise IndexError end
  | None => Raise IndexError
  end.

(** [l[i] = v] *)
Definition setitem (l : list A) (i : Z) (v : A) : Res (list A) :=
  match norm_index l i with
  | Some k => Ok (<[k := v]> l)
  | None => Raise IndexError
  end.

(** [del l[i]] *)
Definition delitem (l : list A) (i : Z) : Res (list A) :=
  match norm_index l i with
  | Some k => Ok (take k l ++ drop (S k) l)
  | None => Raise IndexError
  end.

(** A slice bound is clamped into [0 .. len], after adding [len] once to a
    negative one: what [slice.indices] does for step 1. *)
Definition clamp (l : list A) (i : Z) : nat :=
  if decide (i < 0) then Z.to_nat (Z.max 0 (i + Z.of_nat (length l)))
  else Z.to_nat (Z.min i (Z.of_nat (length l))).

(** [l[lo:hi]] *)
Definition getslice (l : list A) (lo hi : Z) : list A :=
  take (clamp l hi - clamp l lo)%nat (drop (clamp l lo) l).

(** [del l[lo:hi]] *)
Definition delslice (l : list A) (lo hi : Z) : list A :=
  take (clamp l lo) l ++ drop (Nat.max (clamp l lo) (clamp l hi)) l.

(** An index handed to [list.insert] is converted to a machine index
    ([Py_ssize_t], 64 bits here); an [int] that does not fit is refused. *)
Definition fits_index (i : Z) : bool :=
  bool_decide (- 2 ^ 63 ≤ i ≤ 2 ^ 63 - 1).

(** The list with [v] put in at position [i], clamped like a slice
    bound. *)
Definition inserted (l : list A) (i : Z) (v : A) : list A :=
  take (clamp l i) l ++ v :: drop (clamp l i) l.

(** [l.insert(i, v)]: no position is out of range, but an index that is no
    machine index raises [OverflowError] and the list stays as it is. *)
Definition insert (l : list A) (i : Z) (v : A) : Res (list A) :=
  if fits_index i then Ok (inserted l i v) else Raise OverflowError.

(** [enumerate(l)] *)
Definition enumerate (l : list A) : list (nat * A) :=
  imap (λ i x, (i, x)) l.
End PyList.
End PyList.

(** [dict(pairs)]: a later pair overrides an earlier one with the same key. *)
Definition py_dict `{Countable K} {V : Type} (kvs : list (K * V)) : gmap K V :=
  foldl (λ m kv, <[kv.1 := kv.2]> m) ∅ kvs.

(** ** Identifiers, kinds and the presentation tuple *)

(** A [uuid.UUID] is a 128-bit number; UUIDs compare as those numbers. *)
Definition UUID : Type := N.

(** Modelled from the spec: [sift.common.KIND] is imported but not defined in
  the sources at hand; the variants are those of the data model. *)
Inductive KIND : Type := IMAGE | OUTLINE | SHAPE | RGB.

(** Modelled from the spec: [sift.model.layer.mixing], the mixing-mode
  constants (normal, additive). *)
Inductive Mixing : Type := NORMAL | ADDITIVE.

(** "name or uuid": a colour map is named, or user-specified by identifier. *)
Inductive Colormap : Type :=
| CmapName (name : string)
| CmapUUID (u : UUID).

(** A Python [float], as its IEEE-754 binary64 bit pattern.  The operations
    modelled here store and hand on such numbers and never compute with
    them. *)
Definition float64 : Type := N.

(** Colour limits: a (min, max) pair for a basic layer, a 3-tuple of
    optional pairs (one per channel) for an RGB composite. *)
Inductive Climits : Type :=
| ClimPair (lo hi : float64)
| ClimRGB (r g b : option (float64 * float64)).

(** Overview content, an array the document only passes through. *)
Definition Content : Type := list (list float64).

(** [prez = namedtuple('prez', [...])] *)
Record prez : Type := Prez {
  uuid : UUID;
  kind : KIND;
  visible : bool;
  a_order : option Z;
  colormap : option Colormap;
  climits : Climits;
  mixing : Mixing
}.

(** [p._replace(a_order=a)] and [p._replace(visible=v)] *)
Definition replace_a_order (p : prez) (a : option Z) : prez :=
  Prez (uuid p) (kind p) (visible p) a (colormap p) (climits p) (mixing p).
Definition replace_visible (p : prez) (v : bool) : prez :=
  Prez (uuid p) (kind p) v (a_order p) (colormap p) (climits p) (mixing p).

(** Modelled from the spec: the layer classes of [sift.model.layer]
    ([DocBasicLayer], [DocRGBLayer]) are imported but absent.  A layer has
    an identifier, a kind, a display name and colour limits; an RGB
    composite additionally names its three channel layers by identifier,
    each optional. *)
Record Layer : Type := MkLayer {
  INFO_UUID : UUID;
  INFO_KIND : KIND;
  INFO_NAME : string;
  INFO_CLIM : Climits;
  chan_r : option UUID;
  chan_g : option UUID;
  chan_b : option UUID
}.

(** Modelled from the spec: a partial set of metadata fields, as merged by
    the absent [DocLayer.update]; it "never changes kind or identifier". *)
Record Fields : Type := MkFields {
  f_name : option string;
  f_clim : option Climits
}.

Definition Layer_update (l : Layer) (f : Fields) : Layer :=
  MkLayer (INFO_UUID l) (INFO_KIND l)
          (default (INFO_NAME l) (f_name f))
          (default (INFO_CLIM l) (f_clim f))
          (chan_r l) (chan_g l) (chan_b l).

(** ** Objects and state *)

(** A [DocLayerStack] object: [_store] and the cache [_u2r] ([None] when
    invalidated).  The weak reference [_doc] is never read by the
    operations below. *)
Record DocLayerStack : Type := MkStack {
  _store : list prez;
  _u2r : option (gmap UUID nat)
}.

(** Locations of [DocLayerStack] objects.  Objects are allocated at the
    end of the store and never reclaimed. *)
Definition loc : Type := nat.

(** A [Document]: its attributes and the layer-stack objects reachable
    from it. *)
Record Document : Type := MkDoc {
  current_set_index : Z;
  _layer_sets : list (option loc);
  _layer_with_uuid : gmap UUID Layer;
  stacks : list DocLayerStack
}.

(** ** Effects *)

Inductive LogLevel : Type := DEBUG | INFO | WARNING | ERROR.

(** The Qt signals of [Document] that the operations below emit, with their
    payloads.  [didSwitchLayerSet] carries the layer-stack object itself. *)
Inductive Signal : Type :=
| didAddBasicLayer (order : list (option nat)) (u : UUID) (p : prez)
| didRemoveLayers (order : list nat) (uuids : list UUID) (row count : Z)
| willPurgeLayer (u : UUID)
| didChangeLayerVisibility (changes : gmap UUID bool)
| didSwitchLayerSet (index : Z) (layers : option loc) (anim : list UUID).

(** What a call does to the outside, in order.  Signals are delivered
    synchronously, so a subscriber sees the document as it is at the
    moment of emission: [Emit] records that state.  The signal bus, the
    logger and the workspace are collaborators and are taken to accept
    what they are handed; building the text of a log message is Python's
    own [str.format] and is modelled where it can raise (see
    [format_s_UUID]). *)
Inductive Event : Type :=
| Log (level : LogLevel) (msg : string)
| Emit (sig : Signal) (seen : Document)
| WorkspaceRemove (u : UUID).

(** A computation over a mutable state [S] that logs events and either
    returns or raises; what was mutated and logged before a [Raise] stays. *)
Definition M (S A : Type) : Type := S → Res A * S * list Event.

Definition ret {S A} (a : A) : M S A := λ s, (Ok a, s, []).

Definition bind {S A B} (m : M S A) (k : A → M S B) : M S B :=
  λ s, match m s with
       | (Ok a, s1, t1) =>
           match k a s1 with (r, s2, t2) => (r, s2, t1 ++ t2) end
       | (Raise e, s1, t1) => (Raise e, s1, t1)
       end.

Definition raise {S A} (e : PyExc) : M S A := λ s, (Raise e, s, []).
Definition get {S} : M S S := λ s, (Ok s, s, []).
Definition log {S} (level : LogLevel) (msg : string) : M S unit :=
  λ s, (Ok tt, s, [Log level msg]).
Definition lift {S A} (r : Res A) : M S A := λ s, (r, s, []).

Notation "x <- c ;; k" := (bind c (λ x, k))
  (at level 100, c at next level, k at level 200, right associativity).
Notation "c ;; k" := (bind c (λ _, k))
  (at level 100, k at level 200, right associativity).

(** [try: m  except ValueError: h] *)
Definition except_ValueError {S A} (m : M S A) (h : M S A) : M S A :=
  λ s, match m s with
       | (Raise ValueError, s1, t1) =>
           match h s1 with (r, s2, t2) => (r, s2, t1 ++ t2) end
       | other => other
       end.

(** [for x in xs: body(x)] over a sequence fixed when the loop starts. *)
Fixpoint for_each {S A} (xs : list A) (body : A → M S unit) : M S unit :=
  match xs with
  | [] => ret tt
  | x :: xs' => body x ;; for_each xs' body
  end.

(** A loop that carries a local variable [acc] from one round to the
    next. *)
Fixpoint fold_each {S A B} (xs : list A) (acc : B) (body : B → A → M S B)
    : M S B :=
  match xs with
  | [] => ret acc
  | x :: xs' => acc' <- body acc x ;; fold_each xs' acc' body
  end.

(** ** DocLayerStack *)

(** What may index a [DocLayerStack] or a list, and what [__getitem__]
    hands back: an entry, or a row (an [int], or [None] from [dict.get]). *)
Inductive PyKey : Type :=
| KInt (i : Z)
| KUUID (u : UUID)
| KLayer (l : Layer)
| KPrez (p : prez)
| KSlice (lo hi : Z)
| KNone.

Inductive PyVal : Type :=
| VPrez (p : prez)
| VRow (r : option nat).

Definition key_of_val (v : PyVal) : PyKey :=
  match v with
  | VPrez p => KPrez p
  | VRow (Some r) => KInt (Z.of_nat r)
  | VRow None => KNone
  end.

Module Stack.

Local Abbreviation SM := (M DocLayerStack).

Definition set_store (store : list prez) : SM unit :=
  λ s, (Ok tt, MkStack store (_u2r s), []).
Definition set_u2r (c : option (gmap UUID nat)) : SM unit :=
  λ s, (Ok tt, MkStack (_store s) c, []).
Definition store : SM (list prez) := λ s, (Ok (_store s), s, []).

(** [dict((p.uuid,i) for (i,p) in enumerate(self._store))] *)
Definition build_u2r (st : list prez) : gmap UUID nat :=
  py_dict ((λ ip, (uuid ip.2, ip.1)) <$> PyList.enumerate st).

(** [DocLayerStack(doc)] from a [Document] with no further arguments, and
    [DocLayerStack(other)] from another stack: [list(doc._store)] is a new
    list holding the same (immutable) tuples. *)
Definition init_empty : DocLayerStack := MkStack [] None.
Definition init_copy (other : DocLayerStack) : DocLayerStack :=
  MkStack (_store other) None.

Definition __setitem__ (index : Z) (value : prez) : SM unit :=
  st <- store ;;
  (if decide (0 ≤ index ∧ index < Z.of_nat (length st)) then
     st' <- lift (PyList.setitem st index value) ;; set_store st'
   else if decide (index = Z.of_nat (length st)) then
     set_store (st ++ [value])
   else raise IndexError) ;;
  set_u2r None.

Definition uuid2row : SM (gmap UUID nat) :=
  s <- get ;;
  match _u2r s with
  | None => set_u2r (Some (build_u2r (_store s))) ;; ret (build_u2r (_store s))
  | Some c => ret c
  end.

Definition __getitem__ (index : PyKey) : SM PyVal :=
  match index with
  | KInt i => st <- store ;; p <- lift (PyList.getitem st i) ;; ret (VPrez p)
  | KUUID u => c <- uuid2row ;; ret (VRow (c !! u))
  | KLayer l => c <- uuid2row ;; ret (VRow (c !! INFO_UUID l))
  | KPrez p => c <- uuid2row ;; ret (VRow (c !! uuid p))
  | KSlice _ _ | KNone => raise ValueError
  end.

Definition __len__ : SM Z := st <- store ;; ret (Z.of_nat (length st)).

(** [del self._store[index]]; a list accepts an [int] or a slice. *)
Definition __delitem__ (index : PyKey) : SM unit :=
  st <- store ;;
  match index with
  | KInt i => st' <- lift (PyList.delitem st i) ;; set_store st'
  | KSlice lo hi => set_store (PyList.delslice st lo hi)
  | _ => raise TypeError
  end ;;
  set_u2r None.

Definition insert (index : Z) (value : prez) : SM unit :=
  st <- store ;;
  st' <- lift (PyList.insert st index value) ;;
  set_store st' ;;
  set_u2r None.

(** The loop reads and overwrites row [i] of the list it walks; the list
    keeps its length, so it runs once per row. *)
Definition clear_animation_order : SM unit :=
  st <- store ;;
  for_each (seq 0 (length st)) (λ i,
    cur <- store ;;
    match cur !! i with
    | Some q => set_store (<[i := replace_a_order q None]> cur)
    | None => ret tt
    end).

Definition index (u : UUID) : SM (option nat) :=
  u2r <- uuid2row ;; ret (u2r !! u).

(** Tuples [(a_order, uuid)] compare lexicographically. *)
Definition aouu_le (x y : Z * UUID) : Prop :=
  x.1 < y.1 ∨ (x.1 = y.1 ∧ (x.2 ≤ y.2)%N).

#[export] Instance aouu_le_dec : RelDecision aouu_le.
Proof. intros x y. unfold aouu_le. apply _. Defined.

(** The getter.  [list.sort] is modelled by a merge sort: the order on
    the tuples is total and only identical tuples tie, so every sorting
    algorithm produces the same list. *)
Definition animation_order : SM (list UUID) :=
  st <- store ;;
  let aouu := omap (λ x, match a_order x with
                         | Some a => Some (a, uuid x)
                         | None => None
                         end) st in
  let aouu := merge_sort aouu_le aouu in
  let ao := aouu.*2 in
  log DEBUG "animation order is {0!r:s}" ;;
  ret ao.

(** [self._store[idx]] and [self._store[idx] = v] where [idx] is whatever
    [self[lu]] returned: a list accepts an [int] only. *)
Definition store_getitem (idx : PyVal) : SM prez :=
  st <- store ;;
  match idx with
  | VRow (Some r) => lift (PyList.getitem st (Z.of_nat r))
  | _ => raise TypeError
  end.
Definition store_setitem (idx : PyVal) (v : prez) : SM unit :=
  st <- store ;;
  match idx with
  | VRow (Some r) => st' <- lift (PyList.setitem st (Z.of_nat r) v) ;; set_store st'
  | _ => raise TypeError
  end.

(** The setter; [set_animation_order_step] is one round of its loop. *)
Definition set_animation_order_step (nth : nat) (lu : PyKey) : SM unit :=
  idx <- except_ValueError (__getitem__ lu)
           (log WARNING "unable to find layer in LayerStack" ;;
            raise ValueError) ;;
  old <- store_getitem idx ;;
  store_setitem idx (replace_a_order old (Some (Z.of_nat nth))).

Definition set_animation_order (layer_or_uuid_seq : list PyKey) : SM unit :=
  clear_animation_order ;;
  for_each (PyList.enumerate layer_or_uuid_seq) (λ '(nth, lu),
    set_animation_order_step nth lu).
End Stack.

(** ** Document *)

(** A selector as the document's methods take it: a row or an identifier. *)
Inductive RowOrUUID : Type :=
| Row (i : Z)
| Uuid (u : UUID).

(** [range(lo, hi)] *)
Definition py_range (lo hi : Z) : list Z := seqZ lo (hi - lo).

(** ["{0:s}".format(u)] for a [uuid.UUID].  [UUID] defines no [__format__],
    and [object.__format__] rejects a non-empty format spec with a
    [TypeError] (Python 3.4 and later).  The other messages of this file
    are built with ["{}"] or ["{0!r:s}"], which accept any object. *)
Definition format_s_UUID (u : UUID) : Res string := Raise TypeError.

Module Doc.

Local Abbreviation DM := (M Document).

Definition set_current_set_index (i : Z) : DM unit :=
  λ d, (Ok tt, MkDoc i (_layer_sets d) (_layer_with_uuid d) (stacks d), []).
Definition set_layer_sets (ls : list (option loc)) : DM unit :=
  λ d, (Ok tt, MkDoc (current_set_index d) ls (_layer_with_uuid d) (stacks d), []).
Definition set_layer_with_uuid (c : gmap UUID Layer) : DM unit :=
  λ d, (Ok tt, MkDoc (current_set_index d) (_layer_sets d) c (stacks d), []).

(** [signal.emit(...)]: delivered at once, to subscribers that see [d]. *)
Definition emit (sig : Signal) : DM unit :=
  λ d, (Ok tt, d, [Emit sig d]).

(** [self._workspace.remove(uuid)] *)
Definition workspace_remove (u : UUID) : DM unit :=
  λ d, (Ok tt, d, [WorkspaceRemove u]).

(** Run a method on the [DocLayerStack] object at [l].  A location outside
    the store has no Python counterpart; the model reports it as
    [SystemError]. *)
Definition on_stack {A} (l : loc) (m : M DocLayerStack A) : DM A :=
  λ d, match stacks d !! l with
       | Some s =>
           match m s with
           | (r, s', t) =>
               (r, MkDoc (current_set_index d) (_layer_sets d)
                         (_layer_with_uuid d) (<[l := s']> (stacks d)), t)
           end
       | None => (Raise SystemError, d, [])
       end.

(** A newly constructed [DocLayerStack] object. *)
Definition new_stack (s : DocLayerStack) : DM loc :=
  λ d, (Ok (length (stacks d)),
        MkDoc (current_set_index d) (_layer_sets d) (_layer_with_uuid d)
              (stacks d ++ [s]), []).

(** A value that must be a stack: using [None] as one raises [e]. *)
Definition as_stack (o : option loc) (e : PyExc) : DM loc :=
  match o with
  | Some l => ret l
  | None => raise e
  end.

(** [Document(workspace, layer_set_count)] *)
Definition __init__ (layer_set_count : Z) : Document :=
  MkDoc 0 (Some 0%nat :: replicate (Z.to_nat (layer_set_count - 1)) None)
        ∅ [Stack.init_empty].

Definition current_layer_set : DM (option loc) :=
  d <- get ;;
  lift (PyList.getitem (_layer_sets d) (current_set_index d)).

Definition _insert_layer_with_info (info : Layer) (cmap : option Colormap)
    (insert_before : Z) : DM (prez * list (option nat)) :=
  let p := Prez (INFO_UUID info) (INFO_KIND info) true None cmap
                (INFO_CLIM info) NORMAL in
  let q := replace_visible p false in
  cur <- current_layer_set ;;
  cur <- as_stack cur TypeError ;;
  old_layer_count <- on_stack cur Stack.__len__ ;;
  d <- get ;;
  for_each (PyList.enumerate (_layer_sets d)) (λ '(dex, lset),
    match lset with
    | Some l =>
        on_stack l (Stack.insert insert_before
          (if decide (Z.of_nat dex = current_set_index d) then p else q))
    | None => ret tt
    end) ;;
  let reordered_indices :=
    None :: (Some <$> seq 0 (Z.to_nat old_layer_count)) in
  ret (p, reordered_indices).

Section Collaborators.
(** The workspace's importer and the guidebook are outside the document;
    they are taken as given functions that return. [import_image] yields
    the identifier, the metadata that [DocBasicLayer] wraps, and the
    overview content. *)
Variable import_image : string → UUID * Layer * Content.
Variable collect_info : Layer → Fields.
Variable default_colormap : Layer → option Colormap.
Variable guidebook_climits : Layer → Climits.
Variable display_name : Layer → option string.

(** [a or b] on an optional string: [None] and the empty string are
    falsy. *)
Definition str_or (a : option string) (b : string) : string :=
  match a with
  | Some s => if decide (s = "") then b else s
  | None => b
  end.

Definition open_file (path : string) (insert_before : Z)
    : DM (UUID * Layer * Content) :=
  let '(uuid, info, content) := import_image path in
  d <- get ;;
  if decide (is_Some (_layer_with_uuid d !! uuid)) then
    msg <- lift (format_s_UUID uuid) ;;
    log WARNING msg ;;
    ret (uuid, info, content)
  else
    let dataset := info in
    set_layer_with_uuid (<[uuid := dataset]> (_layer_with_uuid d)) ;;
    let dataset := Layer_update dataset (collect_info dataset) in
    set_layer_with_uuid (<[uuid := dataset]> (_layer_with_uuid d)) ;;
    let cmap := default_colormap dataset in
    let dataset :=
      Layer_update dataset (MkFields None (Some (guidebook_climits dataset))) in
    set_layer_with_uuid (<[uuid := dataset]> (_layer_with_uuid d)) ;;
    let dataset :=
      Layer_update dataset
        (MkFields (Some (str_or (display_name dataset) (INFO_NAME dataset)))
                  None) in
    set_layer_with_uuid (<[uuid := dataset]> (_layer_with_uuid d)) ;;
    pr <- _insert_layer_with_info dataset cmap insert_before ;;
    let '(presentation, reordered_indices) := pr in
    emit (didAddBasicLayer reordered_indices (INFO_UUID dataset) presentation) ;;
    ret (uuid, dataset, content).
End Collaborators.

Section LoadOrder.
(** The guidebook's preferred load order of a collection of paths is
    outside the document as well. *)
Variable import_image : string → UUID * Layer * Content.
Variable collect_info : Layer → Fields.
Variable default_colormap : Layer → option Colormap.
Variable guidebook_climits : Layer → Climits.
Variable display_name : Layer → option string.
Variable sort_pathnames_into_load_order : list string → list string.

(** [open_files] is a generator; this is the list of what it yields when
    it is run to its end, and what running it does to the document. *)
Definition open_files (paths : list string) (insert_before : Z)
    : DM (list (UUID * Layer * Content)) :=
  let paths := sort_pathnames_into_load_order paths in
  fold_each paths [] (λ yielded path,
    r <- open_file import_image collect_info default_colormap
           guidebook_climits display_name path insert_before ;;
    ret (yielded ++ [r])).

Definition sort_paths (paths : list string) : list string :=
  reverse (sort_pathnames_into_load_order paths).
End LoadOrder.

Definition update_dataset_info (new_info : UUID * Fields) : DM unit :=
  let uuid := new_info.1 in
  d <- get ;;
  (if decide (is_Some (_layer_with_uuid d !! uuid)) then ret tt
   else log WARNING
          "new information on uuid {0!r:s} is not for a known dataset") ;;
  match _layer_with_uuid d !! new_info.1 with
  | Some l =>
      set_layer_with_uuid
        (<[new_info.1 := Layer_update l new_info.2]> (_layer_with_uuid d))
  | None => raise KeyError
  end.

(** [DocLayerStack(existing_layer_set)]: a stack is copied, anything else
    ([None] here) is refused with [ValueError]. *)
Definition _clone_layer_set (existing_layer_set : option loc) : DM loc :=
  match existing_layer_set with
  | Some l =>
      s <- on_stack l get ;;
      new_stack (Stack.init_copy s)
  | None => raise ValueError
  end.

Definition current_animation_order : DM (list UUID) :=
  cur <- current_layer_set ;;
  cur <- as_stack cur AttributeError ;;
  on_stack cur Stack.animation_order.

Definition select_layer_set (layer_set_index : Z) : DM unit :=
  d <- get ;;
  (if decide (layer_set_index ≤ Z.of_nat (length (_layer_sets d))
              ∧ 0 ≤ layer_set_index)
   then ret tt else raise AssertionError) ;;
  (if decide (layer_set_index = Z.of_nat (length (_layer_sets d)))
   then set_layer_sets (_layer_sets d ++ [None]) else ret tt) ;;
  d <- get ;;
  slot <- lift (PyList.getitem (_layer_sets d) layer_set_index) ;;
  match slot with
  | None =>
      cur <- current_layer_set ;;
      clone <- _clone_layer_set cur ;;
      ls <- lift (PyList.setitem (_layer_sets d) layer_set_index (Some clone)) ;;
      set_layer_sets ls
  | Some _ => ret tt
  end ;;
  set_current_set_index layer_set_index ;;
  cur <- current_layer_set ;;
  anim <- current_animation_order ;;
  emit (didSwitchLayerSet layer_set_index cur anim).

Definition row_for_uuid (u : UUID) : DM nat :=
  cur <- current_layer_set ;;
  cur <- as_stack cur TypeError ;;
  st <- on_stack cur Stack.store ;;
  let d := py_dict ((λ iq, (uuid iq.2, iq.1)) <$> PyList.enumerate st) in
  match d !! u with
  | Some row => ret row
  | None => raise KeyError
  end.

Definition toggle_layer_visibility (rows_or_uuids : list RowOrUUID)
    (visible_arg : option bool) : DM unit :=
  L <- current_layer_set ;;
  zult <- fold_each rows_or_uuids (∅ : gmap UUID bool) (λ zult dex,
    dex <- match dex with
           | Uuid u =>
               l <- as_stack L AttributeError ;;
               r <- on_stack l (Stack.index u) ;;
               ret (key_of_val (VRow r))
           | Row i => ret (KInt i)
           end ;;
    l <- as_stack L TypeError ;;
    old <- on_stack l (Stack.__getitem__ dex) ;;
    match old with
    | VPrez old =>
        let vis := match visible_arg with
                   | None => negb (visible old)
                   | Some v => v
                   end in
        let nu := replace_visible old vis in
        match dex with
        | KInt i => on_stack l (Stack.__setitem__ i nu)
        | _ => raise TypeError
        end ;;
        ret (<[uuid nu := visible nu]> zult)
    | VRow _ => raise AttributeError
    end) ;;
  emit (didChangeLayerVisibility zult).

(** The two nested loops of [is_using]: the first entry that carries
    [u] ends them with [True]. *)
Fixpoint is_using_loop (u : UUID) (lss : list (option loc)) : DM bool :=
  match lss with
  | [] => ret false
  | ls :: rest =>
      l <- as_stack ls TypeError ;;
      st <- on_stack l Stack.store ;;
      if existsb (λ p, bool_decide (uuid p = u)) st then ret true
      else is_using_loop u rest
  end.

Definition is_using (u : UUID) (layer_set : option Z) : DM bool :=
  log ERROR "composite layers currently not checked for dependencies" ;;
  d <- get ;;
  lss <- match layer_set with
         | Some i => ls <- lift (PyList.getitem (_layer_sets d) i) ;; ret [ls]
         | None => ret (filter is_Some (_layer_sets d))
         end ;;
  is_using_loop u lss.

Definition remove_layer_prez (row_or_uuid : RowOrUUID) (count : Z)
    : DM unit :=
  ru <- match row_or_uuid with
        | Uuid u =>
            if decide (count = 1) then
              row <- row_for_uuid u ;; ret (Z.of_nat row, [u])
            else
              (* [row+count] with a UUID for [row] *)
              current_layer_set ;; raise TypeError
        | Row row =>
            cur <- current_layer_set ;;
            cur <- as_stack cur TypeError ;;
            v <- on_stack cur (Stack.__getitem__ (KSlice row (row + count))) ;;
            (* [[x.uuid for x in v]] on what [__getitem__] can return *)
            match v with
            | VPrez _ => raise AttributeError
            | VRow _ => raise TypeError
            end
        end ;;
  let '(row, uuids) := ru in
  toggle_layer_visibility (Row <$> py_range row (row + count)) (Some false) ;;
  cur <- current_layer_set ;;
  cur <- as_stack cur TypeError ;;
  n <- on_stack cur Stack.__len__ ;;
  let clo := PyList.delslice (seq 0 (Z.to_nat n)) row (row + count) in
  cur <- current_layer_set ;;
  cur <- as_stack cur TypeError ;;
  on_stack cur (Stack.__delitem__ (KSlice row (row + count))) ;;
  emit (didRemoveLayers clo uuids row count) ;;
  for_each uuids (λ uuid,
    in_use <- is_using uuid None ;;
    if (in_use : bool) then ret tt
    else
      log INFO "purging layer {}, no longer in use" ;;
      emit (willPurgeLayer uuid) ;;
      d <- get ;;
      match _layer_with_uuid d !! uuid with
      | Some _ => set_layer_with_uuid (delete uuid (_layer_with_uuid d))
      | None => raise KeyError
      end ;;
      workspace_remove uuid).

Definition remove_layers_from_all_sets (uuids : list UUID) : DM unit :=
  for_each uuids (λ u,
    log DEBUG "removing {}" ;;
    d <- get ;;
    for_each (PyList.enumerate (_layer_sets d)) (λ dl,
      match dl.2 with
      | Some l =>
          if decide (Z.of_nat dl.1 = current_set_index d) then ret tt
          else
            st <- on_stack l Stack.store ;;
            match list_find (λ presentation, uuid presentation = u) st with
            | Some (pdex, _) =>
                on_stack l (Stack.__delitem__ (KInt (Z.of_nat pdex)))
            | None => ret tt
            end
      | None => ret tt
      end) ;;
    remove_layer_prez (Uuid u) 1).

(** The read-only queries on the current set.  Iterating the set walks
    [_store]; iterating or measuring [None] is a [TypeError]. *)
Definition current_layer_uuid_order : DM (list UUID) :=
  cur <- current_layer_set ;;
  cur <- as_stack cur TypeError ;;
  st <- on_stack cur Stack.store ;;
  ret (uuid <$> st).

Definition current_visible_layer_uuid : DM (option UUID) :=
  cur <- current_layer_set ;;
  cur <- as_stack cur TypeError ;;
  st <- on_stack cur Stack.store ;;
  ret ((λ ix, uuid ix.2) <$> list_find (λ x, visible x = true) st).

(** [self.current_layer_set[row]] followed by an attribute of the entry:
    what [__getitem__] answers for an identifier is a row or [None], which
    has no such attribute. *)
Definition current_entry (row : PyKey) : DM prez :=
  cur <- current_layer_set ;;
  cur <- as_stack cur TypeError ;;
  v <- on_stack cur (Stack.__getitem__ row) ;;
  match v with
  | VPrez p => ret p
  | VRow _ => raise AttributeError
  end.

Definition is_layer_visible (row : PyKey) : DM bool :=
  p <- current_entry row ;; ret (visible p).

Definition layer_animation_order (layer_number : PyKey) : DM (option Z) :=
  p <- current_entry layer_number ;; ret (a_order p).

Definition uuid_for_current_layer (row : PyKey) : DM UUID :=
  p <- current_entry row ;; ret (uuid p).

Definition __len__ : DM Z :=
  cur <- current_layer_set ;;
  cur <- as_stack cur TypeError ;;
  on_stack cur Stack.__len__.

(** [self._layer_with_uuid[u]] *)
Definition layer_with_uuid (u : UUID) : DM Layer :=
  d <- get ;;
  match _layer_with_uuid d !! u with
  | Some nfo => ret nfo
  | None => raise KeyError
  end.

Definition get_info (row : option PyKey) (uuid : option UUID)
    : DM (option Layer) :=
  match row with
  | Some row =>
      uuid_temp <- uuid_for_current_layer row ;;
      nfo <- layer_with_uuid uuid_temp ;;
      ret (Some nfo)
  | None =>
      match uuid with
      | Some u => nfo <- layer_with_uuid u ;; ret (Some nfo)
      | None => ret None
      end
  end.

Definition __getitem__ (layer_uuid : PyKey) : DM Layer :=
  match layer_uuid with
  | KUUID u => layer_with_uuid u
  | _ => raise ValueError
  end.

(** [changes] is a dict, given by its items in iteration order;
    [animation_changed_visibility_step] is one round of the loop.  The
    mapping [u2r] is built and never read. *)
Definition animation_changed_visibility_step (L : option loc)
    (uv : UUID * bool) : DM unit :=
  l <- as_stack L TypeError ;;
  dex <- on_stack l (Stack.__getitem__ (KUUID uv.1)) ;;
  old <- on_stack l (Stack.__getitem__ (key_of_val dex)) ;;
  match old with
  | VPrez old =>
      match key_of_val dex with
      | KInt i => on_stack l (Stack.__setitem__ i (replace_visible old uv.2))
      | _ => raise TypeError
      end
  | VRow _ => raise AttributeError
  end.

Definition animation_changed_visibility (changes : list (UUID * bool))
    : DM unit :=
  cur <- current_layer_set ;;
  cur <- as_stack cur TypeError ;;
  st <- on_stack cur Stack.store ;;
  let u2r := py_dict ((λ iq, (uuid iq.2, iq.1)) <$> PyList.enumerate st) in
  L <- current_layer_set ;;
  for_each changes (animation_changed_visibility_step L) ;;
  emit (didChangeLayerVisibility (py_dict changes)).

(** The items of [layer_prez_seq] may be any objects; those that are not
    [prez] tuples are reported and skipped.  The list [clo] is kept up to
    date and then dropped: the method emits no signal. *)
Definition insert_layer_prez (row : Z) (layer_prez_seq : list PyKey)
    : DM unit :=
  cls <- current_layer_set ;;
  l <- as_stack cls TypeError ;;
  n <- on_stack l Stack.__len__ ;;
  let clo := Some <$> seq 0 (Z.to_nat n) in
  let lps := reverse layer_prez_seq in
  match lps with
  | [] => log WARNING "attempt to drop empty content"
  | _ =>
      fold_each lps clo (λ clo p,
        match p with
        | KPrez p =>
            on_stack l (Stack.insert row p) ;;
            lift (PyList.insert clo row None)
        | _ =>
            log ERROR
              "attempt to drop a new layer with the wrong type: {0!r:s}" ;;
            ret clo
        end) ;;
      ret tt
  end.
End Doc.

(** ** Document: the methods that edit a presentation *)

(** These methods emit signals of their own.  What such a call does to
    the outside is recorded as the events of the calls it makes on the
    document, followed by its own signal with the document as its
    subscribers see it. *)
Inductive EditSignal : Type :=
| didChangeLayerName (u : UUID) (new_name : string)
| didChangeColormap (nfo : gmap UUID (option Colormap))
| didChangeColorLimits (nfo : gmap UUID Climits).

Inductive EditEvent : Type :=
| Inner (e : Event)
| EmitEdit (sig : EditSignal) (seen : Document).

Definition EM (A : Type) : Type :=
  Document → Res A * Document * list EditEvent.

(** [p._replace(colormap=c)] and [p._replace(climits=c)] *)
Definition replace_colormap (p : prez) (c : option Colormap) : prez :=
  Prez (uuid p) (kind p) (visible p) (a_order p) c (climits p) (mixing p).
Definition replace_climits (p : prez) (c : Climits) : prez :=
  Prez (uuid p) (kind p) (visible p) (a_order p) (colormap p) c (mixing p).

(** [t[::-1]] on a tuple of colour limits. *)
Definition reversed (c : Climits) : Climits :=
  match c with
  | ClimPair lo hi => ClimPair hi lo
  | ClimRGB r g b => ClimRGB b g r
  end.

(** Modelled from the spec: [info[INFO.NAME] = new_name] on a layer, which
    is a mapping of metadata fields. *)
Definition set_name (l : Layer) (new_name : string) : Layer :=
  MkLayer (INFO_UUID l) (INFO_KIND l) new_name (INFO_CLIM l)
          (chan_r l) (chan_g l) (chan_b l).

Module Edit.

Local Abbreviation DM := (M Document).

Definition lift_doc {A} (m : DM A) : EM A :=
  λ d, match m d with (r, d', t) => (r, d', Inner <$> t) end.

Definition emit (sig : EditSignal) : EM unit :=
  λ d, (Ok tt, d, [EmitEdit sig d]).

Definition and_then {A B} (m : EM A) (k : A → EM B) : EM B :=
  λ d, match m d with
       | (Ok a, d1, t1) =>
           match k a d1 with (r, d2, t2) => (r, d2, t1 ++ t2) end
       | (Raise e, d1, t1) => (Raise e, d1, t1)
       end.

Definition change_layer_name (row : PyKey) (new_name : string) : EM unit :=
  and_then
    (lift_doc
       (uuid <- match row with
                | KUUID u => ret u
                | _ => Doc.uuid_for_current_layer row
                end ;;
        info <- Doc.layer_with_uuid uuid ;;
        (if decide (uuid = INFO_UUID info) then ret tt
         else raise AssertionError) ;;
        d <- get ;;
        Doc.set_layer_with_uuid
          (<[uuid := set_name info new_name]> (_layer_with_uuid d)) ;;
        ret uuid))
    (λ uuid, emit (didChangeLayerName uuid new_name)).

Section Siblings.
(** The guidebook's grouping of layers into time series is outside the
    document. *)
Variable time_siblings_uuids : list UUID → gmap UUID Layer → list UUID.

(** The identifiers both methods below go over. *)
Definition uuids_or_all (L : option loc) (uuids : option (list UUID))
    : DM (list UUID) :=
  match uuids with
  | Some us =>
      d <- get ;; ret (time_siblings_uuids us (_layer_with_uuid d))
  | None =>
      l <- Doc.as_stack L TypeError ;;
      st <- Doc.on_stack l Stack.store ;;
      ret (uuid <$> st)
  end.

(** The inner loop walks the layer set while it overwrites the row it is
    at; the set keeps its length, so it runs once per row. *)
Definition change_colormap_for_layers (name : option Colormap)
    (uuids : option (list UUID)) : EM unit :=
  and_then
    (lift_doc
       (L <- Doc.current_layer_set ;;
        uuids <- uuids_or_all L uuids ;;
        fold_each uuids (∅ : gmap UUID (option Colormap)) (λ nfo u,
          l <- Doc.as_stack L TypeError ;;
          st <- Doc.on_stack l Stack.store ;;
          fold_each (seq 0 (length st)) nfo (λ nfo dex,
            cur <- Doc.on_stack l Stack.store ;;
            match cur !! dex with
            | Some pinfo =>
                if decide (uuid pinfo = u) then
                  Doc.on_stack l
                    (Stack.__setitem__ (Z.of_nat dex)
                       (replace_colormap pinfo name)) ;;
                  ret (<[u := name]> nfo)
                else ret nfo
            | None => ret nfo
            end))))
    (λ nfo, emit (didChangeColormap nfo)).

Definition flip_climits_for_layers (uuids : option (list UUID)) : EM unit :=
  and_then
    (lift_doc
       (L <- Doc.current_layer_set ;;
        uuids <- uuids_or_all L uuids ;;
        fold_each uuids (∅ : gmap UUID Climits) (λ nfo u,
          l <- Doc.as_stack L TypeError ;;
          st <- Doc.on_stack l Stack.store ;;
          fold_each (seq 0 (length st)) nfo (λ nfo dex,
            cur <- Doc.on_stack l Stack.store ;;
            match cur !! dex with
            | Some pinfo =>
                if decide (uuid pinfo = u) then
                  let nfo := <[u := reversed (climits pinfo)]> nfo in
                  Doc.on_stack l
                    (Stack.__setitem__ (Z.of_nat dex)
                       (replace_climits pinfo (reversed (climits pinfo)))) ;;
                  ret nfo
                else ret nfo
            | None => ret nfo
            end))))
    (λ nfo, emit (didChangeColorLimits nfo)).
End Siblings.
End Edit.

(** * Notions used to state the properties *)

(** ** Layer sets *)

(** The tuples the getter of [animation_order] collects: one per entry
    with an ordinal. *)
Definition animated (st : list prez) : list (Z * UUID) :=
  omap (λ x, match a_order x with
             | Some a => Some (a, uuid x)
             | None => None
             end) st.

(** The cache, when there is one, is the mapping built from the store. *)
Definition cache_ok (s : DocLayerStack) : Prop :=
  ∀ c, _u2r s = Some c → c = Stack.build_u2r (_store s).

(** Row [i] is the last one whose entry carries [u]. *)
Definition last_row (st : list prez) (u : UUID) (i : nat) : Prop :=
  uuid <$> st !! i = Some u ∧ ∀ j, (i < j)%nat → uuid <$> st !! j ≠ Some u.

(** The operations of a [DocLayerStack], as a caller may issue them one
    after the other; a caller may catch what one raises and go on. *)
Inductive StackOp : Type :=
| OpInsert (index : Z) (value : prez)
| OpSetItem (index : Z) (value : prez)
| OpDelItem (index : PyKey)
| OpGetItem (index : PyKey)
| OpIndex (u : UUID)
| OpClearAnimationOrder
| OpAnimationOrder
| OpSetAnimationOrder (layer_or_uuid_seq : list PyKey).

Definition run_op (op : StackOp) : M DocLayerStack unit :=
  match op with
  | OpInsert i v => Stack.insert i v
  | OpSetItem i v => Stack.__setitem__ i v
  | OpDelItem k => Stack.__delitem__ k
  | OpGetItem k => Stack.__getitem__ k ;; ret tt
  | OpIndex u => Stack.index u ;; ret tt
  | OpClearAnimationOrder => Stack.clear_animation_order
  | OpAnimationOrder => Stack.animation_order ;; ret tt
  | OpSetAnimationOrder ks => Stack.set_animation_order ks
  end.

(** The object after a sequence of operations, whatever each returned or
    raised. *)
Definition run_ops (ops : list StackOp) (s : DocLayerStack) : DocLayerStack :=
  foldl (λ s op, (run_op op s).1.2) s ops.

(** The identifier a key stands for, when it is a UUID, a layer or a
    presentation tuple. *)
Definition key_uuid (k : PyKey) : option UUID :=
  match k with
  | KUUID u => Some u
  | KLayer l => Some (INFO_UUID l)
  | KPrez p => Some (uuid p)
  | KInt _ | KSlice _ _ | KNone => None
  end.

(** What the animation-order setter raises at an item that names no
    identifier held by the store [st], and what it logs before: an
    identifier without a row and an index within range end in indexing the
    list with something that is no [int]; an index out of range is refused
    by the list; a slice or [None] is refused by [__getitem__], which the
    setter reports before it raises again. *)
Definition setter_refusal (st : list prez) (k : PyKey) : PyExc :=
  match k with
  | KInt i =>
      if decide (- Z.of_nat (length st) ≤ i < Z.of_nat (length st))
      then TypeError else IndexError
  | KSlice _ _ | KNone => ValueError
  | KUUID _ | KLayer _ | KPrez _ => TypeError
  end.

Definition setter_refusal_log (k : PyKey) : list Event :=
  match k with
  | KSlice _ _ | KNone => [Log WARNING "unable to find layer in LayerStack"]
  | _ => []
  end.

(** [o] is the ordinal that the sequence [us] gives to row [i], when [row]
    resolves identifiers to rows: the last position of [us] whose identifier
    resolves to [i], and none when no position does. *)
Definition ordinal_of (row : gmap UUID nat) (us : list UUID) (i : nat)
    (o : option Z) : Prop :=
  match o with
  | Some z =>
      ∃ n u, z = Z.of_nat n ∧ us !! n = Some u ∧ row !! u = Some i
             ∧ ∀ m v, (n < m)%nat → us !! m = Some v → row !! v ≠ Some i
  | None => ∀ n u, us !! n = Some u → row !! u ≠ Some i
  end.

(** The same, computed. *)
Definition ordinal (row : gmap UUID nat) (us : list UUID) (i : nat)
    : option Z :=
  foldl (λ acc nu, if decide (row !! nu.2 = Some i)
                   then Some (Z.of_nat nu.1) else acc)
        None (PyList.enumerate us).

(** A store with every ordinal cleared. *)
Definition cleared (st : list prez) : list prez :=
  (λ q, replace_a_order q None) <$> st.

(** A store in which every row has the ordinal that [us] gives it. *)
Definition assigned (st : list prez) (us : list UUID) : list prez :=
  imap (λ i p, replace_a_order p (ordinal (Stack.build_u2r st) us i)) st.

(** ** Documents *)

(** The stack objects the slots of a document name. *)
Definition slot_locs (d : Document) : list loc := omap id (_layer_sets d).

(** No two slots name the same object, and every slot names an object of
    the store.  [__init__] establishes this and the operations keep it. *)
Definition wf (d : Document) : Prop :=
  NoDup (slot_locs d) ∧ ∀ l, l ∈ slot_locs d → (l < length (stacks d))%nat.

(** [current_set_index] is the (non-negative) index of a slot that holds
    the stack at [cur]. *)
Definition current_at (d : Document) (cur : loc) : Prop :=
  0 ≤ current_set_index d
  ∧ _layer_sets d !! Z.to_nat (current_set_index d) = Some (Some cur).

Definition with_stacks (d : Document) (st : list DocLayerStack) : Document :=
  MkDoc (current_set_index d) (_layer_sets d) (_layer_with_uuid d) st.

(** The store of the current set of a document, when it has one. *)
Definition current_store (d : Document) : option (list prez) :=
  match PyList.getitem (_layer_sets d) (current_set_index d) with
  | Ok (Some l) => _store <$> stacks d !! l
  | _ => None
  end.

(** Some entry of the stack at [l] carries [u]. *)
Definition holds (d : Document) (l : loc) (u : UUID) : Prop :=
  ∃ s, stacks d !! l = Some s ∧ u ∈ uuid <$> _store s.

(** Some layer set of the document holds a presentation entry for [u]. *)
Definition in_use (d : Document) (u : UUID) : Prop :=
  ∃ k l, _layer_sets d !! k = Some (Some l) ∧ holds d l u.

(** [in_use], computed the way [is_using] walks the sets. *)
Definition stack_has (u : UUID) (s : DocLayerStack) : bool :=
  existsb (λ p, bool_decide (uuid p = u)) (_store s).

Definition in_use_b (d : Document) (u : UUID) : bool :=
  existsb (λ ls, match ls with
                 | Some l => match stacks d !! l with
                             | Some s => stack_has u s
                             | None => false
                             end
                 | None => false
                 end) (_layer_sets d).

(** The store after slot [k0 + i] of [slots] has had [g (k0 + i)] applied
    to its stack, for every [i] in turn. *)
Fixpoint on_slots (g : nat → DocLayerStack → DocLayerStack) (k0 : nat)
    (slots : list (option loc)) (st : list DocLayerStack)
    : list DocLayerStack :=
  match slots with
  | [] => st
  | None :: rest => on_slots g (S k0) rest st
  | Some l :: rest => on_slots g (S k0) rest (alter (g k0) l st)
  end.

(** What the loop over the other sets does to one stack: the first entry
    for [u], if any, is deleted. *)
Definition drop_first (u : UUID) (s : DocLayerStack) : DocLayerStack :=
  match list_find (λ presentation, uuid presentation = u) (_store s) with
  | Some (pdex, _) => MkStack (delete pdex (_store s)) None
  | None => s
  end.


(** ** Dropped entries *)

(** The [prez] tuples among the objects of a sequence, in order. *)
Definition key_prez (k : PyKey) : option prez :=
  match k with
  | KPrez p => Some p
  | _ => None
  end.

Definition prez_items (ks : list PyKey) : list prez := omap key_prez ks.

(** The error records [insert_layer_prez] logs for a sequence: one for
    each object that is not a [prez] tuple. *)
Definition wrong_type_records (ks : list PyKey) : list Event :=
  omap (λ k, match key_prez k with
             | Some _ => None
             | None =>
                 Some (Log ERROR
                   "attempt to drop a new layer with the wrong type: {0!r:s}")
             end) ks.

(** ** Reversed colour limits *)

(** An entry with its colour limits reversed; an entry after the round of
    [flip_climits_for_layers] for the identifier [u], and after the rounds
    for the identifiers [targets]: reversed once for each of them that is
    its own. *)
Definition flipped (p : prez) : prez :=
  Prez (uuid p) (kind p) (visible p) (a_order p) (colormap p)
       (reversed (climits p)) (mixing p).

Definition flip_for (u : UUID) (q : prez) : prez :=
  if bool_decide (uuid q = u) then flipped q else q.

Definition flip_rounds (targets : list UUID) (p : prez) : prez :=
  foldl (λ q u, flip_for u q) p targets.

(** What the walk over the rows for [u] records at an entry. *)
Definition record_for (u : UUID) (a : gmap UUID Climits) (p : prez)
    : gmap UUID Climits :=
  if bool_decide (uuid p = u) then <[u := reversed (climits p)]> a else a.

(** ** Visibility *)

(** One round of the loop of [toggle_layer_visibility], as it stands in
    [Doc.toggle_layer_visibility]. *)
Definition toggle_layer_visibility_step (L : option loc)
    (visible_arg : option bool) (zult : gmap UUID bool) (dex : RowOrUUID)
    : M Document (gmap UUID bool) :=
  dex <- match dex with
         | Uuid u =>
             l <- Doc.as_stack L AttributeError ;;
             r <- Doc.on_stack l (Stack.index u) ;;
             ret (key_of_val (VRow r))
         | Row i => ret (KInt i)
         end ;;
  l <- Doc.as_stack L TypeError ;;
  old <- Doc.on_stack l (Stack.__getitem__ dex) ;;
  match old with
  | VPrez old =>
      let vis := match visible_arg with
                 | None => negb (visible old)
                 | Some v => v
                 end in
      let nu := replace_visible old vis in
      match dex with
      | KInt i => Doc.on_stack l (Stack.__setitem__ i nu)
      | _ => raise TypeError
      end ;;
      ret (<[uuid nu := visible nu]> zult)
  | VRow _ => raise AttributeError
  end.

(** The row a selector stands for in a store, when the loop can write to
    it: a row in [0 .. n-1] stands for itself, an identifier for the last
    row that carries it. *)
Definition selector_row (st : list prez) (sel : RowOrUUID) : option nat :=
  match sel with
  | Row i =>
      if decide (0 ≤ i < Z.of_nat (length st)) then Some (Z.to_nat i)
      else None
  | Uuid u => Stack.build_u2r st !! u
  end.

(** An entry with the visibility asked for: the opposite of what it has
    when none is given. *)
Definition new_visibility (v : option bool) (p : prez) : prez :=
  replace_visible p (match v with
                     | None => negb (visible p)
                     | Some b => b
                     end).

(** A store and a report after the rows [rvs] have been given their
    visibility, one after the other; the report maps the identifier of
    each row written to the visibility written. *)
Definition visibility_pass (rvs : list (nat * option bool))
    (st : list prez) (zult : gmap UUID bool) : list prez * gmap UUID bool :=
  foldl (λ acc rv,
           match acc.1 !! rv.1 with
           | Some p =>
               (<[rv.1 := new_visibility rv.2 p]> acc.1,
                <[uuid p := visible (new_visibility rv.2 p)]> acc.2)
           | None => acc
           end) (st, zult) rvs.

(** ** Reachable documents *)

(** The invariant of the documents the code builds: well-formed, with a
    current set. *)
Definition sound (d : Document) : Prop := wf d ∧ ∃ cur, current_at d cur.

(** The calls a client may make on a document, with the collaborators of
    [open_file] fixed. *)
Inductive DocOp : Type :=
| DoOpenFile (path : string) (insert_before : Z)
| DoUpdateDatasetInfo (new_info : UUID * Fields)
| DoSelectLayerSet (layer_set_index : Z)
| DoToggleVisibility (rows_or_uuids : list RowOrUUID) (visible_arg : option bool)
| DoRemoveLayerPrez (row_or_uuid : RowOrUUID) (count : Z)
| DoRemoveFromAllSets (uuids : list UUID).

Section Reachable.
Variable import_image : string → UUID * Layer * Content.
Variable collect_info : Layer → Fields.
Variable default_colormap : Layer → option Colormap.
Variable guidebook_climits : Layer → Climits.
Variable display_name : Layer → option string.

Definition run_doc_op (op : DocOp) : M Document unit :=
  match op with
  | DoOpenFile path ib =>
      Doc.open_file import_image collect_info default_colormap
                    guidebook_climits display_name path ib ;; ret tt
  | DoUpdateDatasetInfo ni => Doc.update_dataset_info ni
  | DoSelectLayerSet i => Doc.select_layer_set i
  | DoToggleVisibility rows v => Doc.toggle_layer_visibility rows v
  | DoRemoveLayerPrez sel count => Doc.remove_layer_prez sel count
  | DoRemoveFromAllSets uuids => Doc.remove_layers_from_all_sets uuids
  end.

(** The document after a series of calls, whatever each returned or
    raised. *)
Definition run_doc_ops (ops : list DocOp) (d : Document) : Document :=
  foldl (λ d op, (run_doc_op op d).1.2) d ops.
End Reachable.

(** ** Tidy documents *)

(** A layer set is tidy, for a catalogue, when its cache is sound, it
    holds no identifier twice, and it holds only identifiers of the
    catalogue. *)
Definition tidy_stack (c : gmap UUID Layer) (s : DocLayerStack) : Prop :=
  cache_ok s
  ∧ NoDup (uuid <$> _store s)
  ∧ ∀ u, u ∈ uuid <$> _store s → is_Some (c !! u).

(** A document is tidy when it is sound and each of its layer sets is
    tidy for its catalogue. *)
Definition tidy (d : Document) : Prop :=
  sound d
  ∧ ∀ k l s, _layer_sets d !! k = Some (Some l) → stacks d !! l = Some s →
      tidy_stack (_layer_with_uuid d) s.

(** ** A small program logic for the monad *)

(** [hoare P m Q E]: run from a state in [P], [m] either returns [a] in a
    state satisfying [Q a] or raises in a state satisfying [E]. *)
Definition hoare {S A} (P : S → Prop) (m : M S A) (Q : A → S → Prop)
    (E : S → Prop) : Prop :=
  ∀ s, P s → match m s with
             | (Ok a, s', _) => Q a s'
             | (Raise _, s', _) => E s'
             end.

(** ** Concrete values used by the examples *)

Definition pz (u : N) (v : bool) (a : option Z) : prez :=
  Prez u IMAGE v a None (ClimPair 0%N 0%N) NORMAL.

Definition lyr (u : N) : Layer :=
  MkLayer u IMAGE "band" (ClimPair 0%N 1%N) None None None.

(** A workspace for the examples that imports every path as layer 1, and
    a guidebook that adds nothing. *)
Definition import_one (path : string) : UUID * Layer * Content :=
  (1%N, lyr 1, []).
Definition gb_collect_info (l : Layer) : Fields := MkFields None None.
Definition gb_default_colormap (l : Layer) : option Colormap :=
  Some (CmapName "grays").
Definition gb_climits (l : Layer) : Climits := INFO_CLIM l.
Definition gb_display_name (l : Layer) : option string := None.

Definition open_one : string → Z → M Document (UUID * Layer * Content) :=
  Doc.open_file import_one gb_collect_info gb_default_colormap gb_climits
                gb_display_name.

(** A workspace that imports ["a.tif"] as layer 1 and any other path as
    layer 2. *)
Definition import_two (path : string) : UUID * Layer * Content :=
  if decide (path = "a.tif") then (1%N, lyr 1, []) else (2%N, lyr 2, []).

Definition open_two : string → Z → M Document (UUID * Layer * Content) :=
  Doc.open_file import_two gb_collect_info gb_default_colormap gb_climits
                gb_display_name.

(** A document with two layers shown in its first set and a second,
    empty slot. *)
Definition doc_two_layers : Document :=
  MkDoc 0 [Some 0%nat; None]
        (<[1%N := lyr 1]> (<[2%N := lyr 2]> ∅))
        [MkStack [pz 1 true None; pz 2 true None] None].

(** The same two layers, each with colour limits of its own. *)
Definition doc_with_limits : Document :=
  MkDoc 0 [Some 0%nat; None]
        (<[1%N := lyr 1]> (<[2%N := lyr 2]> ∅))
        [MkStack [Prez 1%N IMAGE true None None (ClimPair 1%N 5%N) NORMAL;
                  Prez 2%N IMAGE true None None (ClimPair 2%N 7%N) NORMAL]
                 None].

(** A document with two sets.  Layer 1 is an image shown in both; layer 3
    is an RGB composite, shown in the current set, whose red channel is
    layer 1. *)
Definition rgb_of_one : Layer :=
  MkLayer 3%N RGB "-RGB-" (ClimRGB None None None) (Some 1%N) None None.

Definition doc_with_composite : Document :=
  MkDoc 0 [Some 0%nat; Some 1%nat]
        (<[1%N := lyr 1]> (<[3%N := rgb_of_one]> ∅))
        [MkStack [Prez 3%N RGB true None None (ClimRGB None None None) NORMAL;
                  pz 1 true None] None;
         MkStack [pz 1 false None] None].

(** * Properties *)

(** ** The monad *)

Section MonadFacts.
Context {S A B : Type}.

Lemma bind_ok (m : M S A) (k : A → M S B) s a s1 t1 r s2 t2 :
  m s = (Ok a, s1, t1) → k a s1 = (r, s2, t2) →
  bind m k s = (r, s2, t1 ++ t2).
Proof. intros Hm Hk. unfold bind. by rewrite Hm, Hk. Qed.

Lemma bind_raise (m : M S A) (k : A → M S B) s e s1 t1 :
  m s = (Raise e, s1, t1) → bind m k s = (Raise e, s1, t1).
Proof. intros Hm. unfold bind. by rewrite Hm. Qed.
End MonadFacts.

(** ** Python lists *)

Section PyListFacts.
Context {A : Type}.
Implicit Types (l : list A) (i : Z).

Lemma clamp_le l i : (PyList.clamp l i ≤ length l)%nat.
Proof. unfold PyList.clamp. case_decide; lia. Qed.

Lemma clamp_in_range l i :
  0 ≤ i ≤ Z.of_nat (length l) → PyList.clamp l i = Z.to_nat i.
Proof. intros ?. unfold PyList.clamp. case_decide; lia. Qed.

Lemma clamp_above l i :
  Z.of_nat (length l) ≤ i → PyList.clamp l i = length l.
Proof. intros ?. unfold PyList.clamp. case_decide; lia. Qed.

Lemma clamp_negative l i :
  - Z.of_nat (length l) ≤ i < 0 →
  PyList.clamp l i = Z.to_nat (i + Z.of_nat (length l)).
Proof. intros ?. unfold PyList.clamp. case_decide; lia. Qed.

Lemma clamp_below l i : i < - Z.of_nat (length l) → PyList.clamp l i = 0%nat.
Proof. intros ?. unfold PyList.clamp. case_decide; lia. Qed.

Lemma insert_length l i x :
  length (PyList.inserted l i x) = Datatypes.S (length l).
Proof.
  unfold PyList.inserted. pose proof (clamp_le l i).
  rewrite length_app, length_take; simpl. rewrite length_drop. lia.
Qed.

Lemma insert_lookup_at l i x :
  PyList.inserted l i x !! PyList.clamp l i = Some x.
Proof.
  unfold PyList.inserted. pose proof (clamp_le l i).
  rewrite lookup_app_r by (rewrite length_take; lia).
  rewrite length_take. by replace (_ - _)%nat with 0%nat by lia.
Qed.

Lemma insert_lookup_before l i x (k : nat) :
  (k < PyList.clamp l i)%nat → PyList.inserted l i x !! k = l !! k.
Proof.
  intros ?. unfold PyList.inserted. pose proof (clamp_le l i).
  rewrite lookup_app_l by (rewrite length_take; lia).
  by rewrite lookup_take_lt.
Qed.

Lemma insert_lookup_after l i x (k : nat) :
  (PyList.clamp l i ≤ k)%nat →
  PyList.inserted l i x !! Datatypes.S k = l !! k.
Proof.
  intros ?. unfold PyList.inserted. pose proof (clamp_le l i).
  rewrite lookup_app_r by (rewrite length_take; lia).
  rewrite length_take.
  replace (Datatypes.S k - _)%nat
    with (Datatypes.S (k - PyList.clamp l i)) by lia.
  simpl. rewrite lookup_drop. f_equal. lia.
Qed.

Lemma insert_front l x : PyList.inserted l 0 x = x :: l.
Proof.
  unfold PyList.inserted. rewrite clamp_in_range by lia. by simpl.
Qed.
End PyListFacts.

(** ** DocLayerStack.insert *)

Lemma fits_index_spec (i : Z) :
  PyList.fits_index i = true ↔ - 2 ^ 63 ≤ i ≤ 2 ^ 63 - 1.
Proof. unfold PyList.fits_index. apply bool_decide_eq_true. Qed.

Lemma fits_index_small (i : Z) :
  - 2 ^ 63 ≤ i ≤ 2 ^ 63 - 1 → PyList.fits_index i = true.
Proof. apply fits_index_spec. Qed.

Lemma fits_index_large (i : Z) :
  ¬ (- 2 ^ 63 ≤ i ≤ 2 ^ 63 - 1) → PyList.fits_index i = false.
Proof. unfold PyList.fits_index. apply bool_decide_eq_false. Qed.

Lemma Stack_insert_run index value s :
  PyList.fits_index index = true →
  Stack.insert index value s
  = (Ok tt, MkStack (PyList.inserted (_store s) index value) None, []).
Proof.
  intros Hfit. unfold Stack.insert, bind, Stack.store, lift, PyList.insert.
  by rewrite Hfit.
Qed.

Lemma Stack_insert_overflow index value s :
  PyList.fits_index index = false →
  Stack.insert index value s = (Raise OverflowError, s, []).
Proof.
  intros Hfit. unfold Stack.insert, bind, Stack.store, lift, PyList.insert.
  by rewrite Hfit.
Qed.

(** C6, as the code has it: no position is out of range for [insert].
    For an index that is a machine index (from [-2^63] to [2^63 - 1]) it
    returns, drops the cache and leaves a store one entry longer in which
    [value] sits at a position that depends on [index]: at [index] itself
    when [0 <= index <= n] (so at the end when [index = n]), at the end
    when [index > n], at [index + n] when [-n <= index < 0], and at the
    front when [index < -n].  The entries before that position keep their
    rows and those from it on move down by one.  For any other index it
    raises [OverflowError], and the store and the cache are as they
    were. *)
Theorem insert_clamped_or_overflow (s : DocLayerStack) (index : Z)
    (value : prez) :
  let n := Z.of_nat (length (_store s)) in
  (- 2 ^ 63 ≤ index ≤ 2 ^ 63 - 1 →
   ∃ s' pos,
     Stack.insert index value s = (Ok tt, s', [])
     ∧ _u2r s' = None
     ∧ length (_store s') = S (length (_store s))
     ∧ _store s' !! pos = Some value
     ∧ (∀ k, (k < pos)%nat → _store s' !! k = _store s !! k)
     ∧ (∀ k, (pos ≤ k)%nat → _store s' !! S k = _store s !! k)
     ∧ (0 ≤ index ≤ n → pos = Z.to_nat index)
     ∧ (n < index → pos = length (_store s))
     ∧ (- n ≤ index < 0 → pos = Z.to_nat (index + n))
     ∧ (index < - n → pos = 0%nat))
  ∧ (¬ (- 2 ^ 63 ≤ index ≤ 2 ^ 63 - 1) →
     Stack.insert index value s = (Raise OverflowError, s, [])).
Proof.
  intros n. split.
  - intros Hfit. eexists _, (PyList.clamp (_store s) index).
    split; [by apply Stack_insert_run, fits_index_small|]. simpl.
    split; [done|].
    split; [apply insert_length|].
    split; [apply insert_lookup_at|].
    split; [intros k ?; by apply insert_lookup_before|].
    split; [intros k ?; by apply insert_lookup_after|].
    subst n. repeat split; intros ?.
    + by apply clamp_in_range.
    + apply clamp_above. lia.
    + by apply clamp_negative.
    + by apply clamp_below.
  - intros Hbig. by apply Stack_insert_overflow, fits_index_large.
Qed.

(** C6, counterexample to the claim as stated: index 5 lies outside
    [0, 0] for the empty set, yet [insert] does not fail and the set
    changes. *)
Lemma insert_out_of_range_succeeds :
  ¬ (0 ≤ 5 ≤ Z.of_nat (length (_store Stack.init_empty)))
  ∧ Stack.insert 5 (pz 1 true None) Stack.init_empty
    = (Ok tt, MkStack [pz 1 true None] None, []).
Proof. split; [simpl; lia | reflexivity]. Qed.

(** ** DocLayerStack.animation_order (getter) *)

#[export] Instance aouu_le_trans : Transitive Stack.aouu_le.
Proof. intros [a u] [b v] [c w]. unfold Stack.aouu_le. simpl. lia. Qed.

#[export] Instance aouu_le_total : Total Stack.aouu_le.
Proof. intros [a u] [b v]. unfold Stack.aouu_le. simpl. lia. Qed.

#[export] Instance aouu_le_antisymm : AntiSymm (=) Stack.aouu_le.
Proof.
  intros [a u] [b v]. unfold Stack.aouu_le. simpl. intros ??.
  f_equal; lia.
Qed.

Lemma animated_elem st a u :
  (a, u) ∈ animated st ↔ ∃ p, p ∈ st ∧ a_order p = Some a ∧ uuid p = u.
Proof.
  unfold animated. rewrite list_elem_of_omap. split.
  - intros (p & Hp & Heq). exists p. destruct (a_order p); naive_solver.
  - intros (p & Hp & Ha & Hu). exists p. rewrite Ha. naive_solver.
Qed.

(** A sorted list is determined by its elements: two sorted permutations
    of one another are equal.  This is why the sorting algorithm chosen
    for [list.sort] does not matter. *)
Lemma sorted_perm_unique (l1 l2 : list (Z * UUID)) :
  StronglySorted Stack.aouu_le l1 → StronglySorted Stack.aouu_le l2 →
  l1 ≡ₚ l2 → l1 = l2.
Proof.
  intros H1. revert l2. induction H1 as [|x l1 Hs IH Hall]; intros l2 H2 Hp.
  - by apply Permutation_nil_l in Hp.
  - destruct H2 as [|y l2 Hs2 Hall2].
    + by apply Permutation_nil_r in Hp.
    + assert (x = y) as ->.
      { assert (x ∈ y :: l2) as Hx by (rewrite <- Hp; left).
        assert (y ∈ x :: l1) as Hy by (rewrite Hp; left).
        apply elem_of_cons in Hx as [?|Hx]; [done|].
        apply elem_of_cons in Hy as [?|Hy]; [done|].
        rewrite Forall_forall in Hall, Hall2.
        apply (anti_symm Stack.aouu_le); auto. }
      f_equal. apply IH; [done|]. by apply (inj (cons y)).
Qed.

Lemma Stack_animation_order_run s :
  Stack.animation_order s
  = (Ok ((merge_sort Stack.aouu_le (animated (_store s))).*2), s,
     [Log DEBUG "animation order is {0!r:s}"]).
Proof. reflexivity. Qed.

(** C8: the getter returns, leaves the set as it was, and what it returns
    are the identifiers of a list of [(ordinal, identifier)] tuples that
    (1) holds exactly one tuple per entry with a non-null ordinal and
    (2) is sorted by ordinal, ties broken by identifier. *)
Theorem animation_order_sorted_filter (s : DocLayerStack) :
  ∃ aouu t,
    Stack.animation_order s = (Ok (aouu.*2), s, t)
    ∧ aouu ≡ₚ animated (_store s)
    ∧ (∀ a u, (a, u) ∈ aouu ↔
              ∃ p, p ∈ _store s ∧ a_order p = Some a ∧ uuid p = u)
    ∧ StronglySorted Stack.aouu_le aouu
    ∧ (∀ i j x y, aouu !! i = Some x → aouu !! j = Some y → (i < j)%nat →
                  x.1 < y.1 ∨ (x.1 = y.1 ∧ (x.2 ≤ y.2)%N)).
Proof.
  eexists _, _. split; [apply Stack_animation_order_run|].
  assert (StronglySorted Stack.aouu_le
            (merge_sort Stack.aouu_le (animated (_store s)))) as Hs
    by apply (StronglySorted_merge_sort _).
  split; [apply merge_sort_Permutation|].
  split.
  { intros a u. rewrite merge_sort_Permutation. apply animated_elem. }
  split; [done|].
  intros i j x y Hi Hj Hlt.
  revert i j Hi Hj Hlt. induction Hs as [|z l Hs IH Hall]; intros i j Hi Hj Hlt.
  - done.
  - destruct j as [|j]; [lia|]. destruct i as [|i]; simpl in *.
    + injection Hi as ->. rewrite Forall_forall in Hall.
      apply Hall. by eapply list_elem_of_lookup_2.
    + eapply IH; eauto. lia.
Qed.

(** ** Rules of the program logic *)

Section Hoare.
Context {S : Type}.
Implicit Types (P E : S → Prop).

Lemma hoare_ret {A} P E (a : A) (Q : A → S → Prop) :
  (∀ s, P s → Q a s) → hoare P (ret a) Q E.
Proof. intros H s Hs. by apply H. Qed.

Lemma hoare_raise {A} P E e (Q : A → S → Prop) :
  (∀ s, P s → E s) → hoare P (raise e) Q E.
Proof. intros H s Hs. by apply H. Qed.

Lemma hoare_lift {A} P E (r : Res A) (Q : A → S → Prop) :
  (∀ s a, P s → r = Ok a → Q a s) → (∀ s, P s → E s) →
  hoare P (lift r) Q E.
Proof. intros H1 H2 s Hs. unfold lift. destruct r; eauto. Qed.

Lemma hoare_log P E lvl msg (Q : unit → S → Prop) :
  (∀ s, P s → Q tt s) → hoare P (log lvl msg) Q E.
Proof. intros H s Hs. by apply H. Qed.

Lemma hoare_get P E (Q : S → S → Prop) :
  (∀ s, P s → Q s s) → hoare P get Q E.
Proof. intros H s Hs. by apply H. Qed.

Lemma hoare_bind {A B} P E (m : M S A) (k : A → M S B) Q R :
  hoare P m Q E → (∀ a, hoare (Q a) (k a) R E) → hoare P (bind m k) R E.
Proof.
  intros Hm Hk s Hs. specialize (Hm s Hs). unfold bind.
  destruct (m s) as [[[a|e] s1] t1]; [|done].
  specialize (Hk a s1 Hm). by destruct (k a s1) as [[[b|e] s2] t2].
Qed.

Lemma hoare_conseq {A} P P' E E' (m : M S A) (Q Q' : A → S → Prop) :
  hoare P' m Q' E' → (∀ s, P s → P' s) → (∀ a s, Q' a s → Q a s) →
  (∀ s, E' s → E s) → hoare P m Q E.
Proof.
  intros Hm HP HQ HE s Hs. specialize (Hm s (HP s Hs)).
  destruct (m s) as [[[a|e] s1] t1]; auto.
Qed.

Lemma hoare_for_each {A} P (xs : list A) (body : A → M S unit) :
  (∀ x, x ∈ xs → hoare P (body x) (λ _, P) P) →
  hoare P (for_each xs body) (λ _, P) P.
Proof.
  induction xs as [|x xs IH]; intros Hbody.
  - by apply hoare_ret.
  - simpl. eapply hoare_bind.
    + apply Hbody. left.
    + intros ?. apply IH. intros y Hy. apply Hbody. by right.
Qed.

Lemma hoare_fold_each {A B} P (xs : list A) (acc : B) (body : B → A → M S B) :
  (∀ b x, x ∈ xs → hoare P (body b x) (λ _, P) P) →
  hoare P (fold_each xs acc body) (λ _, P) P.
Proof.
  revert acc. induction xs as [|x xs IH]; intros acc Hbody.
  - by apply hoare_ret.
  - simpl. eapply hoare_bind.
    + apply Hbody. left.
    + intros b. apply IH. intros c y Hy. apply Hbody. by right.
Qed.

Lemma hoare_except_ValueError {A} P E (m h : M S A) (Q : A → S → Prop) E' :
  hoare P m Q E' → hoare E' h Q E → (∀ s, E' s → E s) →
  hoare P (except_ValueError m h) Q E.
Proof.
  intros Hm Hh HE s Hs. specialize (Hm s Hs). unfold except_ValueError.
  destruct (m s) as [[[a|e] s1] t1]; [done|].
  destruct e; auto.
  specialize (Hh s1 Hm). by destruct (h s1) as [[[b|e] s2] t2].
Qed.


(** The state after a run, whatever the outcome. *)
Lemma hoare_final {A} P (m : M S A) s :
  hoare P m (λ _, P) P → P s → P (m s).1.2.
Proof.
  intros Hm Hs. specialize (Hm s Hs). by destruct (m s) as [[[a|e] s1] t1].
Qed.
End Hoare.

(** ** The identifier-to-row mapping *)

Lemma py_dict_snoc `{Countable K} {V} (kvs : list (K * V)) k v :
  py_dict (kvs ++ [(k, v)]) = <[k := v]> (py_dict kvs).
Proof. unfold py_dict. by rewrite foldl_app. Qed.

Lemma enumerate_snoc {A} (l : list A) x :
  PyList.enumerate (l ++ [x]) = PyList.enumerate l ++ [(length l, x)].
Proof.
  unfold PyList.enumerate. rewrite imap_app. simpl.
  by rewrite Nat.add_0_r.
Qed.

Lemma build_u2r_nil : Stack.build_u2r [] = ∅.
Proof. reflexivity. Qed.

Lemma build_u2r_snoc st p :
  Stack.build_u2r (st ++ [p]) = <[uuid p := length st]> (Stack.build_u2r st).
Proof.
  unfold Stack.build_u2r. rewrite enumerate_snoc, fmap_app. simpl.
  by rewrite py_dict_snoc.
Qed.

(** What the mapping holds: [u] is sent to the last row that carries it. *)
Lemma build_u2r_lookup st u i :
  Stack.build_u2r st !! u = Some i ↔ last_row st u i.
Proof.
  unfold last_row. revert i. induction st as [|p st IH] using rev_ind; intros i.
  - rewrite build_u2r_nil, lookup_empty. split; [done|]. by intros [? _].
  - rewrite build_u2r_snoc. destruct (decide (uuid p = u)) as [<-|Hne].
    + rewrite lookup_insert_eq. split.
      * intros [= <-]. split.
        -- by rewrite lookup_app_r, Nat.sub_diag by lia.
        -- intros j Hj. rewrite lookup_ge_None_2; [done|].
           rewrite length_app. simpl. lia.
      * intros [Hi Hlast]. f_equal.
        destruct (decide (i = length st)) as [|Hn]; [done|].
        assert (i < length st)%nat.
        { apply fmap_Some in Hi as (q & Hq & _).
          apply lookup_lt_Some in Hq. rewrite length_app in Hq. simpl in Hq.
          lia. }
        exfalso. apply (Hlast (length st)); [lia|].
        by rewrite lookup_app_r, Nat.sub_diag by lia.
    + rewrite lookup_insert_ne by done. rewrite IH. split.
      * intros [Hi Hlast].
        assert (i < length st)%nat.
        { apply fmap_Some in Hi as (q & Hq & _). by apply lookup_lt_Some in Hq. }
        split; [by rewrite lookup_app_l|].
        intros j Hj. destruct (decide (j < length st)%nat).
        -- rewrite lookup_app_l by done. by apply Hlast.
        -- destruct (decide (j = length st)) as [->|].
           ++ rewrite lookup_app_r, Nat.sub_diag by lia. simpl. congruence.
           ++ rewrite lookup_ge_None_2; [done|]. rewrite length_app. simpl. lia.
      * intros [Hi Hlast].
        assert (i < length st)%nat.
        { destruct (decide (i < length st)%nat); [done|].
          destruct (decide (i = length st)) as [->|].
          - rewrite lookup_app_r, Nat.sub_diag in Hi by lia. simpl in Hi.
            congruence.
          - rewrite lookup_ge_None_2 in Hi; [done|].
            rewrite length_app. simpl. lia. }
        rewrite lookup_app_l in Hi by done. split; [done|].
        intros j Hj. destruct (decide (j < length st)%nat).
        -- specialize (Hlast j Hj). by rewrite lookup_app_l in Hlast.
        -- by rewrite lookup_ge_None_2 by lia.
Qed.

(** The mapping is a function of the identifiers alone. *)
Lemma build_u2r_uuids st1 st2 :
  uuid <$> st1 = uuid <$> st2 → Stack.build_u2r st1 = Stack.build_u2r st2.
Proof.
  intros Heq. apply map_eq. intros u. apply option_eq. intros i.
  rewrite !build_u2r_lookup. unfold last_row.
  assert (∀ j, uuid <$> st1 !! j = uuid <$> st2 !! j) as Hj.
  { intros j. by rewrite <- !list_lookup_fmap, Heq. }
  split; intros [H1 H2]; (split; [by rewrite ?Hj, <- ?Hj in *|]);
    intros j ?; specialize (H2 j); rewrite Hj in *; auto.
Qed.

Lemma build_u2r_is_Some st u :
  is_Some (Stack.build_u2r st !! u) ↔ u ∈ uuid <$> st.
Proof.
  induction st as [|p st IH] using rev_ind.
  - rewrite build_u2r_nil, lookup_empty. simpl. rewrite elem_of_nil.
    split; [by intros [? ?]|done].
  - rewrite build_u2r_snoc, fmap_app, elem_of_app. simpl.
    rewrite list_elem_of_singleton.
    destruct (decide (uuid p = u)) as [<-|Hne].
    + rewrite lookup_insert_eq. split; [by right | by eexists].
    + rewrite lookup_insert_ne by done. rewrite IH.
      split; [by left | by intros [?|?]].
Qed.

(** Without duplicates, "last row carrying [u]" is "row carrying [u]". *)
Lemma last_row_NoDup st u i :
  NoDup (uuid <$> st) → last_row st u i ↔ uuid <$> st !! i = Some u.
Proof.
  intros Hnd. unfold last_row. split; [by intros [? _]|].
  intros Hi. split; [done|]. intros j Hlt Hj.
  rewrite <- list_lookup_fmap in Hi, Hj.
  pose proof (NoDup_lookup _ _ _ _ Hnd Hi Hj). lia.
Qed.

(** ** The cache invariant of DocLayerStack *)

Lemma cache_ok_None st : cache_ok (MkStack st None).
Proof. intros c. by simpl. Qed.

Lemma cache_ok_built st : cache_ok (MkStack st (Some (Stack.build_u2r st))).
Proof. intros c. simpl. congruence. Qed.

Lemma norm_index_lt {A} (l : list A) i k :
  PyList.norm_index l i = Some k → (k < length l)%nat.
Proof. unfold PyList.norm_index. repeat case_decide; intros [= <-]; lia. Qed.

Lemma norm_index_of_nat {A} (l : list A) (r : nat) k :
  PyList.norm_index l (Z.of_nat r) = Some k → k = r.
Proof. unfold PyList.norm_index. repeat case_decide; intros [= <-]; lia. Qed.

Lemma getitem_Ok {A} (l : list A) i x :
  PyList.getitem l i = Ok x ↔
  ∃ k, PyList.norm_index l i = Some k ∧ l !! k = Some x.
Proof.
  unfold PyList.getitem. destruct (PyList.norm_index l i) as [k|].
  - destruct (l !! k) as [y|] eqn:Hk.
    + split; [intros [= ->]; by exists k | intros (? & [= <-] & ?); congruence].
    + split; [done | intros (? & [= <-] & ?); congruence].
  - split; [done | by intros (? & ? & _)].
Qed.

Lemma cache_ok_replace s i q a :
  cache_ok s → _store s !! i = Some q →
  cache_ok (MkStack (<[i := replace_a_order q a]> (_store s)) (_u2r s)).
Proof.
  intros Hc Hq c Hcache. simpl in *. rewrite (Hc c Hcache).
  apply build_u2r_uuids. rewrite list_fmap_insert. simpl.
  symmetry. apply list_insert_id. by rewrite list_lookup_fmap, Hq.
Qed.

Lemma uuid2row_run s :
  Stack.uuid2row s
  = match _u2r s with
    | None => (Ok (Stack.build_u2r (_store s)),
               MkStack (_store s) (Some (Stack.build_u2r (_store s))), [])
    | Some c => (Ok c, s, [])
    end.
Proof. unfold Stack.uuid2row, bind, get. simpl. by destruct (_u2r s). Qed.

(** With a sound cache, [uuid2row] answers with the mapping of the current
    store and leaves the store alone. *)
Lemma uuid2row_ok s :
  cache_ok s →
  ∃ s', Stack.uuid2row s = (Ok (Stack.build_u2r (_store s)), s', [])
        ∧ _store s' = _store s
        ∧ _u2r s' = Some (Stack.build_u2r (_store s)).
Proof.
  intros Hc. rewrite uuid2row_run. destruct (_u2r s) as [c|] eqn:Hu.
  - rewrite (Hc c Hu). eexists. split; [done|]. split; [done|].
    rewrite Hu. f_equal. by apply Hc.
  - eexists. by split.
Qed.

Lemma hoare_uuid2row :
  hoare cache_ok Stack.uuid2row (λ _, cache_ok) cache_ok.
Proof.
  intros s Hc. destruct (uuid2row_ok s Hc) as (s' & -> & Hst & Hu).
  intros c Hc'. rewrite Hst. congruence.
Qed.

Lemma hoare_getitem index :
  hoare cache_ok (Stack.__getitem__ index) (λ _, cache_ok) cache_ok.
Proof.
  destruct index; simpl;
    try (eapply hoare_bind; [apply hoare_uuid2row|];
         intros c; by apply hoare_ret).
  - intros s Hc. unfold bind, Stack.store, lift. simpl.
    by destruct (PyList.getitem (_store s) i).
  - by apply hoare_raise.
  - by apply hoare_raise.
Qed.

Lemma hoare_clear_animation_order :
  hoare cache_ok Stack.clear_animation_order (λ _, cache_ok) cache_ok.
Proof.
  intros s Hc. unfold Stack.clear_animation_order, bind at 1, Stack.store at 1.
  simpl.
  assert (hoare cache_ok
    (for_each (seq 0 (length (_store s))) (λ i,
       cur <- Stack.store ;;
       match cur !! i with
       | Some q => Stack.set_store (<[i := replace_a_order q None]> cur)
       | None => ret tt
       end)) (λ _, cache_ok) cache_ok) as H.
  { apply hoare_for_each. intros i _ s1 Hc1.
    unfold bind, Stack.store. simpl.
    destruct (_store s1 !! i) as [q|] eqn:Hq; simpl; [|done].
    by apply cache_ok_replace. }
  specialize (H s Hc).
  by destruct (for_each _ _ s) as [[[a|e] s1] t1].
Qed.

Lemma hoare_set_animation_order ks :
  hoare cache_ok (Stack.set_animation_order ks) (λ _, cache_ok) cache_ok.
Proof.
  eapply hoare_bind; [apply hoare_clear_animation_order|]. intros ?.
  apply hoare_for_each. intros [nth lu] _.
  unfold Stack.set_animation_order_step.
  eapply hoare_bind.
  { eapply hoare_except_ValueError; [apply hoare_getitem| |done].
    eapply (hoare_bind _ _ _ _ (λ _, cache_ok)); [by apply hoare_log|].
    intros ?. by apply hoare_raise. }
  intros idx s Hc. unfold bind, Stack.store_getitem, Stack.store_setitem,
    Stack.store, lift, raise, Stack.set_store. simpl.
  destruct idx as [p|[r|]]; simpl; try done.
  destruct (PyList.getitem (_store s) (Z.of_nat r)) as [old|e] eqn:Hget;
    simpl; [|done].
  apply getitem_Ok in Hget as (k & Hk & Hold).
  unfold bind, PyList.setitem. simpl. rewrite Hk. simpl.
  by apply cache_ok_replace.
Qed.

Lemma run_op_cache_ok op s : cache_ok s → cache_ok (run_op op s).1.2.
Proof.
  intros Hc. destruct op; simpl.
  - destruct (PyList.fits_index index) eqn:Hfit.
    + rewrite Stack_insert_run by done. apply cache_ok_None.
    + by rewrite Stack_insert_overflow.
  - unfold Stack.__setitem__, bind, Stack.store, lift, raise, Stack.set_store,
      Stack.set_u2r. simpl.
    repeat case_decide; simpl; try done; try apply cache_ok_None.
    destruct (PyList.setitem _ _ _); simpl; [apply cache_ok_None|done].
  - unfold Stack.__delitem__, bind, Stack.store, lift, raise, Stack.set_store,
      Stack.set_u2r. simpl.
    destruct index; simpl; try done; try apply cache_ok_None.
    destruct (PyList.delitem _ _); simpl; [apply cache_ok_None|done].
  - pose proof (hoare_getitem index s Hc) as H. unfold bind.
    by destruct (Stack.__getitem__ index s) as [[[a|e] s1] t1].
  - destruct (uuid2row_ok s Hc) as (s' & Hrun & Hst & Hu).
    unfold Stack.index, bind. rewrite Hrun. simpl.
    intros c Hc'. rewrite Hst. congruence.
  - apply (hoare_final cache_ok); [apply hoare_clear_animation_order|done].
  - done.
  - apply (hoare_final cache_ok); [apply hoare_set_animation_order|done].
Qed.

Lemma run_ops_cache_ok ops s : cache_ok s → cache_ok (run_ops ops s).
Proof.
  revert s. induction ops as [|op ops IH]; intros s Hc; [done|].
  simpl. apply IH. by apply run_op_cache_ok.
Qed.

(** C9, as the code has it.  Start from a stack as its constructor leaves
    it (any initial store, no cache) and apply any sequence of operations.
    Then [uuid2row] returns, without touching the store, a mapping that
    sends [u] to row [i] exactly when [i] is the last row whose entry
    carries [u]; when no two entries share an identifier, that is exactly
    when the entry at row [i] carries [u]. *)
Theorem uuid2row_never_stale (st0 : list prez) (ops : list StackOp) :
  let s := run_ops ops (MkStack st0 None) in
  ∃ c s',
    Stack.uuid2row s = (Ok c, s', [])
    ∧ _store s' = _store s
    ∧ (∀ u i, c !! u = Some i ↔ last_row (_store s) u i)
    ∧ (NoDup (uuid <$> _store s) →
       ∀ u i, c !! u = Some i ↔ uuid <$> _store s !! i = Some u).
Proof.
  intros s.
  assert (cache_ok s) as Hc by apply run_ops_cache_ok, cache_ok_None.
  destruct (uuid2row_ok s Hc) as (s' & Hrun & Hst & _).
  exists (Stack.build_u2r (_store s)), s'.
  split; [done|]. split; [done|]. split.
  - intros u i. apply build_u2r_lookup.
  - intros Hnd u i. rewrite build_u2r_lookup. by apply last_row_NoDup.
Qed.

(** C9, counterexample to the claim as stated: insert the same entry
    twice.  Row 0 carries identifier 1, but the mapping sends 1 to row 1
    only. *)
Lemma uuid2row_duplicate_identifier :
  let s := run_ops [OpInsert 0 (pz 1 true None); OpInsert 0 (pz 1 true None)]
                   Stack.init_empty in
  uuid <$> _store s !! 0%nat = Some 1%N
  ∧ ∃ c s', Stack.uuid2row s = (Ok c, s', []) ∧ c !! 1%N = Some 1%nat
            ∧ c !! 1%N ≠ Some 0%nat.
Proof.
  simpl. split; [reflexivity|]. eexists _, _.
  split; [reflexivity|]. split; [reflexivity|]. by vm_compute.
Qed.

(** ** More on the monad: sequencing of loops *)

Lemma bind_assoc {S A B C} (m : M S A) (f : A → M S B) (g : B → M S C) s :
  bind (bind m f) g s = bind m (λ a, bind (f a) g) s.
Proof.
  unfold bind. destruct (m s) as [[[a|e] s1] t1]; [|done].
  destruct (f a s1) as [[[b|e] s2] t2]; [|done].
  destruct (g b s2) as [[r s3] t3]. by rewrite app_assoc.
Qed.

Lemma for_each_app {S A} (xs ys : list A) (body : A → M S unit) s :
  for_each (xs ++ ys) body s
  = bind (for_each xs body) (λ _, for_each ys body) s.
Proof.
  revert s. induction xs as [|x xs IH]; intros s; simpl.
  - unfold bind, ret. by destruct (for_each ys body s) as [[r s1] t1].
  - rewrite bind_assoc. unfold bind at 1 2.
    destruct (body x s) as [[[a|e] s1] t1]; [|done]. by rewrite IH.
Qed.

Lemma bind_ret_tt {S} (m : M S unit) s : bind m (λ _, ret tt) s = m s.
Proof.
  unfold bind, ret. destruct (m s) as [[[[]|e] s1] t1]; [|done].
  by rewrite app_nil_r.
Qed.

(** ** DocLayerStack.animation_order (setter) *)

Lemma clear_loop_run n : ∀ k st c,
  (k + n)%nat = length st →
  for_each (seq k n) (λ i,
    cur <- Stack.store ;;
    match cur !! i with
    | Some q => Stack.set_store (<[i := replace_a_order q None]> cur)
    | None => ret tt
    end) (MkStack st c)
  = (Ok tt, MkStack (take k st ++ cleared (drop k st)) c, []).
Proof.
  induction n as [|n IH]; intros k st c Hlen; simpl.
  - rewrite drop_ge, take_ge by lia. by rewrite app_nil_r.
  - destruct (st !! k) as [q|] eqn:Hq;
      [|apply lookup_ge_None in Hq; lia].
    unfold bind at 1. unfold bind at 1. simpl. rewrite Hq. simpl.
    rewrite IH by (rewrite length_insert; lia). simpl.
    do 2 f_equal. f_equal.
    rewrite (drop_S st q k Hq). unfold cleared. simpl.
    rewrite drop_insert_lt by lia.
    rewrite (take_S_r _ k (replace_a_order q None)).
    + rewrite take_insert_ge by lia. by rewrite <- app_assoc.
    + apply list_lookup_insert_eq. by eapply lookup_lt_Some.
Qed.

Lemma clear_animation_order_run s :
  Stack.clear_animation_order s
  = (Ok tt, MkStack (cleared (_store s)) (_u2r s), []).
Proof.
  unfold Stack.clear_animation_order. unfold bind at 1. simpl.
  destruct s as [st c]. simpl. by rewrite clear_loop_run.
Qed.

Lemma key_uuid_getitem k u s :
  key_uuid k = Some u → cache_ok s →
  ∃ s', Stack.__getitem__ k s
        = (Ok (VRow (Stack.build_u2r (_store s) !! u)), s', [])
        ∧ _store s' = _store s
        ∧ _u2r s' = Some (Stack.build_u2r (_store s)).
Proof.
  intros Hk Hc. destruct (uuid2row_ok s Hc) as (s' & Hrun & Hst & Hu).
  exists s'. split; [|done].
  destruct k; simplify_eq/=; unfold bind; by rewrite Hrun.
Qed.

(** One round of the setter's loop on an identifier that has a row. *)
Lemma step_present nth k u r s :
  key_uuid k = Some u → cache_ok s →
  Stack.build_u2r (_store s) !! u = Some r →
  ∃ old, _store s !! r = Some old ∧
    Stack.set_animation_order_step nth k s
    = (Ok tt,
       MkStack (<[r := replace_a_order old (Some (Z.of_nat nth))]> (_store s))
               (Some (Stack.build_u2r (_store s))), []).
Proof.
  intros Hk Hc Hr.
  destruct (key_uuid_getitem k u s Hk Hc) as (s' & Hget & Hst & Hu).
  apply build_u2r_lookup in Hr as Hlast. destruct Hlast as [Hold _].
  apply fmap_Some in Hold as (old & Hold & _). exists old. split; [done|].
  assert (PyList.norm_index (_store s) (Z.of_nat r) = Some r) as Hn.
  { apply lookup_lt_Some in Hold. unfold PyList.norm_index.
    rewrite decide_True by lia. f_equal. lia. }
  unfold Stack.set_animation_order_step, except_ValueError, bind.
  rewrite Hget, Hr. unfold Stack.store_getitem, Stack.store_setitem, bind,
    Stack.store, lift, PyList.getitem, PyList.setitem. simpl.
  rewrite Hst, Hn, Hold. simpl. by rewrite Hu.
Qed.

(** One round on an identifier that has no row: the store is indexed by
    [None]. *)
Lemma step_absent nth k u s :
  key_uuid k = Some u → cache_ok s →
  Stack.build_u2r (_store s) !! u = None →
  Stack.set_animation_order_step nth k s
  = (Raise TypeError,
     MkStack (_store s) (Some (Stack.build_u2r (_store s))), []).
Proof.
  intros Hk Hc Hr.
  destruct (key_uuid_getitem k u s Hk Hc) as (s' & Hget & Hst & Hu).
  unfold Stack.set_animation_order_step, except_ValueError, bind.
  rewrite Hget, Hr. unfold Stack.store_getitem, bind, Stack.store, raise.
  simpl. destruct s' as [st' c']. simpl in *. by subst.
Qed.

Lemma ordinal_nil row i : ordinal row [] i = None.
Proof. reflexivity. Qed.

Lemma ordinal_snoc row us u i :
  ordinal row (us ++ [u]) i
  = if decide (row !! u = Some i) then Some (Z.of_nat (length us))
    else ordinal row us i.
Proof. unfold ordinal. by rewrite enumerate_snoc, foldl_app. Qed.

Lemma ordinal_spec row us i : ordinal_of row us i (ordinal row us i).
Proof.
  induction us as [|u us IH] using rev_ind.
  - rewrite ordinal_nil. simpl. intros n u. by rewrite lookup_nil.
  - rewrite ordinal_snoc. case_decide as Hu.
    + simpl. exists (length us), u. split; [done|].
      split; [by rewrite lookup_app_r, Nat.sub_diag by lia|].
      split; [done|]. intros m v Hm Hv.
      apply lookup_lt_Some in Hv. rewrite length_app in Hv. simpl in Hv. lia.
    + destruct (ordinal row us i) as [z|]; simpl in *.
      * destruct IH as (n & v & -> & Hn & Hv & Hlast).
        exists n, v. split; [done|].
        split; [by apply lookup_app_l_Some|]. split; [done|].
        intros m w Hm Hw. apply lookup_app_Some in Hw as [Hw|[Hge Hw]].
        -- by eapply Hlast.
        -- apply list_lookup_singleton_Some in Hw as [_ <-]. done.
      * intros n v Hv. apply lookup_app_Some in Hv as [Hv|[Hge Hv]].
        -- by eapply IH.
        -- apply list_lookup_singleton_Some in Hv as [_ <-]. done.
Qed.

Lemma ordinal_of_unique row us i o1 o2 :
  ordinal_of row us i o1 → ordinal_of row us i o2 → o1 = o2.
Proof.
  destruct o1 as [z1|], o2 as [z2|]; simpl; try done.
  - intros (n1 & u1 & -> & Hn1 & Hu1 & Hl1) (n2 & u2 & -> & Hn2 & Hu2 & Hl2).
    destruct (Nat.lt_trichotomy n1 n2) as [?|[->|?]]; [|done|].
    + by destruct (Hl1 n2 u2).
    + by destruct (Hl2 n1 u1).
  - intros (n & u & _ & Hn & Hu & _) H. by destruct (H n u).
  - intros H (n & u & _ & Hn & Hu & _). by destruct (H n u).
Qed.

Lemma assigned_uuids st us : uuid <$> assigned st us = uuid <$> st.
Proof.
  unfold assigned. apply list_eq. intros i.
  rewrite !list_lookup_fmap, list_lookup_imap.
  by destruct (st !! i).
Qed.

Lemma assigned_nil st : assigned st [] = cleared st.
Proof. unfold assigned, cleared. by rewrite <- imap_const. Qed.

Lemma assigned_snoc st us u r old :
  Stack.build_u2r st !! u = Some r →
  assigned st us !! r = Some old →
  <[r := replace_a_order old (Some (Z.of_nat (length us)))]> (assigned st us)
  = assigned st (us ++ [u]).
Proof.
  intros Hr Hold. apply list_eq. intros i. unfold assigned in *.
  rewrite list_lookup_imap in Hold. rewrite list_lookup_imap.
  destruct (decide (i = r)) as [->|Hne].
  - rewrite list_lookup_insert_eq
      by (rewrite length_imap; by destruct (st !! r) eqn:E;
          [eapply lookup_lt_Some|]).
    destruct (st !! r) as [p|]; simplify_eq/=.
    rewrite ordinal_snoc, decide_True by done. done.
  - rewrite list_lookup_insert_ne by done. rewrite list_lookup_imap.
    destruct (st !! i) as [p|]; simpl; [|done].
    rewrite ordinal_snoc, decide_False; [done|]. congruence.
Qed.

Lemma set_animation_order_unfold ks s :
  Stack.set_animation_order ks s
  = for_each (PyList.enumerate ks)
      (λ '(nth, lu), Stack.set_animation_order_step nth lu)
      (MkStack (cleared (_store s)) (_u2r s)).
Proof.
  unfold Stack.set_animation_order, bind.
  rewrite clear_animation_order_run.
  by destruct (for_each _ _ _) as [[r s1] t1].
Qed.

Lemma cleared_uuids st : uuid <$> cleared st = uuid <$> st.
Proof. unfold cleared. rewrite <- list_fmap_compose. by apply list_fmap_ext. Qed.

(** The setter on identifiers that all have a row: each row ends up with
    the ordinal the sequence gives it. *)
Lemma set_animation_order_present s ks : ∀ us,
  cache_ok s → Forall2 (λ k u, key_uuid k = Some u) ks us →
  (∀ u, u ∈ us → u ∈ uuid <$> _store s) →
  ∃ c, Stack.set_animation_order ks s
       = (Ok tt, MkStack (assigned (_store s) us) c, [])
       ∧ cache_ok (MkStack (assigned (_store s) us) c).
Proof.
  induction ks as [|k ks IH] using rev_ind; intros us Hc HF Hall.
  - apply Forall2_nil_inv_l in HF as ->. exists (_u2r s).
    rewrite set_animation_order_unfold, assigned_nil. split; [done|].
    intros c Hcache. simpl in *. rewrite (Hc c Hcache).
    apply build_u2r_uuids. by rewrite cleared_uuids.
  - apply Forall2_app_inv_l in HF as (us1 & us2 & HF1 & HF2 & ->).
    apply Forall2_cons_inv_l in HF2 as (u & us3 & Hku & HF3 & ->).
    apply Forall2_nil_inv_l in HF3 as ->.
    destruct (IH us1 Hc HF1) as (c1 & Hrun1 & Hc1).
    { intros v Hv. apply Hall. apply elem_of_app. by left. }
    rewrite set_animation_order_unfold in Hrun1.
    rewrite set_animation_order_unfold, enumerate_snoc, for_each_app.
    unfold bind at 1. rewrite Hrun1. simpl.
    rewrite bind_ret_tt.
    assert (Stack.build_u2r (assigned (_store s) us1)
            = Stack.build_u2r (_store s)) as Hrow
      by apply build_u2r_uuids, assigned_uuids.
    assert (is_Some (Stack.build_u2r (_store s) !! u)) as [r Hr].
    { apply build_u2r_is_Some, Hall, elem_of_app. right. by left. }
    destruct (step_present (length ks) k u r _ Hku Hc1) as (old & Hold & ->).
    { simpl. by rewrite Hrow. }
    simpl. rewrite Hrow.
    rewrite (Forall2_length _ _ _ HF1).
    rewrite (assigned_snoc _ _ u r old Hr Hold).
    eexists. split; [done|].
    intros c [= <-]. simpl. symmetry.
    apply build_u2r_uuids, assigned_uuids.
Qed.

(** The setter on a sequence whose first identifier without a row comes
    after [pre]: it raises there, and the store is left as the rounds for
    [pre] made it. *)
Lemma set_animation_order_absent s kpre k kpost pre u :
  cache_ok s → Forall2 (λ k u, key_uuid k = Some u) kpre pre →
  key_uuid k = Some u →
  (∀ v, v ∈ pre → v ∈ uuid <$> _store s) → u ∉ uuid <$> _store s →
  ∃ c, Stack.set_animation_order (kpre ++ k :: kpost) s
       = (Raise TypeError, MkStack (assigned (_store s) pre) c, []).
Proof.
  intros Hc HF Hku Hall Hu.
  destruct (set_animation_order_present s kpre pre Hc HF Hall)
    as (c1 & Hrun1 & Hc1).
  rewrite set_animation_order_unfold in Hrun1.
  rewrite set_animation_order_unfold. unfold PyList.enumerate.
  rewrite imap_app, for_each_app. fold (PyList.enumerate kpre).
  unfold bind at 1. rewrite Hrun1. simpl. unfold bind at 1.
  rewrite (step_absent _ k u _ Hku Hc1).
  - simpl. by eexists.
  - simpl. apply eq_None_not_Some. rewrite build_u2r_is_Some.
    by rewrite assigned_uuids.
Qed.

Lemma assigned_lookup st us i p :
  st !! i = Some p →
  ∃ o, assigned st us !! i = Some (replace_a_order p o)
       ∧ ordinal_of (Stack.build_u2r st) us i o.
Proof.
  intros Hp. exists (ordinal (Stack.build_u2r st) us i).
  split; [|apply ordinal_spec].
  unfold assigned. by rewrite list_lookup_imap, Hp.
Qed.

(** The usual case: no identifier twice in the set, none twice in the
    sequence, all of them present.  The entry of the n-th identifier gets
    ordinal n, every other entry gets none, and nothing else changes. *)
Lemma set_animation_order_distinct s us :
  cache_ok s → NoDup (uuid <$> _store s) → NoDup us →
  (∀ u, u ∈ us → u ∈ uuid <$> _store s) →
  ∃ s', Stack.set_animation_order (KUUID <$> us) s = (Ok tt, s', [])
        ∧ ∀ i p, _store s !! i = Some p →
            ∃ o, _store s' !! i = Some (replace_a_order p o)
                 ∧ (∀ n, us !! n = Some (uuid p) → o = Some (Z.of_nat n))
                 ∧ (uuid p ∉ us → o = None).
Proof.
  intros Hc Hnd Hus Hall.
  destruct (set_animation_order_present s (KUUID <$> us) us Hc) as (c & -> & _);
    [|done|].
  { apply Forall2_fmap_l, Forall_Forall2_diag, Forall_forall. done. }
  eexists. split; [done|]. simpl. intros i p Hp.
  destruct (assigned_lookup (_store s) us i p Hp) as (o & Ho & Hord).
  exists o. split; [done|].
  assert (∀ v, Stack.build_u2r (_store s) !! v = Some i → v = uuid p) as Hrow.
  { intros v Hv. apply build_u2r_lookup in Hv as [Hv _].
    rewrite Hp in Hv. by injection Hv. }
  split.
  - intros n Hn.
    apply (ordinal_of_unique (Stack.build_u2r (_store s)) us i); [done|].
    simpl.
    exists n, (uuid p). split; [done|]. split; [done|]. split.
    + apply build_u2r_lookup, last_row_NoDup; [done|]. by rewrite Hp.
    + intros m v Hlt Hm Hv. apply Hrow in Hv as ->.
      pose proof (NoDup_lookup _ _ _ _ Hus Hn Hm). lia.
  - intros Hnot.
    apply (ordinal_of_unique (Stack.build_u2r (_store s)) us i); [done|].
    simpl.
    intros n v Hn Hv. apply Hrow in Hv as ->. apply Hnot.
    by eapply list_elem_of_lookup_2.
Qed.

(** One round on an item that names no identifier: an index, a slice or
    [None].  The stack is as it was. *)
Lemma step_no_identifier nth k s :
  key_uuid k = None →
  Stack.set_animation_order_step nth k s
  = (Raise (setter_refusal (_store s) k), s, setter_refusal_log k).
Proof.
  intros Hk. destruct s as [st c].
  destruct k as [i|u|l|p|lo hi|]; try discriminate Hk; [|done..].
  assert (PyList.getitem st i
          = match setter_refusal st (KInt i) with
            | TypeError =>
                match PyList.getitem st i with
                | Ok x => Ok x
                | Raise _ => Raise TypeError
                end
            | e => Raise e
            end
          ∧ (setter_refusal st (KInt i) = TypeError →
             ∃ x, PyList.getitem st i = Ok x)) as [Hget Hok].
  { unfold setter_refusal. case_decide as Hi.
    - assert (∃ x, PyList.getitem st i = Ok x) as [x Hx].
      { unfold PyList.getitem, PyList.norm_index.
        destruct (decide (0 ≤ i)).
        + rewrite decide_True by lia.
          destruct (lookup_lt_is_Some_2 st (Z.to_nat i)) as [x ->]; [lia|].
          by eexists.
        + rewrite decide_False, decide_True by lia.
          destruct (lookup_lt_is_Some_2 st
                      (Z.to_nat (i + Z.of_nat (length st))))
            as [x ->]; [lia|].
          by eexists. }
      rewrite Hx. split; [done|]. by exists x.
    - split; [|done]. unfold PyList.getitem, PyList.norm_index.
      by rewrite !decide_False by lia. }
  cbv [Stack.set_animation_order_step except_ValueError bind
       Stack.__getitem__ Stack.store lift ret _store].
  rewrite Hget.
  destruct (setter_refusal st (KInt i)) eqn:He;
    try done; try (unfold setter_refusal in He; by case_decide).
  by destruct (Hok eq_refl) as [x ->].
Qed.

(** The setter on a sequence whose first item that names no identifier
    comes after [kpre]: it raises there, and the store is left as the
    rounds for [kpre] made it. *)
Lemma set_animation_order_no_identifier s kpre k kpost pre :
  cache_ok s → Forall2 (λ k u, key_uuid k = Some u) kpre pre →
  key_uuid k = None →
  (∀ v, v ∈ pre → v ∈ uuid <$> _store s) →
  ∃ c, Stack.set_animation_order (kpre ++ k :: kpost) s
       = (Raise (setter_refusal (_store s) k),
          MkStack (assigned (_store s) pre) c, setter_refusal_log k).
Proof.
  intros Hc HF Hk Hall.
  destruct (set_animation_order_present s kpre pre Hc HF Hall)
    as (c1 & Hrun1 & Hc1).
  rewrite set_animation_order_unfold in Hrun1.
  rewrite set_animation_order_unfold. unfold PyList.enumerate.
  rewrite imap_app, for_each_app. fold (PyList.enumerate kpre).
  unfold bind at 1. rewrite Hrun1. simpl. unfold bind at 1.
  rewrite (step_no_identifier _ k _ Hk). simpl.
  exists c1. do 2 f_equal. f_equal.
  destruct k; try done. unfold setter_refusal, assigned.
  by rewrite length_imap.
Qed.

(** The keys that name an identifier of the store, and the identifiers
    they name. *)
Lemma held_keys (st : list prez) (ks : list PyKey) :
  Forall (λ k, ∃ u, key_uuid k = Some u ∧ u ∈ uuid <$> st) ks →
  Forall2 (λ k u, key_uuid k = Some u) ks (omap key_uuid ks)
  ∧ ∀ v, v ∈ omap key_uuid ks → v ∈ uuid <$> st.
Proof.
  induction 1 as [|k ks (u & Hk & Hu) _ [IH1 IH2]]; simpl.
  - split; [constructor|]. intros v Hv. by apply elem_of_nil in Hv.
  - rewrite Hk. split; [by constructor|].
    intros v Hv. apply elem_of_cons in Hv as [->|Hv]; [done|by apply IH2].
Qed.

(** C1, as the code has it.  Take a stack with a sound cache and any
    sequence of items.  An item is good when it names, as a UUID, a layer
    or a presentation tuple, an identifier that the set holds.  The setter
    clears every ordinal and then walks the sequence, giving the row of
    the identifier that the n-th item names the ordinal n.  If every item
    is good, it returns, and each row [i] keeps its entry with the ordinal
    replaced by the last position of the sequence that resolves to [i], or
    by none.  If [k] is the first item that is not good (an identifier
    without a row, an index, a slice or [None]), the call raises there,
    and the store is left as the rounds for the items before [k] made it:
    ordinals cleared and those of the earlier items assigned. *)
Theorem set_animation_order_partial (s : DocLayerStack) (ks : list PyKey) :
  cache_ok s →
  let st := _store s in
  let row := Stack.build_u2r st in
  let good (k : PyKey) := ∃ u, key_uuid k = Some u ∧ u ∈ uuid <$> st in
  let left_by (done : list PyKey) (s' : DocLayerStack) :=
    length (_store s') = length st
    ∧ ∀ i p, st !! i = Some p →
        ∃ o, _store s' !! i
             = Some (Prez (uuid p) (kind p) (visible p) o (colormap p)
                          (climits p) (mixing p))
             ∧ ordinal_of row (omap key_uuid done) i o in
  (Forall good ks →
     ∃ s', Stack.set_animation_order ks s = (Ok tt, s', [])
           ∧ left_by ks s')
  ∧ (∀ pre k post,
       ks = pre ++ k :: post → Forall good pre → ¬ good k →
       ∃ s', Stack.set_animation_order ks s
             = (Raise (setter_refusal st k), s', setter_refusal_log k)
             ∧ left_by pre s').
Proof.
  intros Hc st row good left_by. split.
  - intros Hgood. destruct (held_keys st ks Hgood) as [HF Hall].
    destruct (set_animation_order_present s ks _ Hc HF Hall) as (c & -> & _).
    eexists. split; [done|]. split; simpl.
    + unfold assigned. by rewrite length_imap.
    + intros i p Hp. by apply assigned_lookup.
  - intros pre k post -> Hgood Hbad.
    destruct (held_keys st pre Hgood) as [HF Hall].
    destruct (key_uuid k) as [u|] eqn:Hku.
    + assert (u ∉ uuid <$> st) as Hu by (intros Hu; apply Hbad; by exists u).
      destruct (set_animation_order_absent s pre k post _ u Hc HF Hku
                  Hall Hu) as (c & ->).
      assert (setter_refusal st k = TypeError ∧ setter_refusal_log k = [])
        as [-> ->] by (by destruct k).
      eexists. split; [done|]. split; simpl.
      * unfold assigned. by rewrite length_imap.
      * intros i p Hp. by apply assigned_lookup.
    + destruct (set_animation_order_no_identifier s pre k post _ Hc HF Hku
                  Hall) as (c & ->).
      eexists. split; [done|]. split; simpl.
      * unfold assigned. by rewrite length_imap.
      * intros i p Hp. by apply assigned_lookup.
Qed.

(** C1, counterexample to the claim as stated: identifier 9 is not in the
    set; the call raises, but the ordinal of the entry that was there has
    been cleared. *)
Lemma set_animation_order_not_atomic :
  let s := MkStack [pz 1 true (Some 5)] None in
  (9%N ∉ (uuid <$> _store s))
  ∧ ∃ e s', Stack.set_animation_order [KUUID 9%N] s = (Raise e, s', [])
            ∧ _store s' = [pz 1 true None]
            ∧ _store s' ≠ _store s.
Proof.
  simpl. split.
  - rewrite list_elem_of_singleton. done.
  - eexists _, _. split; [reflexivity|]. split; [reflexivity|]. done.
Qed.

Lemma set_animation_order_partial_witness :
  let s := MkStack [pz 1 true (Some 5); pz 2 true None; pz 3 false (Some 0)]
                   None in
  ∃ s', Stack.set_animation_order [KUUID 2%N; KInt 0; KUUID 1%N] s
        = (Raise TypeError, s', [])
        ∧ _store s' !! 0%nat = Some (pz 1 true None)
        ∧ _store s' !! 1%nat = Some (pz 2 true (Some 0))
        ∧ _store s' !! 2%nat = Some (pz 3 false None).
Proof.
  intros s.
  destruct (set_animation_order_partial s [KUUID 2%N; KInt 0; KUUID 1%N])
    as [_ Hfail]; [apply cache_ok_None|].
  destruct (Hfail [KUUID 2%N] (KInt 0) [KUUID 1%N] eq_refl)
    as (s' & Hrun & _ & Hrows).
  - constructor; [|constructor]. exists 2%N. split; [done|].
    simpl. right. left.
  - by intros (u & Hu & _).
  - exists s'. split; [exact Hrun|].
    assert (∀ i p, _store s !! i = Some p →
              _store s' !! i
              = Some (Prez (uuid p) (kind p) (visible p)
                        (ordinal (Stack.build_u2r (_store s)) [2%N] i)
                        (colormap p) (climits p) (mixing p))) as Hat.
    { intros i p Hp. destruct (Hrows i p Hp) as (o & -> & Hord).
      by rewrite (ordinal_of_unique _ _ _ _ _ Hord (ordinal_spec _ _ _)). }
    split; [exact (Hat 0%nat _ eq_refl)|].
    split; [exact (Hat 1%nat _ eq_refl) | exact (Hat 2%nat _ eq_refl)].
Defined.

(** ** Document.update_dataset_info *)

Lemma update_dataset_info_unknown d new_info :
  _layer_with_uuid d !! new_info.1 = None →
  Doc.update_dataset_info new_info d
  = (Raise KeyError, d,
     [Log WARNING "new information on uuid {0!r:s} is not for a known dataset"]).
Proof.
  intros Hn. unfold Doc.update_dataset_info, bind, get. simpl.
  rewrite decide_False by (rewrite Hn; by intros [? ?]).
  simpl. by rewrite Hn.
Qed.

(** C2, the code at the failing input: a metadata update for identifier 7,
    which the catalogue does not hold.  The warning is logged and the
    document is untouched, but the call then raises [KeyError]. *)
Theorem update_dataset_info_unknown_raises :
  let d := Doc.__init__ 1 in
  _layer_with_uuid d !! 7%N = None
  ∧ Doc.update_dataset_info (7%N, MkFields (Some "name") None) d
    = (Raise KeyError, d,
       [Log WARNING
          "new information on uuid {0!r:s} is not for a known dataset"]).
Proof. split; [done|]. by apply update_dataset_info_unknown. Qed.

(** ** Document.open_file on a known identifier *)

Section OpenKnown.
Variable import_image : string → UUID * Layer * Content.
Variable collect_info : Layer → Fields.
Variable default_colormap : Layer → option Colormap.
Variable guidebook_climits : Layer → Climits.
Variable display_name : Layer → option string.

Lemma open_file_known path insert_before d :
  is_Some (_layer_with_uuid d !! (import_image path).1.1) →
  Doc.open_file import_image collect_info default_colormap guidebook_climits
                display_name path insert_before d
  = (Raise TypeError, d, []).
Proof.
  intros Hin. unfold Doc.open_file.
  destruct (import_image path) as [[u info] content]. simpl in Hin.
  unfold bind, get. simpl. by rewrite decide_True.
Qed.
End OpenKnown.

(** C5, the code at the failing input: the same path opened twice on a new
    document.  The first call returns and records layer 1; the second
    finds the identifier in the catalogue and leaves the document as it
    was, but building the warning's text raises [TypeError]: no warning is
    logged and the call does not return. *)
Theorem open_file_twice_raises :
  ∃ r1 d1 t1,
    open_one "a.tif" 0 (Doc.__init__ 1) = (Ok r1, d1, t1)
    ∧ is_Some (_layer_with_uuid d1 !! 1%N)
    ∧ open_one "a.tif" 0 d1 = (Raise TypeError, d1, []).
Proof.
  eexists _, _, _. split; [by vm_compute|]. split.
  - vm_compute. by eexists.
  - apply open_file_known. vm_compute. by eexists.
Qed.

(** ** Loops over the slots of a document *)

Lemma on_stack_run {A} l (m : M DocLayerStack A) d s :
  stacks d !! l = Some s →
  Doc.on_stack l m d
  = ((m s).1.1, with_stacks d (<[l := (m s).1.2]> (stacks d)), (m s).2).
Proof.
  intros Hl. unfold Doc.on_stack. rewrite Hl.
  by destruct (m s) as [[r s'] t].
Qed.

Lemma on_stack_read {A} l (m : M DocLayerStack A) d s r t :
  stacks d !! l = Some s → m s = (r, s, t) → Doc.on_stack l m d = (r, d, t).
Proof.
  intros Hl Hm. rewrite (on_stack_run _ _ _ s Hl), Hm. simpl.
  rewrite list_insert_id by done. by destruct d.
Qed.

Lemma on_slots_length g slots : ∀ k0 st,
  length (on_slots g k0 slots st) = length st.
Proof.
  induction slots as [|[l|] slots IH]; intros k0 st; simpl; [done|..].
  - by rewrite IH, length_alter.
  - apply IH.
Qed.

(** A location that no slot names is left alone. *)
Lemma on_slots_other g slots l : ∀ k0 st,
  Some l ∉ slots → on_slots g k0 slots st !! l = st !! l.
Proof.
  induction slots as [|[l'|] slots IH]; intros k0 st Hl; simpl; [done|..].
  - rewrite IH by set_solver. apply list_lookup_alter_ne. set_solver.
  - apply IH. set_solver.
Qed.

(** The location named by slot [j], and by no other, has had [g] applied
    once. *)
Lemma on_slots_at g slots l j : ∀ k0 st,
  NoDup (omap id slots) → slots !! j = Some (Some l) →
  on_slots g k0 slots st !! l = g (k0 + j)%nat <$> st !! l.
Proof.
  revert j. induction slots as [|[l'|] slots IH]; intros j k0 st Hnd Hj;
    simpl in *; [done|..].
  - apply NoDup_cons in Hnd as [Hnotin Hnd]. destruct j as [|j]; simpl in *.
    + injection Hj as ->. rewrite on_slots_other.
      * rewrite Nat.add_0_r. apply list_lookup_alter_eq.
      * intros Hin. apply Hnotin. apply list_elem_of_omap. by exists (Some l).
    + rewrite (IH j) by done.
      rewrite list_lookup_alter_ne.
      * do 2 f_equal. lia.
      * intros ->. apply Hnotin. apply list_elem_of_omap. exists (Some l).
        split; [|done]. by eapply list_elem_of_lookup_2.
  - destruct j as [|j]; simpl in *; [done|].
    rewrite (IH j) by done. do 2 f_equal. lia.
Qed.

Lemma insert_as_alter {A} (f : A → A) (l : list A) i x :
  l !! i = Some x → <[i := f x]> l = alter f i l.
Proof.
  intros Hx. apply list_eq. intros j. destruct (decide (i = j)) as [<-|Hne].
  - rewrite list_lookup_insert_eq by (by eapply lookup_lt_Some).
    by rewrite list_lookup_alter_eq, Hx.
  - by rewrite list_lookup_insert_ne, list_lookup_alter_ne.
Qed.

Lemma slots_loop_run (body : nat * option loc → M Document unit)
    (g : nat → DocLayerStack → DocLayerStack) :
  (∀ dex l d s, stacks d !! l = Some s →
     body (dex, Some l) d
     = (Ok tt, with_stacks d (<[l := g dex s]> (stacks d)), [])) →
  (∀ dex d, body (dex, None) d = (Ok tt, d, [])) →
  ∀ slots k0 d,
    (∀ l, Some l ∈ slots → (l < length (stacks d))%nat) →
    for_each (imap (λ i x, ((k0 + i)%nat, x)) slots) body d
    = (Ok tt, with_stacks d (on_slots g k0 slots (stacks d)), []).
Proof.
  intros Hsome Hnone. induction slots as [|[l|] slots IH]; intros k0 d Halloc.
  - simpl. unfold ret. by destruct d.
  - simpl. destruct (lookup_lt_is_Some_2 (stacks d) l) as [s Hs].
    { apply Halloc. left. }
    unfold bind. rewrite Nat.add_0_r, (Hsome _ _ _ s Hs).
    rewrite (imap_ext _ (λ i x, ((S k0 + i)%nat, x)))
      by (intros; simpl; f_equal; lia).
    rewrite IH.
    + simpl. unfold with_stacks. simpl. do 4 f_equal.
      by apply insert_as_alter.
    + intros l' Hl'. simpl. rewrite length_insert. apply Halloc. by right.
  - simpl. unfold bind. rewrite Hnone.
    rewrite (imap_ext _ (λ i x, ((S k0 + i)%nat, x)))
      by (intros; simpl; f_equal; lia).
    rewrite IH; [done|]. intros l' Hl'. apply Halloc. by right.
Qed.

(** ** Document.open_file on a new identifier *)

Lemma slot_locs_elem d l : l ∈ slot_locs d ↔ Some l ∈ _layer_sets d.
Proof.
  unfold slot_locs. rewrite list_elem_of_omap. split.
  - intros (x & Hx & Hid). simpl in Hid. by subst.
  - intros Hl. by exists (Some l).
Qed.

Lemma wf_allocated d k l :
  wf d → _layer_sets d !! k = Some (Some l) → is_Some (stacks d !! l).
Proof.
  intros [_ Halloc] Hk. apply lookup_lt_is_Some_2, Halloc, slot_locs_elem.
  by eapply list_elem_of_lookup_2.
Qed.

Lemma getitem_nonneg {A} (l : list A) i x :
  0 ≤ i → l !! Z.to_nat i = Some x → PyList.getitem l i = Ok x.
Proof.
  intros Hi Hx. apply getitem_Ok. exists (Z.to_nat i). split; [|done].
  apply lookup_lt_Some in Hx. unfold PyList.norm_index.
  by rewrite decide_True by lia.
Qed.

Lemma current_layer_set_run d cur :
  current_at d cur → Doc.current_layer_set d = (Ok (Some cur), d, []).
Proof.
  intros [Hi Hcur]. unfold Doc.current_layer_set, bind, get, lift. simpl.
  by rewrite (getitem_nonneg _ _ _ Hi Hcur).
Qed.

Lemma insert_layer_with_info_run info cmap insert_before d cur s :
  PyList.fits_index insert_before = true →
  wf d → current_at d cur → stacks d !! cur = Some s →
  let p := Prez (INFO_UUID info) (INFO_KIND info) true None cmap
                (INFO_CLIM info) NORMAL in
  let g := λ (dex : nat) (s : DocLayerStack),
    MkStack (PyList.inserted (_store s) insert_before
               (if decide (Z.of_nat dex = current_set_index d) then p
                else replace_visible p false)) None in
  Doc._insert_layer_with_info info cmap insert_before d
  = (Ok (p, None :: (Some <$> seq 0 (length (_store s)))),
     with_stacks d (on_slots g 0 (_layer_sets d) (stacks d)), []).
Proof.
  intros Hfit Hwf Hcur Hs p g. unfold Doc._insert_layer_with_info.
  unfold bind at 1. rewrite (current_layer_set_run d cur Hcur). simpl.
  unfold bind at 1. simpl. unfold bind at 1.
  rewrite (on_stack_read cur Stack.__len__ d s (Ok (Z.of_nat (length (_store s)))) [])
    by done.
  unfold bind at 1. simpl. unfold bind at 1.
  unfold PyList.enumerate.
  erewrite (slots_loop_run _ g _ _ (_layer_sets d) 0%nat d).
  - simpl. by rewrite Nat2Z.id.
  - intros l Hl. apply Hwf. by apply slot_locs_elem.
  Unshelve.
  + intros dex l d' s' Hs'. simpl.
    by rewrite (on_stack_run _ _ _ s' Hs'), Stack_insert_run by done.
  + intros dex d'. done.
Qed.

Section OpenNew.
Variable import_image : string → UUID * Layer * Content.
Variable collect_info : Layer → Fields.
Variable default_colormap : Layer → option Colormap.
Variable guidebook_climits : Layer → Climits.
Variable display_name : Layer → option string.

(** C4: [open_file(path)], with its default [insert_before=0], on a path
    whose identifier is new to the catalogue of a well-formed document.
    The call returns; the slots and the current index are as before; and
    for every slot [k] that holds a stack, that stack's store is the old
    one with one entry put in front.  That entry carries the identifier of
    the imported layer and [a_order = None]; its [visible] field is [True]
    in the current set and [False] in every other set; its other fields
    are the same in all sets.  So every entry that was at row [i] is at
    row [i + 1], in the same order. *)
Theorem open_file_inserts_on_top (path : string) (d : Document) (cur : loc) :
  wf d → current_at d cur →
  _layer_with_uuid d !! (import_image path).1.1 = None →
  ∃ dataset d' t p,
    Doc.open_file import_image collect_info default_colormap
                  guidebook_climits display_name path 0 d
    = (Ok ((import_image path).1.1, dataset, (import_image path).2), d', t)
    ∧ visible p = true ∧ a_order p = None
    ∧ uuid p = INFO_UUID (import_image path).1.2
    ∧ _layer_sets d' = _layer_sets d
    ∧ current_set_index d' = current_set_index d
    ∧ _layer_with_uuid d'
      = <[(import_image path).1.1 := dataset]> (_layer_with_uuid d)
    ∧ length (stacks d') = length (stacks d)
    ∧ ∀ k l s, _layer_sets d !! k = Some (Some l) → stacks d !! l = Some s →
        ∃ s', stacks d' !! l = Some s'
              ∧ _store s'
                = Prez (uuid p) (kind p)
                       (bool_decide (Z.of_nat k = current_set_index d))
                       None (colormap p) (climits p) (mixing p)
                  :: _store s
              ∧ ∀ i, _store s' !! S i = _store s !! i.
Proof.
  intros Hwf Hcur Hnew.
  destruct (wf_allocated d _ cur Hwf (proj2 Hcur)) as [scur Hscur].
  unfold Doc.open_file.
  destruct (import_image path) as [[u info] content]. simpl in *.
  unfold bind at 1. unfold get at 1.
  rewrite decide_False by (rewrite Hnew; by intros [? ?]).
  repeat (unfold bind at 1; simpl).
  set (dataset :=
    Layer_update
      (Layer_update (Layer_update info (collect_info info))
         (MkFields None
            (Some (guidebook_climits
                     (Layer_update info (collect_info info))))))
      _).
  set (d4 := MkDoc (current_set_index d) (_layer_sets d)
               (<[u := dataset]> (_layer_with_uuid d)) (stacks d)).
  assert (wf d4) as Hwf4 by done.
  assert (current_at d4 cur) as Hcur4 by done.
  rewrite (insert_layer_with_info_run dataset _ 0 d4 cur scur eq_refl
             Hwf4 Hcur4 Hscur).
  simpl.
  eexists dataset, _, _,
    (Prez (INFO_UUID info) (INFO_KIND info) true None _ _ NORMAL).
  split; [reflexivity|]. simpl.
  do 6 (split; [done|]).
  split; [by rewrite on_slots_length|].
  intros k l s Hk Hs.
  rewrite (on_slots_at _ _ l k) by (done || apply Hwf). simpl.
  rewrite Hs. simpl. eexists. split; [done|]. simpl.
  rewrite insert_front. split; [|done].
  case_decide.
  - by rewrite bool_decide_eq_true_2 by done.
  - by rewrite bool_decide_eq_false_2 by done.
Qed.
End OpenNew.

Lemma slot_locs_init n : slot_locs (Doc.__init__ n) = [0%nat].
Proof.
  unfold slot_locs, Doc.__init__. simpl. f_equal.
  induction (Z.to_nat (n - 1)); simpl; auto.
Qed.

Lemma wf_init n : wf (Doc.__init__ n).
Proof.
  unfold wf. rewrite slot_locs_init. split.
  - apply NoDup_singleton.
  - intros l Hl. apply list_elem_of_singleton in Hl as ->. simpl. lia.
Qed.

Lemma wf_doc_with_composite : wf doc_with_composite.
Proof.
  split.
  - apply (bool_decide_unpack _). by vm_compute.
  - intros l Hl. simpl.
    apply elem_of_cons in Hl as [->|Hl]; [lia|].
    apply list_elem_of_singleton in Hl as ->. lia.
Qed.

Lemma open_file_inserts_on_top_witness :
  ∃ dataset d' t q0 q1,
    open_two "b.tif" 0 doc_with_composite = (Ok (2%N, dataset, []), d', t)
    ∧ _store <$> stacks d' !! 0%nat
      = Some [q0; Prez 3%N RGB true None None (ClimRGB None None None) NORMAL;
              pz 1 true None]
    ∧ visible q0 = true ∧ a_order q0 = None ∧ uuid q0 = 2%N
    ∧ _store <$> stacks d' !! 1%nat = Some [q1; pz 1 false None]
    ∧ visible q1 = false ∧ a_order q1 = None ∧ uuid q1 = 2%N.
Proof.
  destruct (open_file_inserts_on_top import_two gb_collect_info
              gb_default_colormap gb_climits gb_display_name
              "b.tif" doc_with_composite 0%nat)
    as (dataset & d' & t & p & Hrun & _ & _ & Hu & _ & _ & _ & _ & Hsets).
  - apply wf_doc_with_composite.
  - split; [simpl; lia | reflexivity].
  - reflexivity.
  - destruct (Hsets 0%nat 0%nat _ eq_refl eq_refl) as (s0 & Hs0 & Hst0 & _).
    destruct (Hsets 1%nat 1%nat _ eq_refl eq_refl) as (s1 & Hs1 & Hst1 & _).
    eexists dataset, d', t, _, _. split; [exact Hrun|].
    split.
    { trans (_store <$> Some s0); [f_equal; exact Hs0|].
      simpl. f_equal. exact Hst0. }
    split; [reflexivity|]. split; [reflexivity|]. split; [exact Hu|].
    split.
    { trans (_store <$> Some s1); [f_equal; exact Hs1|].
      simpl. f_equal. exact Hst1. }
    split; [reflexivity|]. split; [reflexivity|]. exact Hu.
Defined.

(** ** Document.select_layer_set and the clone *)


Lemma current_at_with_stacks d cur st :
  current_at d cur → current_at (with_stacks d st) cur.
Proof. done. Qed.



Lemma setitem_nonneg {A} (l : list A) i x :
  0 ≤ i < Z.of_nat (length l) →
  PyList.setitem l i x = Ok (<[Z.to_nat i := x]> l).
Proof.
  intros Hi. unfold PyList.setitem, PyList.norm_index.
  by rewrite decide_True by lia.
Qed.

Lemma animation_order_read d l s :
  stacks d !! l = Some s →
  Doc.on_stack l Stack.animation_order d
  = (Ok ((merge_sort Stack.aouu_le (animated (_store s))).*2), d,
     [Log DEBUG "animation order is {0!r:s}"]).
Proof. intros Hl. by apply (on_stack_read l _ d s). Qed.

Lemma switch_tail d1 new s index :
  current_at d1 new → stacks d1 !! new = Some s →
  (cur <- Doc.current_layer_set ;;
   anim <- Doc.current_animation_order ;;
   Doc.emit (didSwitchLayerSet index cur anim)) d1
  = (Ok tt, d1,
     [Log DEBUG "animation order is {0!r:s}";
      Emit (didSwitchLayerSet index (Some new)
              ((merge_sort Stack.aouu_le (animated (_store s))).*2)) d1]).
Proof.
  intros Hcur1 Hnew.
  unfold bind at 1. rewrite (current_layer_set_run d1 new Hcur1).
  unfold bind at 1. unfold Doc.current_animation_order.
  unfold bind at 1. rewrite (current_layer_set_run d1 new Hcur1).
  unfold bind at 1. simpl Doc.as_stack. unfold ret at 1.
  by rewrite (animation_order_read d1 new _ Hnew).
Qed.

(** What [select_layer_set] does on an empty target slot.  [slots'] is the
    list of slots, extended by one when the index is one past its end. *)
Lemma select_layer_set_run d new_index src s_src :
  current_at d src → stacks d !! src = Some s_src →
  let slots' := if decide (new_index = Z.of_nat (length (_layer_sets d)))
                then _layer_sets d ++ [None] else _layer_sets d in
  let new : loc := length (stacks d) in
  let d1 := MkDoc new_index (<[Z.to_nat new_index := Some new]> slots')
              (_layer_with_uuid d)
              (stacks d ++ [MkStack (_store s_src) None]) in
  0 ≤ new_index →
  slots' !! Z.to_nat new_index = Some None →
  ∃ anim,
    Doc.select_layer_set new_index d
    = (Ok tt, d1,
       [Log DEBUG "animation order is {0!r:s}";
        Emit (didSwitchLayerSet new_index (Some new) anim) d1]).
Proof.
  intros [Hci Hcur] Hsrc slots' new d1 Hnn Hslot.
  assert (Z.to_nat new_index < length slots')%nat as Hlt
    by by eapply lookup_lt_Some.
  assert (slots' !! Z.to_nat (current_set_index d) = Some (Some src)) as Hcur'.
  { subst slots'. case_decide; [|done]. by apply lookup_app_l_Some. }
  assert (length slots' = length (_layer_sets d) ∨
          (new_index = Z.of_nat (length (_layer_sets d)))) as Hlen.
  { subst slots'. case_decide; auto. }
  assert (new_index ≤ Z.of_nat (length (_layer_sets d))) as Hle.
  { subst slots'. case_decide; [lia|lia]. }
  unfold Doc.select_layer_set.
  unfold bind at 1. unfold get at 1.
  rewrite decide_True by lia.
  unfold bind at 1. unfold ret at 1.
  unfold bind at 1.
  assert ((if decide (new_index = Z.of_nat (length (_layer_sets d)))
           then Doc.set_layer_sets (_layer_sets d ++ [None]) else ret tt) d
          = (Ok tt, MkDoc (current_set_index d) slots' (_layer_with_uuid d)
                          (stacks d), [])) as ->.
  { subst slots'. case_decide; [done|]. by destruct d. }
  set (da := MkDoc (current_set_index d) slots' (_layer_with_uuid d) (stacks d)).
  unfold bind at 1. unfold get at 1.
  unfold bind at 1. unfold bind at 1. unfold lift at 1. simpl _layer_sets.
  rewrite (getitem_nonneg slots' new_index None Hnn Hslot).
  unfold bind at 1.
  assert (current_at da src) as Hcura by done.
  rewrite (current_layer_set_run da src Hcura).
  unfold bind at 1. unfold Doc._clone_layer_set. unfold bind at 1.
  rewrite (on_stack_read src get da s_src (Ok s_src) []) by done.
  unfold Doc.new_stack at 1. simpl stacks. simpl current_set_index.
  simpl _layer_sets. simpl _layer_with_uuid.
  unfold bind at 1. unfold lift at 1.
  rewrite setitem_nonneg by lia.
  unfold Doc.set_layer_sets at 1. simpl.
  fold new. unfold Stack.init_copy.
  set (db := MkDoc (current_set_index d)
               (<[Z.to_nat new_index := Some new]> slots')
               (_layer_with_uuid d)
               (stacks d ++ [MkStack (_store s_src) None])).
  unfold bind at 1. unfold Doc.set_current_set_index at 1. simpl.
  fold d1.
  assert (current_at d1 new) as Hcur1.
  { split; [done|]. simpl. by apply list_lookup_insert_eq. }
  assert (stacks d1 !! new = Some (MkStack (_store s_src) None)) as Hnew.
  { simpl. subst new. by rewrite lookup_app_r, Nat.sub_diag by lia. }
  pose proof (switch_tail d1 new _ new_index Hcur1 Hnew) as Ht.
  eexists. unfold d1 in Ht |- *. cbv beta. rewrite Ht. done.
Qed.



(** ** Document.is_using *)

Lemma stack_has_true u s : stack_has u s = true ↔ u ∈ uuid <$> _store s.
Proof.
  unfold stack_has. rewrite existsb_exists, list_elem_of_fmap. split.
  - intros (p & Hp & Hu). apply bool_decide_eq_true in Hu.
    exists p. split; [done|]. by apply list_elem_of_In.
  - intros (p & -> & Hp). exists p. split; [by apply list_elem_of_In|].
    by apply bool_decide_eq_true.
Qed.

Lemma in_use_b_true d u : in_use_b d u = true ↔ in_use d u.
Proof.
  unfold in_use_b, in_use, holds. rewrite existsb_exists. split.
  - intros ([l|] & Hin & Hl); [|done].
    destruct (stacks d !! l) as [s|] eqn:Hs; [|done].
    apply list_elem_of_In, list_elem_of_lookup in Hin as [k Hk].
    exists k, l. split; [done|]. exists s. split; [done|].
    by apply stack_has_true.
  - intros (k & l & Hk & s & Hs & Hu). exists (Some l). split.
    + apply list_elem_of_In. by eapply list_elem_of_lookup_2.
    + rewrite Hs. by apply stack_has_true.
Qed.

Lemma is_using_loop_run u d : ∀ lss,
  (∀ ls, ls ∈ lss → ∃ l, ls = Some l ∧ is_Some (stacks d !! l)) →
  Doc.is_using_loop u lss d
  = (Ok (existsb (λ ls, match ls with
                        | Some l => match stacks d !! l with
                                    | Some s => stack_has u s
                                    | None => false
                                    end
                        | None => false
                        end) lss), d, []).
Proof.
  induction lss as [|ls lss IH]; intros Hall; [done|].
  destruct (Hall ls) as (l & -> & [s Hs]); [left|].
  simpl. unfold bind at 1. simpl. unfold bind at 1.
  rewrite (on_stack_read l Stack.store d s (Ok (_store s)) []) by done.
  rewrite Hs. fold (stack_has u s).
  destruct (stack_has u s); [done|].
  rewrite IH; [done|]. intros ls Hls. apply Hall. by right.
Qed.

Lemma is_using_run u d :
  wf d →
  Doc.is_using u None d
  = (Ok (in_use_b d u), d,
     [Log ERROR "composite layers currently not checked for dependencies"]).
Proof.
  intros [_ Halloc]. unfold Doc.is_using.
  unfold bind at 1. unfold log at 1. unfold bind at 1. unfold get at 1.
  unfold bind at 1. unfold ret at 1.
  rewrite is_using_loop_run.
  - simpl. do 3 f_equal. unfold in_use_b.
    induction (_layer_sets d) as [|[l|] slots IH]; simpl; [done|..].
    + by rewrite IH.
    + exact IH.
  - intros ls Hls. apply list_elem_of_filter in Hls as [[l ->] Hin].
    exists l. split; [done|]. apply lookup_lt_is_Some_2, Halloc.
    by apply slot_locs_elem.
Qed.

(** ** Document.remove_layer_prez *)

Lemma row_for_uuid_run u d cur s :
  current_at d cur → stacks d !! cur = Some s →
  Doc.row_for_uuid u d
  = (match Stack.build_u2r (_store s) !! u with
     | Some row => Ok row
     | None => Raise KeyError
     end, d, []).
Proof.
  intros Hcur Hs. unfold Doc.row_for_uuid.
  unfold bind at 1. rewrite (current_layer_set_run d cur Hcur).
  unfold bind at 1. simpl Doc.as_stack. unfold ret at 1.
  unfold bind at 1.
  rewrite (on_stack_read cur Stack.store d s (Ok (_store s)) []) by done.
  fold (Stack.build_u2r (_store s)).
  by destruct (Stack.build_u2r (_store s) !! u).
Qed.

Lemma getitem_of_nat {A} (l : list A) (r : nat) x :
  l !! r = Some x → PyList.getitem l (Z.of_nat r) = Ok x.
Proof.
  intros Hx. apply getitem_nonneg; [lia|]. by rewrite Nat2Z.id.
Qed.

(** Forcing one row of the current set invisible. *)
Lemma toggle_row_off_run d cur s r p :
  current_at d cur → stacks d !! cur = Some s → _store s !! r = Some p →
  let da := with_stacks d
    (<[cur := MkStack (<[r := replace_visible p false]> (_store s)) None]>
       (stacks d)) in
  Doc.toggle_layer_visibility [Row (Z.of_nat r)] (Some false) d
  = (Ok tt, da, [Emit (didChangeLayerVisibility {[uuid p := false]}) da]).
Proof.
  intros Hcur Hs Hp da. unfold Doc.toggle_layer_visibility.
  unfold bind at 1. rewrite (current_layer_set_run d cur Hcur).
  unfold bind at 1. simpl fold_each.
  unfold bind at 1. unfold bind at 1. unfold ret at 1.
  unfold bind at 1. simpl Doc.as_stack. unfold ret at 1.
  unfold bind at 1.
  assert (Stack.__getitem__ (KInt (Z.of_nat r)) s = (Ok (VPrez p), s, [])) as Hg.
  { unfold Stack.__getitem__, bind, Stack.store, lift. simpl.
    by rewrite (getitem_of_nat _ _ _ Hp). }
  rewrite (on_stack_read cur _ d s _ _ Hs Hg).
  unfold bind at 1.
  assert (Stack.__setitem__ (Z.of_nat r) (replace_visible p false) s
          = (Ok tt, MkStack (<[r := replace_visible p false]> (_store s)) None,
             [])) as Hset.
  { apply lookup_lt_Some in Hp as Hlt.
    unfold Stack.__setitem__, bind, Stack.store, lift, Stack.set_store,
      Stack.set_u2r. simpl.
    rewrite decide_True by lia. simpl.
    rewrite setitem_nonneg by lia. simpl. by rewrite Nat2Z.id. }
  rewrite (on_stack_run cur _ d s Hs), Hset. simpl. done.
Qed.

Lemma wf_with_stacks d st :
  length st = length (stacks d) → wf d → wf (with_stacks d st).
Proof. intros Hlen [Hnd Halloc]. split; [done|]. simpl. by rewrite Hlen. Qed.

Lemma delslice_one {A} (l : list A) (r : nat) :
  (r < length l)%nat →
  PyList.delslice l (Z.of_nat r) (Z.of_nat r + 1) = delete r l.
Proof.
  intros Hr. unfold PyList.delslice.
  rewrite !clamp_in_range by lia.
  rewrite Nat2Z.id. replace (Z.to_nat (Z.of_nat r + 1)) with (S r) by lia.
  rewrite Nat.max_r by lia. by rewrite delete_take_drop.
Qed.

Lemma py_range_one (r : Z) : py_range r (r + 1) = [r].
Proof.
  unfold py_range. replace (r + 1 - r) with 1 by lia. unfold seqZ. simpl.
  done.
Qed.

(** The purge step for one identifier, in a well-formed document. *)
Lemma purge_step_run u d :
  wf d →
  (in_use <- Doc.is_using u None ;;
   if (in_use : bool) then ret tt
   else
     log INFO "purging layer {}, no longer in use" ;;
     Doc.emit (willPurgeLayer u) ;;
     d <- get ;;
     match _layer_with_uuid d !! u with
     | Some _ => Doc.set_layer_with_uuid (delete u (_layer_with_uuid d))
     | None => raise KeyError
     end ;;
     Doc.workspace_remove u) d
  = let head :=
      [Log ERROR "composite layers currently not checked for dependencies"] in
    let purge := [Log INFO "purging layer {}, no longer in use";
                  Emit (willPurgeLayer u) d] in
    if in_use_b d u then (Ok tt, d, head)
    else match _layer_with_uuid d !! u with
         | Some _ =>
             (Ok tt,
              MkDoc (current_set_index d) (_layer_sets d)
                    (delete u (_layer_with_uuid d)) (stacks d),
              head ++ purge ++ [WorkspaceRemove u])
         | None => (Raise KeyError, d, head ++ purge)
         end.
Proof.
  intros Hwf. unfold bind at 1. rewrite (is_using_run u d Hwf).
  destruct (in_use_b d u); [done|].
  unfold bind, log, Doc.emit, get. simpl.
  by destruct (_layer_with_uuid d !! u).
Qed.

(** [remove_layer_prez(u)] for an identifier [u] that the current set
    holds, last at row [r]. *)
Lemma remove_layer_prez_uuid_run d cur s u r p :
  wf d → current_at d cur → stacks d !! cur = Some s →
  Stack.build_u2r (_store s) !! u = Some r → _store s !! r = Some p →
  let da := with_stacks d
    (<[cur := MkStack (<[r := replace_visible p false]> (_store s)) None]>
       (stacks d)) in
  let db := with_stacks d
    (<[cur := MkStack (delete r (_store s)) None]> (stacks d)) in
  let head :=
    [Emit (didChangeLayerVisibility {[u := false]}) da;
     Emit (didRemoveLayers
             (PyList.delslice (seq 0 (length (_store s)))
                (Z.of_nat r) (Z.of_nat r + 1)) [u] (Z.of_nat r) 1) db;
     Log ERROR "composite layers currently not checked for dependencies"] in
  let purge := [Log INFO "purging layer {}, no longer in use";
                Emit (willPurgeLayer u) db] in
  Doc.remove_layer_prez (Uuid u) 1 d
  = if in_use_b db u then (Ok tt, db, head)
    else match _layer_with_uuid d !! u with
         | Some _ =>
             (Ok tt,
              MkDoc (current_set_index d) (_layer_sets d)
                    (delete u (_layer_with_uuid d)) (stacks db),
              head ++ purge ++ [WorkspaceRemove u])
         | None => (Raise KeyError, db, head ++ purge)
         end.
Proof.
  intros Hwf Hcur Hs Hr Hp da db head purge.
  assert (uuid p = u) as Hpu.
  { apply build_u2r_lookup in Hr as [Hr _]. rewrite Hp in Hr. by injection Hr. }
  apply lookup_lt_Some in Hp as Hlt. apply lookup_lt_Some in Hs as Hclt.
  unfold Doc.remove_layer_prez.
  rewrite decide_True by done.
  unfold bind at 1. unfold bind at 1.
  rewrite (row_for_uuid_run u d cur s Hcur Hs), Hr.
  unfold ret at 1. simpl app.
  rewrite py_range_one. simpl fmap.
  unfold bind at 1.
  rewrite (toggle_row_off_run d cur s r p Hcur Hs Hp). fold da. rewrite Hpu.
  assert (current_at da cur) as Hcura by done.
  assert (stacks da !! cur
          = Some (MkStack (<[r := replace_visible p false]> (_store s)) None))
    as Hsa by (simpl; by rewrite list_lookup_insert_eq).
  unfold bind at 1. rewrite (current_layer_set_run da cur Hcura).
  unfold bind at 1. simpl Doc.as_stack. unfold ret at 1.
  unfold bind at 1.
  rewrite (on_stack_read cur Stack.__len__ da _
             (Ok (Z.of_nat (length (_store s)))) [] Hsa)
    by (unfold Stack.__len__, bind, Stack.store; simpl;
        by rewrite length_insert).
  unfold bind at 1. rewrite (current_layer_set_run da cur Hcura).
  unfold bind at 1. simpl Doc.as_stack. unfold ret at 1.
  unfold bind at 1.
  rewrite (on_stack_run cur _ da _ Hsa).
  assert (Stack.__delitem__ (KSlice (Z.of_nat r) (Z.of_nat r + 1))
            (MkStack (<[r := replace_visible p false]> (_store s)) None)
          = (Ok tt, MkStack (delete r (_store s)) None, [])) as ->.
  { unfold Stack.__delitem__, bind, Stack.store, Stack.set_store,
      Stack.set_u2r. simpl.
    rewrite delslice_one by (by rewrite length_insert).
    do 3 f_equal. rewrite !delete_take_drop.
    by rewrite take_insert_ge, drop_insert_lt by lia. }
  simpl fst. simpl snd.
  assert (with_stacks da (<[cur := MkStack (delete r (_store s)) None]> (stacks da))
          = db) as ->.
  { unfold db, da, with_stacks. simpl. by rewrite list_insert_insert_eq. }
  unfold bind at 1. unfold Doc.emit at 1.
  rewrite Nat2Z.id.
  simpl for_each. rewrite bind_ret_tt.
  assert (wf db) as Hwfb.
  { apply wf_with_stacks; [|done]. by rewrite length_insert. }
  rewrite (purge_step_run u db Hwfb). simpl.
  destruct (in_use_b db u); [done|].
  by destruct (_layer_with_uuid d !! u).
Qed.

(** A call that selects by row raises at once: [DocLayerStack.__getitem__]
    has no case for the slice [row:row+count].  Nothing is removed. *)
Lemma remove_layer_prez_row_raises d cur row count :
  wf d → current_at d cur →
  Doc.remove_layer_prez (Row row) count d = (Raise ValueError, d, []).
Proof.
  intros Hwf Hcur.
  destruct (wf_allocated d _ cur Hwf (proj2 Hcur)) as [s Hs].
  unfold Doc.remove_layer_prez.
  unfold bind at 1. unfold bind at 1.
  rewrite (current_layer_set_run d cur Hcur).
  unfold bind at 1. simpl Doc.as_stack. unfold ret at 1.
  unfold bind at 1.
  by rewrite (on_stack_read cur _ d s (Raise ValueError) [] Hs).
Qed.

Lemma remove_layer_prez_uuid_count_raises d cur u count :
  current_at d cur → count ≠ 1 →
  Doc.remove_layer_prez (Uuid u) count d = (Raise TypeError, d, []).
Proof.
  intros Hcur Hc. unfold Doc.remove_layer_prez.
  rewrite decide_False by done.
  unfold bind at 1. unfold bind at 1.
  by rewrite (current_layer_set_run d cur Hcur).
Qed.

Lemma remove_layer_prez_uuid_absent d cur s u :
  current_at d cur → stacks d !! cur = Some s →
  Stack.build_u2r (_store s) !! u = None →
  Doc.remove_layer_prez (Uuid u) 1 d = (Raise KeyError, d, []).
Proof.
  intros Hcur Hs Hr. unfold Doc.remove_layer_prez.
  rewrite decide_True by done.
  unfold bind at 1. unfold bind at 1.
  by rewrite (row_for_uuid_run u d cur s Hcur Hs), Hr.
Qed.

Lemma in_use_same_sets d d' u :
  _layer_sets d' = _layer_sets d → stacks d' = stacks d →
  in_use d' u ↔ in_use d u.
Proof. intros H1 H2. unfold in_use, holds. by rewrite H1, H2. Qed.

(** C3, the code at the failing input: Scenario E.  A new document with
    one layer set imports one file, so that its only set holds layer 1 and
    nothing else; then [remove_layer_prez(0, 1)] selects that entry by
    row.  The call raises [ValueError] before it has removed anything: the
    set still holds the entry, the catalogue still holds layer 1, and
    neither a removal nor a purge is notified. *)
Theorem remove_by_row_raises :
  ∃ r1 d1 t1 p,
    open_one "a.tif" 0 (Doc.__init__ 1) = (Ok r1, d1, t1)
    ∧ current_store d1 = Some [p] ∧ uuid p = 1%N
    ∧ is_Some (_layer_with_uuid d1 !! 1%N)
    ∧ Doc.remove_layer_prez (Row 0) 1 d1 = (Raise ValueError, d1, []).
Proof.
  eexists _, _, _, _. split; [by vm_compute|].
  split; [by vm_compute|]. split; [done|]. split.
  - vm_compute. by eexists.
  - apply (remove_layer_prez_row_raises _ 0%nat).
    + split; [apply (bool_decide_unpack _); by vm_compute|].
      intros l Hl. apply list_elem_of_singleton in Hl as ->. simpl. lia.
    + split; [simpl; lia | reflexivity].
Qed.

(** [remove_layer_prez(u)], naming by identifier a layer of the catalogue
    that the current set shows, on a well-formed document.  The call
    returns.  The entry at the last row [r] that carries [u] is gone from
    the current set, nothing else changed in the sets, and the removal is
    notified.  Then [u] is purged if and only if no layer set holds an
    entry for [u] any more.  If one does, the catalogue is as it was and
    neither a purge is notified nor the workspace called.  If none does,
    [u] alone has left the catalogue, and the trace shows
    [willPurgeLayer(u)] emitted while the catalogue still held [u], with
    the workspace's [remove(u)] coming after that emission and not
    before. *)
Theorem remove_layer_prez_by_uuid_effect (d : Document) (cur : loc)
    (s : DocLayerStack) (u : UUID) :
  wf d → current_at d cur → stacks d !! cur = Some s →
  u ∈ uuid <$> _store s → is_Some (_layer_with_uuid d !! u) →
  ∃ (r : nat) d' t,
    Doc.remove_layer_prez (Uuid u) 1 d = (Ok tt, d', t)
    ∧ last_row (_store s) u r
    ∧ current_set_index d' = current_set_index d
    ∧ _layer_sets d' = _layer_sets d
    ∧ stacks d' = <[cur := MkStack (delete r (_store s)) None]> (stacks d)
    ∧ (∃ order seen, Emit (didRemoveLayers order [u] (Z.of_nat r) 1) seen ∈ t)
    ∧ (_layer_with_uuid d' !! u = None ↔ ¬ in_use d' u)
    ∧ (in_use d' u →
       _layer_with_uuid d' = _layer_with_uuid d
       ∧ (WorkspaceRemove u ∉ t)
       ∧ (∀ seen, Emit (willPurgeLayer u) seen ∉ t))
    ∧ (¬ in_use d' u →
       _layer_with_uuid d' = delete u (_layer_with_uuid d)
       ∧ ∃ pre seen' post,
           t = pre ++ Emit (willPurgeLayer u) seen' :: post
           ∧ is_Some (_layer_with_uuid seen' !! u)
           ∧ ¬ in_use seen' u
           ∧ WorkspaceRemove u ∈ post
           ∧ WorkspaceRemove u ∉ pre).
Proof.
  intros Hwf Hcur Hs Hu [layer Hlayer].
  destruct (proj2 (build_u2r_is_Some (_store s) u) Hu) as [r Hr].
  apply build_u2r_lookup in Hr as Hlast. pose proof Hlast as [Hp _].
  apply fmap_Some in Hp as (p & Hp & _).
  pose proof (remove_layer_prez_uuid_run d cur s u r p Hwf Hcur Hs Hr Hp)
    as Hrun.
  set (db := with_stacks d
               (<[cur := MkStack (delete r (_store s)) None]> (stacks d)))
    in *.
  cbv zeta in Hrun. rewrite Hlayer in Hrun.
  exists r. destruct (in_use_b db u) eqn:Hb.
  - apply in_use_b_true in Hb.
    eexists _, _. split; [exact Hrun|]. split; [done|].
    do 3 (split; [done|]).
    split; [eexists _, _; right; left|].
    split; [simpl; rewrite Hlayer; split; [done|]; by intros []|].
    split; [|by intros []].
    intros _. split; [done|]. split.
    + intros Hin.
      repeat (apply elem_of_cons in Hin as [Hin|Hin]; [discriminate|]).
      by apply elem_of_nil in Hin.
    + intros seen Hin.
      repeat (apply elem_of_cons in Hin as [Hin|Hin]; [discriminate|]).
      by apply elem_of_nil in Hin.
  - assert (¬ in_use db u) as Hnot.
    { rewrite <- in_use_b_true. by rewrite Hb. }
    assert (∀ c, ¬ in_use (MkDoc (current_set_index d) (_layer_sets d) c
                              (stacks db)) u) as Hnot'.
    { intros c. by rewrite (in_use_same_sets db _ u). }
    eexists _, _. split; [exact Hrun|]. split; [done|].
    do 3 (split; [done|]).
    split; [eexists _, _; right; left|].
    split; [simpl; by rewrite lookup_delete_eq|].
    split; [intros Hin; by destruct (Hnot' _ Hin)|].
    intros _. split; [done|].
    eexists [_; _; _; _], db, [_]. split; [reflexivity|].
    split; [simpl; by rewrite Hlayer|]. split; [done|].
    split; [by apply list_elem_of_singleton|].
    intros Hin.
    repeat (apply elem_of_cons in Hin as [Hin|Hin]; [discriminate|]).
    by apply elem_of_nil in Hin.
Qed.

Lemma wf_doc_two_layers : wf doc_two_layers.
Proof.
  split.
  - apply NoDup_singleton.
  - intros l Hl. apply list_elem_of_singleton in Hl as ->. simpl. lia.
Qed.

Lemma current_at_doc_two_layers : current_at doc_two_layers 0%nat.
Proof. split; [simpl; lia | reflexivity]. Qed.

Lemma remove_layer_prez_by_uuid_effect_witness :
  ∃ d' t,
    Doc.remove_layer_prez (Uuid 1%N) 1 doc_two_layers = (Ok tt, d', t)
    ∧ stacks d' = [MkStack [pz 2 true None] None]
    ∧ (_layer_with_uuid d' !! 1%N = None ↔ ¬ in_use d' 1%N).
Proof.
  destruct (remove_layer_prez_by_uuid_effect doc_two_layers 0%nat
              (MkStack [pz 1 true None; pz 2 true None] None) 1%N
              wf_doc_two_layers current_at_doc_two_layers eq_refl)
    as (r & d' & t & Hrun & [Hr _] & _ & _ & Hst & _ & Hiff & _).
  - simpl. left.
  - vm_compute. by eexists.
  - exists d', t. split; [exact Hrun|]. split; [|exact Hiff].
    destruct r as [|[|r]]; try discriminate Hr. exact Hst.
Defined.

(** ** Document.remove_layers_from_all_sets *)



Lemma delitem_of_nat {A} (l : list A) (i : nat) :
  (i < length l)%nat → PyList.delitem l (Z.of_nat i) = Ok (delete i l).
Proof.
  intros Hi. unfold PyList.delitem, PyList.norm_index.
  rewrite decide_True by lia. by rewrite Nat2Z.id, delete_take_drop.
Qed.

Lemma other_sets_loop_run u d :
  wf d →
  for_each (PyList.enumerate (_layer_sets d)) (λ dl,
    match dl.2 with
    | Some l =>
        if decide (Z.of_nat dl.1 = current_set_index d) then ret tt
        else
          st <- Doc.on_stack l Stack.store ;;
          match list_find (λ presentation, uuid presentation = u) st with
          | Some (pdex, _) =>
              Doc.on_stack l (Stack.__delitem__ (KInt (Z.of_nat pdex)))
          | None => ret tt
          end
    | None => ret tt
    end) d
  = (Ok tt,
     with_stacks d
       (on_slots (λ dex s, if decide (Z.of_nat dex = current_set_index d)
                           then s else drop_first u s)
                 0 (_layer_sets d) (stacks d)), []).
Proof.
  intros Hwf. unfold PyList.enumerate.
  refine (slots_loop_run _ _ _ _ (_layer_sets d) 0%nat d _).
  - intros dex l d' s Hs. simpl.
    assert (with_stacks d' (<[l := s]> (stacks d')) = d') as Hid.
    { rewrite list_insert_id by done. by destruct d'. }
    case_decide; [by rewrite Hid|].
    unfold bind at 1.
    rewrite (on_stack_read l Stack.store d' s (Ok (_store s)) []) by done.
    unfold drop_first.
    destruct (list_find _ _) as [[pdex q]|] eqn:Hf; [|by rewrite Hid].
    apply list_find_Some in Hf as (Hq & _ & _). apply lookup_lt_Some in Hq.
    rewrite (on_stack_run l _ d' s Hs).
    unfold Stack.__delitem__, bind, Stack.store, lift, Stack.set_store,
      Stack.set_u2r. simpl.
    by rewrite delitem_of_nat.
  - done.
  - intros l Hl. apply Hwf. by apply slot_locs_elem.
Qed.




(** ** Every reachable document is sound *)

Lemma sound_init n : sound (Doc.__init__ n).
Proof.
  split; [apply wf_init|]. exists 0%nat. split; [simpl; lia | reflexivity].
Qed.

Lemma sound_with_stacks d st :
  length st = length (stacks d) → sound d → sound (with_stacks d st).
Proof.
  intros Hlen [Hwf Hcur]. split; [by apply wf_with_stacks|done].
Qed.

Lemma hoare_on_stack_sound {A} l (m : M DocLayerStack A) :
  hoare sound (Doc.on_stack l m) (λ _, sound) sound.
Proof.
  intros d Hd. unfold Doc.on_stack.
  destruct (stacks d !! l) as [s|] eqn:Hl; [|done].
  destruct (m s) as [[[a|e] s'] t];
    apply (sound_with_stacks d); try done; by rewrite length_insert.
Qed.

Lemma hoare_emit_sound sig : hoare sound (Doc.emit sig) (λ _, sound) sound.
Proof. by intros d Hd. Qed.

Lemma hoare_set_layer_with_uuid_sound c :
  hoare sound (Doc.set_layer_with_uuid c) (λ _, sound) sound.
Proof. by intros d Hd. Qed.

Lemma hoare_workspace_remove_sound u :
  hoare sound (Doc.workspace_remove u) (λ _, sound) sound.
Proof. by intros d Hd. Qed.

Lemma hoare_current_layer_set_sound :
  hoare sound Doc.current_layer_set (λ _, sound) sound.
Proof.
  intros d Hd. unfold Doc.current_layer_set, bind, get, lift. simpl.
  by destruct (PyList.getitem _ _).
Qed.

Lemma hoare_as_stack_sound o e :
  hoare sound (Doc.as_stack o e) (λ _, sound) sound.
Proof. destruct o; simpl; [by apply hoare_ret | by apply hoare_raise]. Qed.

(** One step of a proof that a computation keeps [sound]: pick the rule
    for the head of the computation. *)
Ltac sound_step :=
  lazymatch goal with
  | |- hoare sound (bind _ _) _ _ =>
      eapply (hoare_bind _ _ _ _ (λ _, sound)); [|intros ?]
  | |- hoare sound (ret _) _ _ => by apply hoare_ret
  | |- hoare sound (raise _) _ _ => by apply hoare_raise
  | |- hoare sound (log _ _) _ _ => by apply hoare_log
  | |- hoare sound get _ _ => by apply hoare_get
  | |- hoare sound (lift _) _ _ => by apply hoare_lift
  | |- hoare sound (Doc.on_stack _ _) _ _ => apply hoare_on_stack_sound
  | |- hoare sound (Doc.emit _) _ _ => apply hoare_emit_sound
  | |- hoare sound (Doc.set_layer_with_uuid _) _ _ =>
      apply hoare_set_layer_with_uuid_sound
  | |- hoare sound (Doc.workspace_remove _) _ _ =>
      apply hoare_workspace_remove_sound
  | |- hoare sound Doc.current_layer_set _ _ =>
      apply hoare_current_layer_set_sound
  | |- hoare sound (Doc.as_stack _ _) _ _ => apply hoare_as_stack_sound
  | |- hoare sound (for_each _ _) _ _ => apply hoare_for_each; intros ? _
  | |- hoare sound (fold_each _ _ _) _ _ =>
      apply hoare_fold_each; intros ? ? _
  | |- hoare sound (match ?x with _ => _ end) _ _ => destruct x
  end.

Lemma hoare_toggle_sound rows v :
  hoare sound (Doc.toggle_layer_visibility rows v) (λ _, sound) sound.
Proof. unfold Doc.toggle_layer_visibility. repeat sound_step. Qed.

Lemma hoare_is_using_loop_sound u lss :
  hoare sound (Doc.is_using_loop u lss) (λ _, sound) sound.
Proof. induction lss as [|ls lss IH]; simpl; repeat sound_step. apply IH. Qed.

Lemma hoare_is_using_sound u ls :
  hoare sound (Doc.is_using u ls) (λ _, sound) sound.
Proof.
  unfold Doc.is_using. repeat sound_step. apply hoare_is_using_loop_sound.
Qed.

Lemma hoare_row_for_uuid_sound u :
  hoare sound (Doc.row_for_uuid u) (λ _, sound) sound.
Proof. unfold Doc.row_for_uuid. repeat sound_step. Qed.

Lemma hoare_remove_layer_prez_sound sel count :
  hoare sound (Doc.remove_layer_prez sel count) (λ _, sound) sound.
Proof.
  unfold Doc.remove_layer_prez.
  eapply (hoare_bind _ _ _ _ (λ _, sound)).
  - destruct sel; [repeat sound_step|].
    case_decide; repeat sound_step. apply hoare_row_for_uuid_sound.
  - intros [row uuids]. sound_step; [apply hoare_toggle_sound|].
    repeat sound_step. apply hoare_is_using_sound.
Qed.

Ltac sound_bind := eapply (hoare_bind _ _ _ _ (λ _, sound)).

Lemma hoare_remove_layers_from_all_sets_sound uuids :
  hoare sound (Doc.remove_layers_from_all_sets uuids) (λ _, sound) sound.
Proof.
  unfold Doc.remove_layers_from_all_sets.
  apply hoare_for_each. intros u _.
  sound_bind; [sound_step|]. intros _.
  sound_bind; [sound_step|]. intros d.
  sound_bind; [|intros _; apply hoare_remove_layer_prez_sound].
  apply hoare_for_each. intros [dex [l|]] _; simpl; [|sound_step].
  case_decide; [sound_step|].
  sound_bind; [sound_step|]. intros st.
  destruct (list_find _ st) as [[pdex q]|]; sound_step.
Qed.

Lemma hoare_update_dataset_info_sound ni :
  hoare sound (Doc.update_dataset_info ni) (λ _, sound) sound.
Proof.
  unfold Doc.update_dataset_info.
  sound_bind; [sound_step|]. intros d.
  sound_bind; [case_decide; sound_step|]. intros _.
  destruct (_ !! _); sound_step.
Qed.

Lemma hoare_insert_layer_with_info_sound info cmap ib :
  hoare sound (Doc._insert_layer_with_info info cmap ib) (λ _, sound) sound.
Proof.
  unfold Doc._insert_layer_with_info.
  sound_bind; [sound_step|]. intros cur.
  sound_bind; [sound_step|]. intros cur'.
  sound_bind; [sound_step|]. intros n.
  sound_bind; [sound_step|]. intros d.
  sound_bind; [|intros _; sound_step].
  apply hoare_for_each. intros [dex [l|]] _; sound_step.
Qed.

Section ReachableSound.
Variable import_image : string → UUID * Layer * Content.
Variable collect_info : Layer → Fields.
Variable default_colormap : Layer → option Colormap.
Variable guidebook_climits : Layer → Climits.
Variable display_name : Layer → option string.

Lemma hoare_open_file_sound path ib :
  hoare sound
    (Doc.open_file import_image collect_info default_colormap
                   guidebook_climits display_name path ib)
    (λ _, sound) sound.
Proof.
  unfold Doc.open_file. destruct (import_image path) as [[u info] content].
  sound_bind; [sound_step|]. intros d. case_decide.
  - unfold format_s_UUID. repeat sound_step.
  - do 4 (sound_bind; [sound_step|]; intros _).
    sound_bind; [apply hoare_insert_layer_with_info_sound|].
    intros [presentation reordered_indices]. repeat sound_step.
Qed.
End ReachableSound.

Lemma omap_id_insert_fresh (slots : list (option loc)) n new :
  slots !! n = Some None →
  omap id (<[n := Some new]> slots) ≡ₚ new :: omap id slots.
Proof.
  revert n. induction slots as [|[l|] slots IH]; intros [|n] Hn;
    simplify_eq/=; try done.
  - rewrite (IH n Hn). apply Permutation_swap.
  - by apply IH.
Qed.

Lemma omap_id_snoc_None (slots : list (option loc)) :
  omap id (slots ++ [None]) = omap id slots.
Proof. rewrite omap_app. simpl. by rewrite app_nil_r. Qed.

(** [select_layer_set] on a slot that already holds a stack. *)
Lemma select_layer_set_existing_run d new_index l s :
  wf d →
  0 ≤ new_index → _layer_sets d !! Z.to_nat new_index = Some (Some l) →
  stacks d !! l = Some s →
  let d1 := MkDoc new_index (_layer_sets d) (_layer_with_uuid d) (stacks d) in
  ∃ t, Doc.select_layer_set new_index d = (Ok tt, d1, t).
Proof.
  intros Hwf Hnn Hslot Hs d1.
  apply lookup_lt_Some in Hslot as Hlt.
  unfold Doc.select_layer_set.
  unfold bind at 1. unfold get at 1.
  rewrite decide_True by lia.
  unfold bind at 1. unfold ret at 1.
  unfold bind at 1. rewrite decide_False by lia. unfold ret at 1.
  unfold bind at 1. unfold get at 1.
  unfold bind at 1. unfold bind at 1. unfold lift at 1.
  rewrite (getitem_nonneg _ new_index (Some l) Hnn Hslot).
  unfold ret at 1. unfold bind at 1.
  unfold Doc.set_current_set_index at 1.
  assert (current_at d1 l) as Hcur1 by done.
  pose proof (switch_tail d1 l s new_index Hcur1 Hs) as Ht.
  unfold d1 in Ht |- *. cbv beta. rewrite Ht. by eexists.
Qed.

Lemma sound_select_layer_set new_index d :
  sound d → sound (Doc.select_layer_set new_index d).1.2.
Proof.
  intros [Hwf [src Hcur]].
  destruct (wf_allocated d _ src Hwf (proj2 Hcur)) as [s_src Hsrc].
  destruct (decide (new_index ≤ Z.of_nat (length (_layer_sets d))
                    ∧ 0 ≤ new_index)) as [[Hle Hnn]|Hbad]; last first.
  { unfold Doc.select_layer_set, bind, get. simpl.
    rewrite decide_False by done. simpl. by split; [|exists src]. }
  set (slots' := if decide (new_index = Z.of_nat (length (_layer_sets d)))
                 then _layer_sets d ++ [None] else _layer_sets d).
  assert (Z.to_nat new_index < length slots')%nat as Hlt.
  { subst slots'. case_decide; [rewrite length_app; simpl|]; lia. }
  destruct (lookup_lt_is_Some_2 _ _ Hlt) as [[l|] Hslot].
  - (* the slot holds a stack *)
    assert (_layer_sets d !! Z.to_nat new_index = Some (Some l)) as Hslot'.
    { subst slots'. case_decide as Heq; [|done].
      rewrite Heq, Nat2Z.id, lookup_app_r, Nat.sub_diag in Hslot by lia.
      done. }
    destruct (wf_allocated d _ l Hwf Hslot') as [s Hs].
    destruct (select_layer_set_existing_run d new_index l s Hwf Hnn Hslot' Hs)
      as [t ->]. simpl.
    split; [done|]. by exists l.
  - (* the slot is empty: a clone is made *)
    destruct (select_layer_set_run d new_index src s_src Hcur Hsrc Hnn Hslot)
      as [anim ->]. simpl. fold slots'.
    destruct Hwf as [Hnd Halloc].
    assert (omap id slots' = slot_locs d) as Hlocs.
    { subst slots'. unfold slot_locs. case_decide; [|done].
      apply omap_id_snoc_None. }
    split; [split|].
    + unfold slot_locs. simpl.
      rewrite (omap_id_insert_fresh _ _ _ Hslot), Hlocs.
      apply NoDup_cons. split; [|done].
      intros Hin. apply Halloc in Hin. lia.
    + intros l'. unfold slot_locs. simpl.
      rewrite (omap_id_insert_fresh _ _ _ Hslot), Hlocs.
      rewrite length_app. simpl. intros Hin.
      apply elem_of_cons in Hin as [->|Hin]; [lia|].
      apply Halloc in Hin. lia.
    + exists (length (stacks d)). split; [done|]. simpl.
      by apply list_lookup_insert_eq.
Qed.

Section ReachableTheorem.
Variable import_image : string → UUID * Layer * Content.
Variable collect_info : Layer → Fields.
Variable default_colormap : Layer → option Colormap.
Variable guidebook_climits : Layer → Climits.
Variable display_name : Layer → option string.

Let run_op' := run_doc_op import_image collect_info default_colormap
                          guidebook_climits display_name.

Lemma sound_run_doc_op op d : sound d → sound (run_op' op d).1.2.
Proof.
  intros Hd. destruct op; simpl.
  - apply (hoare_final sound); [|done].
    sound_bind; [apply hoare_open_file_sound|]. intros ?. sound_step.
  - apply (hoare_final sound); [apply hoare_update_dataset_info_sound|done].
  - by apply sound_select_layer_set.
  - apply (hoare_final sound); [apply hoare_toggle_sound|done].
  - apply (hoare_final sound); [apply hoare_remove_layer_prez_sound|done].
  - apply (hoare_final sound);
      [apply hoare_remove_layers_from_all_sets_sound|done].
Qed.

(** Whatever a client calls on a new document, in whatever order and
    however each call ends, the document stays well-formed and keeps a
    current set: the hypotheses of the theorems above are the invariant of
    the documents the code can build. *)
Lemma reachable_sound n ops :
  sound (run_doc_ops import_image collect_info default_colormap
                     guidebook_climits display_name ops (Doc.__init__ n)).
Proof.
  unfold run_doc_ops. generalize (Doc.__init__ n) (sound_init n).
  induction ops as [|op ops IH]; intros d Hd; [done|].
  simpl. apply IH. by apply sound_run_doc_op.
Qed.
End ReachableTheorem.

(** ** The scenarios of the specification, run on the model *)

(** Scenario A: one import into a new document with one layer set. *)
Example scenario_A :
  ∃ r d t,
    open_one "a.tif" 0 (Doc.__init__ 1) = (Ok r, d, t)
    ∧ current_store d
      = Some [Prez 1%N IMAGE true None (Some (CmapName "grays"))
                   (ClimPair 0%N 1%N) NORMAL].
Proof. eexists _, _, _. split; by vm_compute. Qed.

(** Scenario B: two imports; the newest is on top and both are visible. *)
Example scenario_B :
  ∃ r1 d1 t1 r2 d2 t2,
    open_two "a.tif" 0 (Doc.__init__ 1) = (Ok r1, d1, t1)
    ∧ open_two "b.tif" 0 d1 = (Ok r2, d2, t2)
    ∧ (λ st : list prez, uuid <$> st) <$> current_store d2 = Some [2%N; 1%N]
    ∧ (λ st : list prez, visible <$> st) <$> current_store d2
      = Some [true; true].
Proof.
  eexists _, _, _, _, _, _.
  split; [by vm_compute|]. split; [by vm_compute|]. split; by vm_compute.
Qed.

(** Scenario D: one visibility notification for a batch of two. *)
Example scenario_D :
  ∃ d' seen,
    Doc.toggle_layer_visibility [Uuid 1%N; Uuid 2%N] (Some false)
      doc_two_layers
    = (Ok tt, d',
       [Emit (didChangeLayerVisibility (<[2%N := false]> {[1%N := false]}))
             seen]).
Proof. eexists _, _. by vm_compute. Qed.

(** Scenario E, as written (by row): the call raises and purges nothing. *)
Example scenario_E_by_row :
  Doc.remove_layer_prez (Row 0) 1 doc_two_layers
  = (Raise ValueError, doc_two_layers, []).
Proof.
  apply (remove_layer_prez_row_raises _ 0%nat);
    [apply wf_doc_two_layers | apply current_at_doc_two_layers].
Qed.

(** Scenario E, naming the layer by identifier: it is purged, and the
    notification comes before the workspace is told. *)
Example scenario_E_by_uuid :
  ∃ d' t seen,
    Doc.remove_layer_prez (Uuid 1%N) 1 doc_two_layers = (Ok tt, d', t)
    ∧ _layer_with_uuid d' !! 1%N = None
    ∧ drop 4 t = [Emit (willPurgeLayer 1%N) seen; WorkspaceRemove 1%N]
    ∧ is_Some (_layer_with_uuid seen !! 1%N).
Proof.
  eexists _, _, _. split; [by vm_compute|]. split; [by vm_compute|].
  split; [by vm_compute|]. vm_compute. by eexists.
Qed.

(** * Further properties of the layer set *)

(** ** Writing and deleting by row *)

Lemma Stack_setitem_run index value s :
  Stack.__setitem__ index value s
  = if decide (0 ≤ index ∧ index < Z.of_nat (length (_store s))) then
      (Ok tt, MkStack (<[Z.to_nat index := value]> (_store s)) None, [])
    else if decide (index = Z.of_nat (length (_store s))) then
      (Ok tt, MkStack (_store s ++ [value]) None, [])
    else (Raise IndexError, s, []).
Proof.
  unfold Stack.__setitem__, bind, Stack.store. simpl.
  case_decide as Hin.
  - unfold bind, lift. rewrite setitem_nonneg by done. simpl. by destruct s.
  - case_decide; simpl; [done|]. by destruct s.
Qed.

(** [s[index] = value] is stricter than the list it wraps.  It accepts the
    rows [0 .. n-1] and, as an append, the row [n]; the cache is dropped,
    the set is as long as before or one longer, reading row [index] back
    gives [value], and every other row is as it was.  All other indices,
    the negative ones that a list would count from the end among them, are
    refused with [IndexError], and then the object is unchanged, its cache
    included. *)
Theorem setitem_then_getitem (s : DocLayerStack) (index : Z) (value : prez) :
  let n := Z.of_nat (length (_store s)) in
  (0 ≤ index ≤ n →
   ∃ s', Stack.__setitem__ index value s = (Ok tt, s', [])
         ∧ _u2r s' = None
         ∧ Z.of_nat (length (_store s')) = Z.max n (index + 1)
         ∧ Stack.__getitem__ (KInt index) s' = (Ok (VPrez value), s', [])
         ∧ ∀ i : nat, i ≠ Z.to_nat index → (i < length (_store s))%nat →
             _store s' !! i = _store s !! i)
  ∧ (¬ 0 ≤ index ≤ n →
     Stack.__setitem__ index value s = (Raise IndexError, s, [])).
Proof.
  intros n. subst n. rewrite Stack_setitem_run. split.
  - intros Hi. case_decide as Hin.
    + eexists. split; [done|]. simpl. split; [done|].
      split; [rewrite length_insert; lia|]. split.
      * unfold Stack.__getitem__, bind, Stack.store, lift. simpl.
        rewrite (getitem_nonneg _ index value); [done|lia|].
        apply list_lookup_insert_eq. lia.
      * intros i Hne _. by apply list_lookup_insert_ne.
    + rewrite decide_True by lia.
      eexists. split; [done|]. simpl. split; [done|].
      split; [rewrite length_app; simpl; lia|]. split.
      * unfold Stack.__getitem__, bind, Stack.store, lift. simpl.
        rewrite (getitem_nonneg _ index value); [done|lia|].
        assert (Z.to_nat index = length (_store s)) as -> by lia.
        by rewrite lookup_app_r, Nat.sub_diag by lia.
      * intros i _ Hlt. by apply lookup_app_l.
  - intros Hi. rewrite decide_False by lia. by rewrite decide_False by lia.
Qed.

Lemma Stack_delitem_int_run (i : nat) s :
  (i < length (_store s))%nat →
  Stack.__delitem__ (KInt (Z.of_nat i)) s
  = (Ok tt, MkStack (delete i (_store s)) None, []).
Proof.
  intros Hi. unfold Stack.__delitem__, bind, Stack.store, lift. simpl.
  by rewrite delitem_of_nat.
Qed.

(** Inserting an entry and deleting the row it landed on gives back the
    store, whatever machine index was given; only the cache is gone.  The
    row it landed on is the clamped position. *)
Theorem insert_then_delitem (s : DocLayerStack) (index : Z) (value : prez) :
  - 2 ^ 63 ≤ index ≤ 2 ^ 63 - 1 →
  ∃ s1,
    Stack.insert index value s = (Ok tt, s1, [])
    ∧ _store s1 !! PyList.clamp (_store s) index = Some value
    ∧ Stack.__delitem__ (KInt (Z.of_nat (PyList.clamp (_store s) index))) s1
      = (Ok tt, MkStack (_store s) None, []).
Proof.
  intros Hfit.
  eexists. split; [by apply Stack_insert_run, fits_index_small|]. simpl.
  pose proof (clamp_le (_store s) index) as Hle.
  split; [apply insert_lookup_at|].
  rewrite Stack_delitem_int_run by (simpl; rewrite insert_length; lia).
  simpl. do 3 f_equal. unfold PyList.inserted.
  rewrite delete_take_drop.
  rewrite take_app_le by (rewrite length_take; lia).
  rewrite take_take, Nat.min_id.
  rewrite drop_app_ge by (rewrite length_take; lia).
  rewrite length_take, Nat.min_l by lia.
  replace (S (PyList.clamp (_store s) index) - PyList.clamp (_store s) index)%nat
    with 1%nat by lia.
  simpl. by rewrite drop_0, take_drop.
Qed.

Lemma insert_then_delitem_witness :
  ∃ s1,
    Stack.insert (-1) (pz 3 true None)
      (MkStack [pz 1 true None; pz 2 true None] None)
    = (Ok tt, s1, [])
    ∧ _store s1 !! 1%nat = Some (pz 3 true None)
    ∧ Stack.__delitem__ (KInt 1) s1
      = (Ok tt, MkStack [pz 1 true None; pz 2 true None] None, []).
Proof.
  apply (insert_then_delitem (MkStack [pz 1 true None; pz 2 true None] None)
           (-1) (pz 3 true None)).
  lia.
Defined.

(** ** Looking an identifier up *)

(** With a sound cache, [s[u]] and [s.index(u)] give the same answer and
    never raise.  For an identifier the set holds, the answer is the last
    row that carries it, and reading that row gives an entry with that
    identifier; for one it does not hold, the answer is [None].  The store
    is the same afterwards. *)
Theorem lookup_by_uuid_round_trip (s : DocLayerStack) (u : UUID) :
  cache_ok s →
  ∃ r s',
    Stack.__getitem__ (KUUID u) s = (Ok (VRow r), s', [])
    ∧ Stack.index u s = (Ok r, s', [])
    ∧ _store s' = _store s
    ∧ match r with
      | Some row =>
          ∃ p, Stack.__getitem__ (KInt (Z.of_nat row)) s'
               = (Ok (VPrez p), s', [])
               ∧ uuid p = u
               ∧ ∀ j q, (row < j)%nat → _store s !! j = Some q → uuid q ≠ u
      | None => u ∉ uuid <$> _store s
      end.
Proof.
  intros Hc.
  destruct (key_uuid_getitem (KUUID u) u s eq_refl Hc) as (s' & Hget & Hst & Hu2r).
  exists (Stack.build_u2r (_store s) !! u), s'.
  split; [done|]. split.
  { revert Hget. unfold Stack.__getitem__, Stack.index, bind.
    destruct (Stack.uuid2row s) as [[[c|e] s1] t]; simpl; [|done].
    by intros [= -> -> ->]. }
  split; [done|].
  destruct (Stack.build_u2r (_store s) !! u) as [row|] eqn:Hrow.
  - apply build_u2r_lookup in Hrow as [Hat Hlast].
    apply fmap_Some in Hat as (p & Hp & ->). exists p. split; [|split].
    + unfold Stack.__getitem__, bind, Stack.store, lift. simpl.
      rewrite Hst. by rewrite (getitem_of_nat _ row p).
    + done.
    + intros j q Hlt Hq Hu. apply (Hlast j Hlt). by rewrite Hq, <- Hu.
  - intros Hin. apply build_u2r_is_Some in Hin as [? Hin]. congruence.
Qed.

Lemma lookup_by_uuid_round_trip_witness :
  ∃ s', Stack.index 2%N (MkStack [pz 1 true None; pz 2 true None] None)
        = (Ok (Some 1%nat), s', []).
Proof.
  destruct (lookup_by_uuid_round_trip
              (MkStack [pz 1 true None; pz 2 true None] None) 2%N)
    as (r & s' & _ & Hindex & _).
  - apply cache_ok_None.
  - exists s'. revert Hindex. vm_compute. by intros [= <- <-].
Defined.

(** ** Setting the animation order and reading it back *)

Lemma animated_uuids_sublist st : (animated st).*2 `sublist_of` uuid <$> st.
Proof.
  induction st as [|p st IH]; simpl; [done|].
  unfold animated in *. simpl. destruct (a_order p); simpl.
  - by apply sublist_skip.
  - by apply sublist_cons.
Qed.

Lemma numbered_snd (us : list UUID) : ∀ k,
  (imap (λ n u, (Z.of_nat (k + n), u)) us).*2 = us.
Proof.
  induction us as [|u us IH]; intros k; simpl; [done|]. f_equal.
  rewrite (imap_ext _ (λ n u, (Z.of_nat (S k + n), u)))
    by (intros; simpl; do 2 f_equal; lia).
  apply IH.
Qed.

Lemma numbered_sorted (us : list UUID) : ∀ k,
  StronglySorted Stack.aouu_le (imap (λ n u, (Z.of_nat (k + n), u)) us).
Proof.
  induction us as [|u us IH]; intros k; simpl; constructor.
  - rewrite (imap_ext _ (λ n u, (Z.of_nat (S k + n), u)))
      by (intros; simpl; do 2 f_equal; lia).
    apply IH.
  - apply Forall_forall. intros [a v] Hin.
    apply elem_of_lookup_imap in Hin as (n & w & [= -> ->] & _).
    left. simpl. lia.
Qed.

(** The setter and the getter agree.  On a set with no identifier twice,
    assigning a sequence of distinct identifiers that the set holds and
    then reading the animation order gives back that sequence, in that
    order. *)
Theorem set_then_get_animation_order (s : DocLayerStack) (us : list UUID) :
  cache_ok s → NoDup (uuid <$> _store s) → NoDup us →
  (∀ u, u ∈ us → u ∈ uuid <$> _store s) →
  ∃ s' t,
    Stack.set_animation_order (KUUID <$> us) s = (Ok tt, s', [])
    ∧ Stack.animation_order s' = (Ok us, s', t).
Proof.
  intros Hc Hnd Hus Hall.
  destruct (set_animation_order_distinct s us Hc Hnd Hus Hall)
    as (s' & Hrun & Hrows).
  destruct (set_animation_order_present s (KUUID <$> us) us Hc)
    as (c & Hrun' & _); [|done|].
  { apply Forall2_fmap_l, Forall_Forall2_diag, Forall_forall. done. }
  rewrite Hrun in Hrun'. injection Hrun' as Hs'.
  assert (uuid <$> _store s' = uuid <$> _store s) as Huu
    by (rewrite Hs'; apply assigned_uuids).
  exists s', [Log DEBUG "animation order is {0!r:s}"].
  split; [done|]. rewrite Stack_animation_order_run. do 3 f_equal.
  trans ((imap (λ n u, (Z.of_nat (0 + n), u)) us).*2);
    [f_equal | apply numbered_snd].
  apply sorted_perm_unique;
    [apply (StronglySorted_merge_sort _) | apply numbered_sorted |].
  rewrite merge_sort_Permutation. apply NoDup_Permutation.
  - apply (NoDup_fmap_1 snd).
    eapply sublist_NoDup; [|apply animated_uuids_sublist]. by rewrite Huu.
  - apply (NoDup_fmap_1 snd). by rewrite numbered_snd.
  - intros [a u]. rewrite animated_elem, elem_of_lookup_imap. split.
    + intros (p' & Hin & Ha & Hu).
      apply list_elem_of_lookup in Hin as [i Hi].
      assert (is_Some (_store s !! i)) as [p Hp].
      { apply lookup_lt_is_Some. apply lookup_lt_Some in Hi.
        rewrite <- (length_fmap uuid), <- Huu, length_fmap. done. }
      destruct (Hrows i p Hp) as (o & Hi' & Hsome & Hnone).
      rewrite Hi in Hi'. injection Hi' as ->. simpl in *. subst o.
      destruct (decide (uuid p ∈ us)) as [Hmem|Hnot];
        [|by specialize (Hnone Hnot)].
      apply list_elem_of_lookup in Hmem as [n Hn].
      specialize (Hsome n Hn). injection Hsome as ->.
      exists n, (uuid p). by rewrite <- Hu.
    + intros (n & v & [= -> ->] & Hn).
      assert (v ∈ uuid <$> _store s) as Hin
        by (apply Hall; by eapply list_elem_of_lookup_2).
      apply list_elem_of_fmap in Hin as (p & -> & Hin).
      apply list_elem_of_lookup in Hin as [i Hi].
      destruct (Hrows i p Hi) as (o & Hi' & Hsome & _).
      exists (replace_a_order p o). split; [by eapply list_elem_of_lookup_2|].
      simpl. split; [|done]. by rewrite (Hsome n Hn).
Qed.

Lemma set_then_get_animation_order_witness :
  ∃ s' t,
    Stack.set_animation_order [KUUID 2%N; KUUID 1%N]
      (MkStack [pz 1 true None; pz 2 true (Some 5)] None) = (Ok tt, s', [])
    ∧ Stack.animation_order s' = (Ok [2%N; 1%N], s', t).
Proof.
  apply (set_then_get_animation_order
           (MkStack [pz 1 true None; pz 2 true (Some 5)] None) [2%N; 1%N]).
  - apply cache_ok_None.
  - apply (bool_decide_unpack _). by vm_compute.
  - apply (bool_decide_unpack _). by vm_compute.
  - intros u Hu. simpl.
    apply elem_of_cons in Hu as [->|Hu]; [by right; left|].
    apply list_elem_of_singleton in Hu as ->. by left.
Defined.

Lemma animated_cleared st : animated (cleared st) = [].
Proof. unfold animated, cleared. by induction st as [|p st IH]. Qed.

Lemma cleared_cleared st : cleared (cleared st) = cleared st.
Proof.
  unfold cleared. rewrite <- list_fmap_compose. by apply list_fmap_ext.
Qed.

(** [clear_animation_order] always returns.  Afterwards the animation
    order reads as the empty tuple; the rows keep their identifiers and
    their visibility, and the cache is kept too (it maps identifiers to
    rows, which have not moved); clearing once more changes nothing. *)
Theorem clear_then_get_animation_order (s : DocLayerStack) :
  ∃ s' t,
    Stack.clear_animation_order s = (Ok tt, s', [])
    ∧ Stack.animation_order s' = (Ok [], s', t)
    ∧ uuid <$> _store s' = uuid <$> _store s
    ∧ visible <$> _store s' = visible <$> _store s
    ∧ _u2r s' = _u2r s
    ∧ Stack.clear_animation_order s' = (Ok tt, s', []).
Proof.
  eexists _, _. split; [apply clear_animation_order_run|].
  rewrite Stack_animation_order_run. simpl. rewrite animated_cleared.
  split; [done|]. split; [apply cleared_uuids|]. split.
  { unfold cleared. rewrite <- list_fmap_compose. by apply list_fmap_ext. }
  split; [done|].
  rewrite clear_animation_order_run. simpl. by rewrite cleared_cleared.
Qed.

(** * Further properties of the document *)

(** ** Document.select_layer_set: its domain, and switching back *)

(** [select_layer_set] on a slot that already holds a stack, with its
    trace: only the index changes. *)
Lemma select_layer_set_existing_trace d new_index l s :
  0 ≤ new_index → _layer_sets d !! Z.to_nat new_index = Some (Some l) →
  stacks d !! l = Some s →
  let d1 := MkDoc new_index (_layer_sets d) (_layer_with_uuid d) (stacks d) in
  Doc.select_layer_set new_index d
  = (Ok tt, d1,
     [Log DEBUG "animation order is {0!r:s}";
      Emit (didSwitchLayerSet new_index (Some l)
              ((merge_sort Stack.aouu_le (animated (_store s))).*2)) d1]).
Proof.
  intros Hnn Hslot Hs d1.
  apply lookup_lt_Some in Hslot as Hlt.
  unfold Doc.select_layer_set.
  unfold bind at 1. unfold get at 1.
  rewrite decide_True by lia.
  unfold bind at 1. unfold ret at 1.
  unfold bind at 1. rewrite decide_False by lia. unfold ret at 1.
  unfold bind at 1. unfold get at 1.
  unfold bind at 1. unfold bind at 1. unfold lift at 1.
  rewrite (getitem_nonneg _ new_index (Some l) Hnn Hslot).
  unfold ret at 1. unfold bind at 1.
  unfold Doc.set_current_set_index at 1.
  assert (current_at d1 l) as Hcur1 by done.
  pose proof (switch_tail d1 l s new_index Hcur1 Hs) as Ht.
  unfold d1 in Ht |- *. cbv beta. by rewrite Ht.
Qed.

(** The indices [select_layer_set] accepts on a sound document are
    [0 .. n], where [n] is the number of slots: it then returns with the
    index switched, the number of slots grown by at most one (when the
    index was [n]), the catalogue untouched and the document still sound,
    and its last act is the one signal it emits, [didSwitchLayerSet],
    whose subscribers see the document as the call leaves it.  Any other
    index fails the assertion, and then nothing has changed and nothing
    was emitted. *)
Theorem select_layer_set_domain (d : Document) (layer_set_index : Z) :
  sound d →
  let n := Z.of_nat (length (_layer_sets d)) in
  (0 ≤ layer_set_index ≤ n →
   ∃ d' cur anim,
     Doc.select_layer_set layer_set_index d
     = (Ok tt, d',
        [Log DEBUG "animation order is {0!r:s}";
         Emit (didSwitchLayerSet layer_set_index (Some cur) anim) d'])
     ∧ current_set_index d' = layer_set_index
     ∧ current_at d' cur
     ∧ sound d'
     ∧ Z.of_nat (length (_layer_sets d')) = Z.max n (layer_set_index + 1)
     ∧ _layer_with_uuid d' = _layer_with_uuid d)
  ∧ (¬ 0 ≤ layer_set_index ≤ n →
     Doc.select_layer_set layer_set_index d = (Raise AssertionError, d, [])).
Proof.
  intros Hd n. pose proof Hd as [Hwf [src Hcur]]. split; last first.
  { intros Hbad. unfold Doc.select_layer_set, bind, get. simpl.
    rewrite decide_False by (subst n; lia). done. }
  intros [Hnn Hle].
  pose proof (sound_select_layer_set layer_set_index d Hd) as Hsound.
  destruct (wf_allocated d _ src Hwf (proj2 Hcur)) as [s_src Hsrc].
  set (slots' := if decide (layer_set_index
                            = Z.of_nat (length (_layer_sets d)))
                 then _layer_sets d ++ [None] else _layer_sets d).
  assert (Z.to_nat layer_set_index < length slots')%nat as Hlt.
  { subst slots' n. case_decide; [rewrite length_app; simpl|]; lia. }
  destruct (lookup_lt_is_Some_2 _ _ Hlt) as [[l|] Hslot].
  - assert (_layer_sets d !! Z.to_nat layer_set_index = Some (Some l))
      as Hslot'.
    { subst slots'. case_decide as Heq; [|done].
      rewrite Heq, Nat2Z.id, lookup_app_r, Nat.sub_diag in Hslot by lia.
      done. }
    destruct (wf_allocated d _ l Hwf Hslot') as [s Hs].
    pose proof (select_layer_set_existing_trace d layer_set_index l s
                  Hnn Hslot' Hs) as Hrun.
    rewrite Hrun in Hsound. simpl in Hsound.
    eexists _, l, _. split; [exact Hrun|]. simpl.
    apply lookup_lt_Some in Hslot' as Hlt'.
    split; [done|]. split; [by split|]. split; [done|]. split; [lia|done].
  - destruct (select_layer_set_run d layer_set_index src s_src Hcur Hsrc
                Hnn Hslot) as [anim Hrun].
    rewrite Hrun in Hsound. simpl in Hsound.
    eexists _, (length (stacks d)), anim. split; [exact Hrun|]. simpl.
    split; [done|]. split.
    { split; [done|]. simpl. by apply list_lookup_insert_eq. }
    split; [done|]. split; [|done].
    rewrite length_insert. fold slots'. subst slots' n.
    case_decide; [rewrite length_app; simpl|]; lia.
Qed.

Lemma select_layer_set_domain_witness :
  ∃ d' t, Doc.select_layer_set 1 doc_two_layers = (Ok tt, d', t)
          ∧ current_set_index d' = 1.
Proof.
  destruct (select_layer_set_domain doc_two_layers 1) as [Hin _].
  - split; [apply wf_doc_two_layers|].
    exists 0%nat. apply current_at_doc_two_layers.
  - destruct Hin as (d' & cur & anim & Hrun & Hidx & _); [simpl; lia|].
    eexists d', _. split; [exact Hrun | exact Hidx].
Defined.

(** Switching to a set that exists and back to where one was leaves the
    document exactly as it was: no clone is made, no entry and no cache is
    touched. *)
Theorem select_layer_set_and_back (d : Document) (other : Z) (l : loc) :
  sound d →
  0 ≤ other → _layer_sets d !! Z.to_nat other = Some (Some l) →
  ∃ d1 t1 t2,
    Doc.select_layer_set other d = (Ok tt, d1, t1)
    ∧ current_set_index d1 = other
    ∧ Doc.select_layer_set (current_set_index d) d1 = (Ok tt, d, t2).
Proof.
  intros [Hwf [src [Hci Hcur]]] Hnn Hslot.
  destruct (wf_allocated d _ l Hwf Hslot) as [s Hs].
  destruct (wf_allocated d _ src Hwf Hcur) as [s_src Hsrc].
  eexists _, _, _.
  split; [apply (select_layer_set_existing_trace d other l s Hnn Hslot Hs)|].
  split; [done|].
  rewrite (select_layer_set_existing_trace _ (current_set_index d) src s_src)
    by done.
  simpl. by destruct d.
Qed.

Lemma select_layer_set_and_back_witness :
  ∃ d1 t1 t2,
    Doc.select_layer_set 1 doc_with_composite = (Ok tt, d1, t1)
    ∧ current_set_index d1 = 1
    ∧ Doc.select_layer_set 0 d1 = (Ok tt, doc_with_composite, t2).
Proof.
  apply (select_layer_set_and_back doc_with_composite 1 1%nat).
  - split; [split|].
    + apply (bool_decide_unpack _). by vm_compute.
    + intros l' Hl'. unfold slot_locs in Hl'. simpl in Hl'.
      apply elem_of_cons in Hl' as [->|Hl']; [simpl; lia|].
      apply list_elem_of_singleton in Hl' as ->. simpl. lia.
    + exists 0%nat. split; [simpl; lia | reflexivity].
  - lia.
  - reflexivity.
Defined.

Lemma sound_doc_two_layers : sound doc_two_layers.
Proof.
  split; [apply wf_doc_two_layers|].
  exists 0%nat. apply current_at_doc_two_layers.
Qed.

Lemma sound_doc_with_composite : sound doc_with_composite.
Proof.
  split; [split|].
  - apply (bool_decide_unpack _). by vm_compute.
  - intros l' Hl'. unfold slot_locs in Hl'. simpl in Hl'.
    apply elem_of_cons in Hl' as [->|Hl']; [simpl; lia|].
    apply list_elem_of_singleton in Hl' as ->. simpl. lia.
  - exists 0%nat. split; [simpl; lia | reflexivity].
Qed.

Lemma current_store_sound d :
  sound d →
  ∃ cur s, current_at d cur ∧ stacks d !! cur = Some s
           ∧ current_store d = Some (_store s).
Proof.
  intros [Hwf [cur Hcur]].
  destruct (wf_allocated d _ cur Hwf (proj2 Hcur)) as [s Hs].
  exists cur, s. split; [done|]. split; [done|].
  unfold current_store. destruct Hcur as [Hi Hcur].
  by rewrite (getitem_nonneg _ _ _ Hi Hcur), Hs.
Qed.

(** ** Document.remove_layer_prez: the calls it refuses *)

(** On a sound document, [remove_layer_prez] goes through only when it is
    given an identifier that the current set holds, with [count] 1.  A row
    selector is refused with [ValueError] (the layer set cannot be
    sliced), an identifier with another [count] with [TypeError], an
    identifier the current set does not hold with [KeyError]; and in each
    case the document is exactly as before and nothing was emitted or
    logged. *)
Theorem remove_layer_prez_refusals (d : Document) (count : Z) :
  sound d →
  (∀ row, Doc.remove_layer_prez (Row row) count d = (Raise ValueError, d, []))
  ∧ (∀ u, count ≠ 1 →
       Doc.remove_layer_prez (Uuid u) count d = (Raise TypeError, d, []))
  ∧ (∀ u st, current_store d = Some st → u ∉ uuid <$> st →
       Doc.remove_layer_prez (Uuid u) 1 d = (Raise KeyError, d, [])).
Proof.
  intros Hd. pose proof Hd as [Hwf _].
  destruct (current_store_sound d Hd) as (cur & s & Hcur & Hs & Hst).
  split; [|split].
  - intros row. by apply (remove_layer_prez_row_raises d cur).
  - intros u Hc. by apply (remove_layer_prez_uuid_count_raises d cur).
  - intros u st Hst' Hnot. rewrite Hst in Hst'. injection Hst' as <-.
    apply (remove_layer_prez_uuid_absent d cur s); [done..|].
    destruct (Stack.build_u2r (_store s) !! u) as [r|] eqn:Hr; [|done].
    exfalso. apply Hnot, build_u2r_is_Some. by eexists.
Qed.

Lemma remove_layer_prez_refusals_witness :
  Doc.remove_layer_prez (Row (-1)) 2 doc_two_layers
  = (Raise ValueError, doc_two_layers, []).
Proof.
  exact (proj1 (remove_layer_prez_refusals doc_two_layers 2
                  sound_doc_two_layers) (-1)).
Defined.

(** ** Document.is_using: all sets and one set *)

Lemma is_using_one_run u d i l s :
  PyList.getitem (_layer_sets d) i = Ok (Some l) → stacks d !! l = Some s →
  Doc.is_using u (Some i) d
  = (Ok (stack_has u s), d,
     [Log ERROR "composite layers currently not checked for dependencies"]).
Proof.
  intros Hi Hs. unfold Doc.is_using.
  unfold bind at 1. unfold log at 1. unfold bind at 1. unfold get at 1.
  unfold bind at 1. unfold bind at 1. unfold lift at 1. rewrite Hi.
  unfold ret at 1. rewrite is_using_loop_run.
  - simpl. rewrite Hs. by rewrite orb_false_r.
  - intros ls Hls. apply list_elem_of_singleton in Hls as ->.
    exists l. split; [done|]. by eexists.
Qed.

(** [is_using(uuid)] over all sets is the disjunction of
    [is_using(uuid, layer_set=i)] over the slots: on a well-formed
    document it returns, changes nothing, and answers [True] exactly when
    asking about some single slot answers [True], which is exactly when
    some layer set holds an entry for the identifier.  Each call logs its
    one standing error record. *)
Theorem is_using_any_set (d : Document) (u : UUID) :
  wf d →
  ∃ b,
    Doc.is_using u None d
    = (Ok b, d,
       [Log ERROR "composite layers currently not checked for dependencies"])
    ∧ (b = true ↔ in_use d u)
    ∧ (b = true ↔ ∃ i t, Doc.is_using u (Some i) d = (Ok true, d, t)).
Proof.
  intros Hwf. exists (in_use_b d u).
  split; [by apply is_using_run|]. split; [apply in_use_b_true|].
  rewrite in_use_b_true. split.
  - intros (k & l & Hk & s & Hs & Hu).
    eexists (Z.of_nat k), _.
    rewrite (is_using_one_run u d (Z.of_nat k) l s);
      [|by apply getitem_of_nat|done].
    apply stack_has_true in Hu. by rewrite Hu.
  - intros (i & t & Hrun).
    destruct (PyList.getitem (_layer_sets d) i) as [[l|]|e] eqn:Hi.
    + pose proof Hi as Hi'. apply getitem_Ok in Hi' as (k & _ & Hk).
      destruct (wf_allocated d k l Hwf Hk) as [s Hs].
      rewrite (is_using_one_run u d i l s) in Hrun.
      * injection Hrun as Hb _. exists k, l. split; [done|].
        exists s. split; [done|]. by apply stack_has_true.
      * done.
      * done.
    + revert Hrun. unfold Doc.is_using, bind, log, get, lift. simpl.
      rewrite Hi. simpl. done.
    + revert Hrun. unfold Doc.is_using, bind, log, get, lift. simpl.
      rewrite Hi. simpl. done.
Qed.

Lemma is_using_any_set_witness :
  ∃ b t, Doc.is_using 1%N None doc_with_composite = (Ok b, doc_with_composite, t)
       ∧ (b = true ↔ in_use doc_with_composite 1%N).
Proof.
  destruct (is_using_any_set doc_with_composite 1%N) as (b & Hrun & Hb & _).
  - apply sound_doc_with_composite.
  - eexists b, _. split; [exact Hrun | exact Hb].
Defined.

(** ** The queries on the current set *)

Lemma current_entry_int_run d cur s i :
  current_at d cur → stacks d !! cur = Some s →
  Doc.current_entry (KInt i) d
  = (match PyList.getitem (_store s) i with
     | Ok p => Ok p
     | Raise e => Raise e
     end, d, []).
Proof.
  intros Hcur Hs. unfold Doc.current_entry.
  unfold bind at 1. rewrite (current_layer_set_run d cur Hcur).
  unfold bind at 1. simpl Doc.as_stack. unfold ret at 1.
  unfold bind at 1.
  rewrite (on_stack_read cur _ d s
             (match PyList.getitem (_store s) i with
              | Ok p => Ok (VPrez p)
              | Raise e => Raise e
              end) []); [|done|].
  - by destruct (PyList.getitem (_store s) i).
  - unfold Stack.__getitem__, bind, Stack.store, lift. simpl.
    by destruct (PyList.getitem (_store s) i).
Qed.

Lemma current_store_read {A} (f : list prez → A) d cur s :
  current_at d cur → stacks d !! cur = Some s →
  (cur <- Doc.current_layer_set ;;
   cur <- Doc.as_stack cur TypeError ;;
   st <- Doc.on_stack cur Stack.store ;;
   ret (f st)) d
  = (Ok (f (_store s)), d, []).
Proof.
  intros Hcur Hs.
  unfold bind at 1. rewrite (current_layer_set_run d cur Hcur).
  unfold bind at 1. simpl Doc.as_stack. unfold ret at 1.
  unfold bind at 1.
  by rewrite (on_stack_read cur Stack.store d s (Ok (_store s)) []).
Qed.

(** The queries on the current set of a sound document read one store,
    [st], and change nothing.  [len(doc)] is its length and
    [current_layer_uuid_order] its identifiers, top to bottom.  For an
    [int] row, [is_layer_visible], [layer_animation_order] and
    [uuid_for_current_layer] give the fields of the entry that [st[row]]
    gives, so a negative row counts from the bottom, and they raise what
    [st[row]] raises.  [current_visible_layer_uuid] gives the identifier
    of the first visible entry from the top, and [None] when no entry is
    visible. *)
Theorem current_queries_agree (d : Document) :
  sound d →
  ∃ st,
    current_store d = Some st
    ∧ Doc.__len__ d = (Ok (Z.of_nat (length st)), d, [])
    ∧ Doc.current_layer_uuid_order d = (Ok (uuid <$> st), d, [])
    ∧ (∀ row p, PyList.getitem st row = Ok p →
         Doc.is_layer_visible (KInt row) d = (Ok (visible p), d, [])
         ∧ Doc.layer_animation_order (KInt row) d = (Ok (a_order p), d, [])
         ∧ Doc.uuid_for_current_layer (KInt row) d = (Ok (uuid p), d, []))
    ∧ (∀ row e, PyList.getitem st row = Raise e →
         Doc.is_layer_visible (KInt row) d = (Raise e, d, [])
         ∧ Doc.layer_animation_order (KInt row) d = (Raise e, d, [])
         ∧ Doc.uuid_for_current_layer (KInt row) d = (Raise e, d, []))
    ∧ ∃ top,
        Doc.current_visible_layer_uuid d = (Ok top, d, [])
        ∧ match top with
          | Some u =>
              ∃ i p, st !! i = Some p ∧ visible p = true ∧ uuid p = u
                     ∧ ∀ j q, (j < i)%nat → st !! j = Some q →
                         visible q = false
          | None => ∀ p, p ∈ st → visible p = false
          end.
Proof.
  intros Hd.
  destruct (current_store_sound d Hd) as (cur & s & Hcur & Hs & Hst).
  exists (_store s). split; [done|]. split.
  { unfold Doc.__len__.
    unfold bind at 1. rewrite (current_layer_set_run d cur Hcur).
    unfold bind at 1. simpl Doc.as_stack. unfold ret at 1.
    by rewrite (on_stack_read cur Stack.__len__ d s
                  (Ok (Z.of_nat (length (_store s)))) []). }
  split; [apply (current_store_read (fmap uuid) d cur s Hcur Hs)|].
  split.
  { intros row p Hp.
    unfold Doc.is_layer_visible, Doc.layer_animation_order,
      Doc.uuid_for_current_layer, bind.
    by rewrite (current_entry_int_run d cur s row Hcur Hs), Hp. }
  split.
  { intros row e He.
    unfold Doc.is_layer_visible, Doc.layer_animation_order,
      Doc.uuid_for_current_layer, bind.
    by rewrite (current_entry_int_run d cur s row Hcur Hs), He. }
  eexists. split.
  { apply (current_store_read
             (λ st, (λ ix : nat * prez, uuid ix.2)
                    <$> list_find (λ x, visible x = true) st) d cur s Hcur Hs). }
  destruct (list_find _ (_store s)) as [[i p]|] eqn:Hf; simpl.
  - apply list_find_Some in Hf as (Hi & Hv & Hbefore).
    exists i, p. split; [done|]. split; [done|]. split; [done|].
    intros j q Hlt Hq. specialize (Hbefore j q Hq Hlt).
    by destruct (visible q).
  - rewrite list_find_None, Forall_forall in Hf. intros p Hp.
    specialize (Hf p Hp). by destruct (visible p).
Qed.

Lemma current_queries_agree_witness :
  Doc.__len__ doc_with_composite = (Ok 2, doc_with_composite, []).
Proof.
  destruct (current_queries_agree doc_with_composite sound_doc_with_composite)
    as (st & Hst & Hlen & _).
  injection Hst as <-. exact Hlen.
Defined.

(** [row_for_uuid] and [uuid_for_current_layer] undo one another.  The
    row that [row_for_uuid] finds for an identifier carries that
    identifier; and when no identifier occurs twice in the current set,
    the identifier found at a row of the set leads back to that row.
    Neither changes the document.  For an identifier the set does not
    hold, [row_for_uuid] raises [KeyError]. *)
Theorem row_and_uuid_round_trip (d : Document) (st : list prez) :
  sound d → current_store d = Some st →
  (∀ u, u ∈ uuid <$> st →
     ∃ r : nat,
       Doc.row_for_uuid u d = (Ok r, d, [])
       ∧ Doc.uuid_for_current_layer (KInt (Z.of_nat r)) d = (Ok u, d, []))
  ∧ (∀ u, u ∉ uuid <$> st → Doc.row_for_uuid u d = (Raise KeyError, d, []))
  ∧ (NoDup (uuid <$> st) →
     ∀ (r : nat) p, st !! r = Some p →
       Doc.uuid_for_current_layer (KInt (Z.of_nat r)) d = (Ok (uuid p), d, [])
       ∧ Doc.row_for_uuid (uuid p) d = (Ok r, d, [])).
Proof.
  intros Hd Hst'.
  destruct (current_store_sound d Hd) as (cur & s & Hcur & Hs & Hst).
  rewrite Hst in Hst'. injection Hst' as <-.
  assert (∀ (r : nat) p, _store s !! r = Some p →
            Doc.uuid_for_current_layer (KInt (Z.of_nat r)) d
            = (Ok (uuid p), d, [])) as Huuid.
  { intros r p Hp. unfold Doc.uuid_for_current_layer, bind.
    rewrite (current_entry_int_run d cur s _ Hcur Hs).
    by rewrite (getitem_of_nat _ r p). }
  split; [|split].
  - intros u Hu. apply build_u2r_is_Some in Hu as [r Hr].
    exists r. rewrite (row_for_uuid_run u d cur s Hcur Hs), Hr.
    split; [done|].
    apply build_u2r_lookup in Hr as [Hat _].
    apply fmap_Some in Hat as (p & Hp & ->). by apply Huuid.
  - intros u Hu. rewrite (row_for_uuid_run u d cur s Hcur Hs).
    destruct (Stack.build_u2r (_store s) !! u) as [r|] eqn:Hr; [|done].
    exfalso. apply Hu, build_u2r_is_Some. by eexists.
  - intros Hnd r p Hp. split; [by apply Huuid|].
    rewrite (row_for_uuid_run (uuid p) d cur s Hcur Hs).
    assert (Stack.build_u2r (_store s) !! uuid p = Some r) as ->; [|done].
    apply build_u2r_lookup, last_row_NoDup; [done|]. by rewrite Hp.
Qed.

Lemma row_and_uuid_round_trip_witness :
  ∃ r : nat,
    Doc.row_for_uuid 1%N doc_with_composite = (Ok r, doc_with_composite, [])
    ∧ Doc.uuid_for_current_layer (KInt (Z.of_nat r)) doc_with_composite
      = (Ok 1%N, doc_with_composite, []).
Proof.
  apply (proj1 (row_and_uuid_round_trip doc_with_composite _
                  sound_doc_with_composite eq_refl)).
  simpl. right. left.
Defined.

(** ** Document.toggle_layer_visibility *)

Lemma bind_run {S A B} (m : M S A) (k : A → M S B) s a s1 :
  m s = (Ok a, s1, []) → bind m k s = k a s1.
Proof.
  intros Hm. unfold bind. rewrite Hm. by destruct (k a s1) as [[r s2] t2].
Qed.

Lemma toggle_layer_visibility_unfold rows v d :
  Doc.toggle_layer_visibility rows v d
  = (L <- Doc.current_layer_set ;;
     zult <- fold_each rows ∅ (toggle_layer_visibility_step L v) ;;
     Doc.emit (didChangeLayerVisibility zult)) d.
Proof. reflexivity. Qed.

Lemma Stack_index_run u s :
  cache_ok s →
  ∃ s', Stack.index u s = (Ok (Stack.build_u2r (_store s) !! u), s', [])
        ∧ _store s' = _store s
        ∧ _u2r s' = Some (Stack.build_u2r (_store s)).
Proof.
  intros Hc. destruct (uuid2row_ok s Hc) as (s' & Hrun & Hst & Hu).
  exists s'. split; [|done]. unfold Stack.index, bind. by rewrite Hrun.
Qed.

Lemma on_stack_getitem_row d cur s (r : nat) p :
  stacks d !! cur = Some s → _store s !! r = Some p →
  Doc.on_stack cur (Stack.__getitem__ (KInt (Z.of_nat r))) d
  = (Ok (VPrez p), d, []).
Proof.
  intros Hs Hp. apply (on_stack_read cur _ d s); [done|].
  unfold Stack.__getitem__, bind, Stack.store, lift. simpl.
  by rewrite (getitem_of_nat _ r p).
Qed.

Lemma on_stack_setitem_row d cur s (r : nat) value :
  stacks d !! cur = Some s → (r < length (_store s))%nat →
  Doc.on_stack cur (Stack.__setitem__ (Z.of_nat r) value) d
  = (Ok tt,
     with_stacks d (<[cur := MkStack (<[r := value]> (_store s)) None]>
                      (stacks d)), []).
Proof.
  intros Hs Hr. rewrite (on_stack_run cur _ d s Hs), Stack_setitem_run.
  rewrite decide_True by lia. simpl. by rewrite Nat2Z.id.
Qed.

Lemma with_stacks_insert_insert d (cur : loc) s1 s2 :
  with_stacks (with_stacks d (<[cur := s1]> (stacks d)))
    (<[cur := s2]> (stacks (with_stacks d (<[cur := s1]> (stacks d)))))
  = with_stacks d (<[cur := s2]> (stacks d)).
Proof. unfold with_stacks. simpl. by rewrite list_insert_insert_eq. Qed.

Lemma with_stacks_id d (cur : loc) s :
  stacks d !! cur = Some s → with_stacks d (<[cur := s]> (stacks d)) = d.
Proof.
  intros Hs. unfold with_stacks. rewrite list_insert_id by done.
  by destruct d.
Qed.

Lemma selector_row_Some st sel r :
  selector_row st sel = Some r → is_Some (st !! r).
Proof.
  destruct sel as [i|u]; simpl.
  - case_decide; [|done]. intros [= <-]. apply lookup_lt_is_Some. lia.
  - intros Hr. apply build_u2r_lookup in Hr as [Hat _].
    apply fmap_Some in Hat as (p & Hp & _). by eexists.
Qed.

Lemma selector_row_uuids st1 st2 sel :
  uuid <$> st1 = uuid <$> st2 → selector_row st1 sel = selector_row st2 sel.
Proof.
  intros Heq. destruct sel as [i|u]; simpl.
  - assert (length st1 = length st2) as ->; [|done].
    by rewrite <- (length_fmap uuid st1), Heq, length_fmap.
  - by rewrite (build_u2r_uuids st1 st2).
Qed.

Lemma new_visibility_uuids v (st : list prez) (r : nat) p :
  st !! r = Some p →
  uuid <$> <[r := new_visibility v p]> st = uuid <$> st.
Proof.
  intros Hp. rewrite list_fmap_insert. simpl.
  apply list_insert_id. by rewrite list_lookup_fmap, Hp.
Qed.

(** One round of the loop on a selector that stands for row [r]. *)
Lemma toggle_step_run v zult sel d cur s r p :
  current_at d cur → stacks d !! cur = Some s → cache_ok s →
  selector_row (_store s) sel = Some r → _store s !! r = Some p →
  toggle_layer_visibility_step (Some cur) v zult sel d
  = (Ok (<[uuid p := visible (new_visibility v p)]> zult),
     with_stacks d
       (<[cur := MkStack (<[r := new_visibility v p]> (_store s)) None]>
          (stacks d)), []).
Proof.
  intros Hcur Hs Hc Hsel Hp. apply lookup_lt_Some in Hp as Hlt.
  apply lookup_lt_Some in Hs as Hcurlt.
  unfold toggle_layer_visibility_step. destruct sel as [i|u]; simpl in Hsel.
  - case_decide as Hi; [|done]. injection Hsel as <-.
    replace i with (Z.of_nat (Z.to_nat i)) by lia.
    rewrite (bind_run _ _ d (KInt (Z.of_nat (Z.to_nat i))) d) by done.
    rewrite (bind_run _ _ d cur d) by done.
    rewrite (bind_run _ _ d (VPrez p) d)
      by (by apply (on_stack_getitem_row d cur s)).
    fold (new_visibility v p).
    rewrite (bind_run _ _ d tt _ (on_stack_setitem_row d cur s _ _ Hs Hlt)).
    unfold ret. by rewrite Nat2Z.id.
  - destruct (Stack_index_run u s Hc) as (s1 & Hidx & Hst1 & Hu1).
    rewrite Hsel in Hidx.
    set (d1 := with_stacks d (<[cur := s1]> (stacks d))).
    assert (stacks d1 !! cur = Some s1) as Hs1
      by (simpl; by apply list_lookup_insert_eq).
    rewrite (bind_run _ _ d (KInt (Z.of_nat r)) d1).
    2:{ rewrite (bind_run _ _ d cur d) by done.
        rewrite (bind_run _ _ d (Some r) d1); [done|].
        by rewrite (on_stack_run cur _ d s Hs), Hidx. }
    rewrite (bind_run _ _ d1 cur d1) by done.
    rewrite (bind_run _ _ d1 (VPrez p) d1)
      by (apply (on_stack_getitem_row d1 cur s1); [done|by rewrite Hst1]).
    fold (new_visibility v p).
    rewrite (bind_run _ _ d1 tt _
               (on_stack_setitem_row d1 cur s1 _ _ Hs1
                  ltac:(by rewrite Hst1))).
    unfold ret. rewrite Hst1. subst d1.
    by rewrite with_stacks_insert_insert.
Qed.

Lemma visibility_pass_cons (r : nat) v rvs (st : list prez) zult p :
  st !! r = Some p →
  visibility_pass ((r, v) :: rvs) st zult
  = visibility_pass rvs (<[r := new_visibility v p]> st)
      (<[uuid p := visible (new_visibility v p)]> zult).
Proof. intros Hp. unfold visibility_pass. simpl. by rewrite Hp. Qed.

(** The loop on selectors that all stand for rows. *)
Lemma toggle_fold_run v cur : ∀ rows rs d s zult,
  current_at d cur → stacks d !! cur = Some s → cache_ok s →
  Forall2 (λ sel r, selector_row (_store s) sel = Some r) rows rs →
  ∃ s',
    fold_each rows zult (toggle_layer_visibility_step (Some cur) v) d
    = (Ok (visibility_pass ((λ r, (r, v)) <$> rs) (_store s) zult).2,
       with_stacks d (<[cur := s']> (stacks d)), [])
    ∧ _store s'
      = (visibility_pass ((λ r, (r, v)) <$> rs) (_store s) zult).1
    ∧ cache_ok s'.
Proof.
  induction rows as [|sel rows IH]; intros rs d s zult Hcur Hs Hc HF.
  - apply Forall2_nil_inv_l in HF as ->. exists s.
    by rewrite (with_stacks_id d cur s Hs).
  - apply Forall2_cons_inv_l in HF as (r & rs' & Hsel & HF & ->).
    destruct (selector_row_Some _ _ _ Hsel) as [p Hp].
    apply lookup_lt_Some in Hs as Hcurlt.
    simpl fold_each.
    rewrite (bind_run _ _ d _ _
               (toggle_step_run v zult sel d cur s r p Hcur Hs Hc Hsel Hp)).
    set (s1 := MkStack (<[r := new_visibility v p]> (_store s)) None).
    set (d1 := with_stacks d (<[cur := s1]> (stacks d))).
    destruct (IH rs' d1 s1 (<[uuid p := visible (new_visibility v p)]> zult))
      as (s' & Hrun & Hst & Hc').
    + done.
    + simpl. by apply list_lookup_insert_eq.
    + apply cache_ok_None.
    + eapply Forall2_impl; [exact HF|]. intros sel' r' Hsel'. simpl.
      by rewrite (selector_row_uuids _ (_store s))
        by by apply new_visibility_uuids.
    + exists s'. rewrite Hrun. subst d1.
      rewrite with_stacks_insert_insert. simpl fmap.
      rewrite (visibility_pass_cons r v _ _ _ p Hp). done.
Qed.

Lemma visibility_pass_skip (r : nat) v rvs (st : list prez) zult :
  st !! r = None →
  visibility_pass ((r, v) :: rvs) st zult = visibility_pass rvs st zult.
Proof. intros Hp. unfold visibility_pass. simpl. by rewrite Hp. Qed.

Lemma visibility_pass_snoc rvs (r : nat) v (st : list prez) zult :
  visibility_pass (rvs ++ [(r, v)]) st zult
  = match (visibility_pass rvs st zult).1 !! r with
    | Some p =>
        (<[r := new_visibility v p]> (visibility_pass rvs st zult).1,
         <[uuid p := visible (new_visibility v p)]>
           (visibility_pass rvs st zult).2)
    | None => visibility_pass rvs st zult
    end.
Proof. unfold visibility_pass. by rewrite foldl_app. Qed.

Lemma visibility_pass_uuids rvs st zult :
  uuid <$> (visibility_pass rvs st zult).1 = uuid <$> st.
Proof.
  induction rvs as [|[r v] rvs IH] using rev_ind; [done|].
  rewrite visibility_pass_snoc.
  destruct ((visibility_pass rvs st zult).1 !! r) as [p|] eqn:Hp; [|done].
  simpl. by rewrite new_visibility_uuids.
Qed.

(** What a pass does to one row: the visibilities asked of that row are
    applied in turn. *)
Lemma visibility_pass_row rvs : ∀ (st : list prez) zult (i : nat) p,
  st !! i = Some p →
  (visibility_pass rvs st zult).1 !! i
  = Some (foldl (λ q rv, if decide (rv.1 = i) then new_visibility rv.2 q
                         else q) p rvs).
Proof.
  induction rvs as [|[r v] rvs IH]; intros st zult i p Hp; [done|].
  destruct (st !! r) as [q|] eqn:Hq.
  - rewrite (visibility_pass_cons r v rvs st zult q Hq). simpl.
    case_decide as Hri.
    + subst r. assert (q = p) as -> by congruence.
      apply IH. apply list_lookup_insert_eq. by eapply lookup_lt_Some.
    + apply IH. by rewrite list_lookup_insert_ne.
  - rewrite (visibility_pass_skip r v rvs st zult Hq). simpl.
    rewrite decide_False by congruence. by apply IH.
Qed.

Lemma visibility_pass_row_None rvs (st : list prez) zult (i : nat) :
  st !! i = None → (visibility_pass rvs st zult).1 !! i = None.
Proof.
  intros Hi. apply lookup_ge_None. apply lookup_ge_None in Hi.
  by rewrite <- (length_fmap uuid), visibility_pass_uuids, length_fmap.
Qed.

(** The rows [rs], each asked for the same visibility [v]. *)
Local Abbreviation uniform v rs := ((λ r : nat, (r, v)) <$> rs).

Local Abbreviation row_pass i :=
  (foldl (λ (q : prez) (rv : nat * option bool),
            if decide (rv.1 = i) then new_visibility rv.2 q else q)).

Lemma row_pass_untouched v (i : nat) rs : ∀ p,
  i ∉ rs → row_pass i p (uniform v rs) = p.
Proof.
  induction rs as [|r rs IH]; intros p Hi; [done|]. simpl.
  rewrite decide_False by set_solver. apply IH. set_solver.
Qed.

Lemma row_pass_replace v (i : nat) rs : ∀ p,
  ∃ x, row_pass i p (uniform v rs) = replace_visible p x.
Proof.
  induction rs as [|r rs IH]; intros p.
  - exists (visible p). by destruct p.
  - cbn [fmap list_fmap foldl]. case_decide; [|apply IH].
    destruct (IH (new_visibility v p)) as [x Hx]. exists x.
    cbn [fst snd]. by rewrite Hx.
Qed.

Lemma row_pass_only_visible v (i : nat) rs p :
  replace_visible (row_pass i p (uniform v rs)) (visible p) = p.
Proof.
  destruct (row_pass_replace v i rs p) as [x ->]. by destruct p.
Qed.

Lemma row_pass_forced b (i : nat) rs : ∀ p,
  i ∈ rs → visible (row_pass i p (uniform (Some b) rs)) = b.
Proof.
  induction rs as [|r rs IH]; intros p Hi; [by apply elem_of_nil in Hi|].
  simpl. destruct (decide (i ∈ rs)) as [Hin|Hnot]; [by apply IH|].
  apply elem_of_cons in Hi as [->|Hi]; [|done].
  rewrite decide_True by done. by rewrite row_pass_untouched.
Qed.

Lemma row_pass_flipped (i : nat) rs : ∀ p,
  NoDup rs → i ∈ rs →
  visible (row_pass i p (uniform None rs)) = negb (visible p).
Proof.
  induction rs as [|r rs IH]; intros p Hnd Hi; [by apply elem_of_nil in Hi|].
  apply NoDup_cons in Hnd as [Hr Hnd]. simpl.
  apply elem_of_cons in Hi as [->|Hi].
  - rewrite decide_True by done. by rewrite row_pass_untouched.
  - rewrite decide_False by (intros ->; done). by apply IH.
Qed.

Lemma row_pass_commute v (i : nat) rs : ∀ p,
  row_pass i (new_visibility v p) (uniform v rs)
  = new_visibility v (row_pass i p (uniform v rs)).
Proof.
  induction rs as [|r rs IH]; intros p; [done|].
  cbn [fmap list_fmap foldl fst snd]. case_decide; apply IH.
Qed.

Lemma new_visibility_None_twice p :
  new_visibility None (new_visibility None p) = p.
Proof. destruct p. unfold new_visibility. simpl. by rewrite negb_involutive. Qed.

Lemma new_visibility_Some_twice b p :
  new_visibility (Some b) (new_visibility (Some b) p)
  = new_visibility (Some b) p.
Proof. done. Qed.

Lemma row_pass_twice_None (i : nat) rs : ∀ p,
  row_pass i (row_pass i p (uniform None rs)) (uniform None rs) = p.
Proof.
  induction rs as [|r rs IH]; intros p; [done|].
  cbn [fmap list_fmap foldl fst snd]. case_decide; [|apply IH].
  rewrite (row_pass_commute None i rs p), new_visibility_None_twice.
  apply IH.
Qed.

Lemma row_pass_twice_Some b (i : nat) rs : ∀ p,
  row_pass i (row_pass i p (uniform (Some b) rs)) (uniform (Some b) rs)
  = row_pass i p (uniform (Some b) rs).
Proof.
  induction rs as [|r rs IH]; intros p; [done|].
  cbn [fmap list_fmap foldl fst snd]. case_decide; [|apply IH].
  rewrite (row_pass_commute (Some b) i rs p), new_visibility_Some_twice.
  by rewrite row_pass_commute, IH.
Qed.

(** The report of a pass over a store with no identifier twice: it maps
    the identifiers of the rows written, and no others, to the visibility
    those rows have at the end. *)
Lemma visibility_pass_report rvs (st : list prez) :
  NoDup (uuid <$> st) →
  ∀ u b,
    (visibility_pass rvs st ∅).2 !! u = Some b ↔
    ∃ (i : nat) p', i ∈ rvs.*1 ∧ (visibility_pass rvs st ∅).1 !! i = Some p'
                    ∧ uuid p' = u ∧ visible p' = b.
Proof.
  intros Hnd. induction rvs as [|[r v] rvs IH] using rev_ind; intros u b.
  { simpl. rewrite lookup_empty. split; [done|].
    intros (i & p' & Hi & _). by apply elem_of_nil in Hi. }
  rewrite visibility_pass_snoc, fmap_app. simpl.
  pose proof (visibility_pass_uuids rvs st ∅) as Huu.
  destruct (visibility_pass rvs st ∅) as [stk zk]. simpl in *.
  assert (NoDup (uuid <$> stk)) as Hndk by by rewrite Huu.
  assert (∀ (i j : nat) x y, stk !! i = Some x → stk !! j = Some y →
            uuid x = uuid y → i = j) as Hinj.
  { intros i j x y Hx Hy Hxy.
    apply (NoDup_lookup _ _ _ (uuid x) Hndk);
      rewrite list_lookup_fmap; [by rewrite Hx|by rewrite Hy, Hxy]. }
  destruct (stk !! r) as [q|] eqn:Hq; simpl.
  - destruct (decide (u = uuid q)) as [->|Hne].
    + rewrite lookup_insert_eq. split.
      * intros [= <-]. exists r, (new_visibility v q).
        split; [apply elem_of_app; right; by apply list_elem_of_singleton|].
        split; [|done].
        apply list_lookup_insert_eq. by eapply lookup_lt_Some.
      * intros (i & p' & _ & Hi & Hu & Hb).
        destruct (decide (i = r)) as [->|Hir].
        -- rewrite list_lookup_insert_eq in Hi by by eapply lookup_lt_Some.
           injection Hi as <-. by rewrite <- Hb.
        -- rewrite list_lookup_insert_ne in Hi by done.
           by specialize (Hinj i r p' q Hi Hq Hu).
    + rewrite lookup_insert_ne by done. rewrite IH. split.
      * intros (i & p' & Hin & Hi & Hu & Hb). exists i, p'.
        split; [apply elem_of_app; by left|]. split; [|done].
        rewrite list_lookup_insert_ne; [done|]. intros <-.
        rewrite Hq in Hi. injection Hi as <-. done.
      * intros (i & p' & Hin & Hi & Hu & Hb).
        destruct (decide (i = r)) as [->|Hir].
        { rewrite list_lookup_insert_eq in Hi by by eapply lookup_lt_Some.
          injection Hi as <-. done. }
        rewrite list_lookup_insert_ne in Hi by done.
        exists i, p'. split; [|done].
        apply elem_of_app in Hin as [Hin|Hin]; [done|].
        by apply list_elem_of_singleton in Hin.
  - rewrite IH. split.
    + intros (i & p' & Hin & Hi & Hu & Hb). exists i, p'.
      split; [apply elem_of_app; by left|done].
    + intros (i & p' & Hin & Hi & Hu & Hb). exists i, p'.
      split; [|done].
      apply elem_of_app in Hin as [Hin|Hin]; [done|].
      apply list_elem_of_singleton in Hin as ->. congruence.
Qed.

(** What the call does when every selector stands for a row of the
    current set: the loop and then the one signal. *)
Lemma toggle_layer_visibility_run v rows rs d cur s :
  current_at d cur → stacks d !! cur = Some s → cache_ok s →
  Forall2 (λ sel r, selector_row (_store s) sel = Some r) rows rs →
  ∃ s',
    let d' := with_stacks d (<[cur := s']> (stacks d)) in
    Doc.toggle_layer_visibility rows v d
    = (Ok tt, d',
       [Emit (didChangeLayerVisibility
                (visibility_pass (uniform v rs) (_store s) ∅).2) d'])
    ∧ _store s' = (visibility_pass (uniform v rs) (_store s) ∅).1
    ∧ cache_ok s'.
Proof.
  intros Hcur Hs Hc HF.
  destruct (toggle_fold_run v cur rows rs d s ∅ Hcur Hs Hc HF)
    as (s' & Hrun & Hst & Hc').
  exists s'. split; [|done].
  rewrite toggle_layer_visibility_unfold.
  rewrite (bind_run _ _ d _ _ (current_layer_set_run d cur Hcur)).
  by rewrite (bind_run _ _ d _ _ Hrun).
Qed.

(** [toggle_layer_visibility] on selectors that all stand for rows of the
    current set, a set with a sound cache and no identifier twice.  The
    call returns.  Only the current stack object changes, and in it only
    the [visible] field of the rows selected: a row not selected keeps its
    entry, a selected row has the visibility given, or, when none was
    given and no row was selected twice, the opposite of what it had.
    One signal is emitted, after the last write, and its payload maps the
    identifier of each selected row, and nothing else, to the visibility
    that row has at the end. *)
Theorem toggle_layer_visibility_effect (d : Document) (cur : loc)
    (s : DocLayerStack) (rows : list RowOrUUID) (rs : list nat)
    (v : option bool) :
  current_at d cur → stacks d !! cur = Some s → cache_ok s →
  NoDup (uuid <$> _store s) →
  Forall2 (λ sel r, selector_row (_store s) sel = Some r) rows rs →
  ∃ s' zult,
    Doc.toggle_layer_visibility rows v d
    = (Ok tt, with_stacks d (<[cur := s']> (stacks d)),
       [Emit (didChangeLayerVisibility zult)
             (with_stacks d (<[cur := s']> (stacks d)))])
    ∧ length (_store s') = length (_store s)
    ∧ (∀ (i : nat) p, _store s !! i = Some p →
         ∃ p', _store s' !! i = Some p'
               ∧ replace_visible p' (visible p) = p
               ∧ (i ∉ rs → p' = p)
               ∧ (i ∈ rs → ∀ b, v = Some b → visible p' = b)
               ∧ (i ∈ rs → v = None → NoDup rs →
                  visible p' = negb (visible p)))
    ∧ (∀ u b, zult !! u = Some b ↔
              ∃ (i : nat) p', i ∈ rs ∧ _store s' !! i = Some p'
                              ∧ uuid p' = u ∧ visible p' = b).
Proof.
  intros Hcur Hs Hc Hnd HF.
  destruct (toggle_layer_visibility_run v rows rs d cur s Hcur Hs Hc HF)
    as (s' & Hrun & Hst & _).
  eexists s', _. split; [exact Hrun|]. split; [|split].
  - rewrite Hst, <- (length_fmap uuid), visibility_pass_uuids.
    apply length_fmap.
  - intros i p Hp. eexists. rewrite Hst.
    split; [by apply visibility_pass_row|].
    split; [apply row_pass_only_visible|].
    split; [apply row_pass_untouched|]. split.
    + intros Hi b ->. by apply row_pass_forced.
    + intros Hi -> Hrs. by apply row_pass_flipped.
  - intros u b. rewrite (visibility_pass_report _ _ Hnd), Hst.
    assert ((uniform v rs).*1 = rs) as ->; [|done].
    clear. induction rs as [|r rs IH]; simpl; [done|]. by f_equal.
Qed.

Lemma toggle_layer_visibility_effect_witness :
  ∃ s' zult,
    Doc.toggle_layer_visibility [Row 0; Uuid 2%N] None doc_two_layers
    = (Ok tt, with_stacks doc_two_layers [s'],
       [Emit (didChangeLayerVisibility zult)
             (with_stacks doc_two_layers [s'])])
    ∧ length (_store s') = 2%nat.
Proof.
  destruct (toggle_layer_visibility_effect doc_two_layers 0%nat
              (MkStack [pz 1 true None; pz 2 true None] None)
              [Row 0; Uuid 2%N] [0%nat; 1%nat] None)
    as (s' & zult & Hrun & Hlen & _).
  - apply current_at_doc_two_layers.
  - reflexivity.
  - apply cache_ok_None.
  - apply (bool_decide_unpack _). by vm_compute.
  - repeat constructor.
  - exists s', zult. split; [exact Hrun | exact Hlen].
Defined.

(** Calling [toggle_layer_visibility] twice with the same selectors.  With
    no visibility given, the second call undoes the first, however often a
    row was selected: every entry of the current set is as it was.  With a
    visibility given, the second call changes no entry.  (The cache of the
    current set has been dropped either way.) *)
Theorem toggle_layer_visibility_twice (d : Document) (cur : loc)
    (s : DocLayerStack) (rows : list RowOrUUID) (rs : list nat)
    (v : option bool) :
  current_at d cur → stacks d !! cur = Some s → cache_ok s →
  Forall2 (λ sel r, selector_row (_store s) sel = Some r) rows rs →
  ∃ d1 t1 d2 t2 s1 s2,
    Doc.toggle_layer_visibility rows v d = (Ok tt, d1, t1)
    ∧ Doc.toggle_layer_visibility rows v d1 = (Ok tt, d2, t2)
    ∧ stacks d1 !! cur = Some s1 ∧ stacks d2 !! cur = Some s2
    ∧ _store s2 = match v with
                  | None => _store s
                  | Some _ => _store s1
                  end.
Proof.
  intros Hcur Hs Hc HF. apply lookup_lt_Some in Hs as Hlt.
  destruct (toggle_layer_visibility_run v rows rs d cur s Hcur Hs Hc HF)
    as (s1 & Hrun1 & Hst1 & Hc1).
  set (d1 := with_stacks d (<[cur := s1]> (stacks d))) in *.
  assert (stacks d1 !! cur = Some s1) as Hs1
    by (simpl; by apply list_lookup_insert_eq).
  assert (uuid <$> _store s1 = uuid <$> _store s) as Huu
    by (rewrite Hst1; apply visibility_pass_uuids).
  destruct (toggle_layer_visibility_run v rows rs d1 cur s1) as
    (s2 & Hrun2 & Hst2 & Hc2); [done..| |].
  { eapply Forall2_impl; [exact HF|]. intros sel r Hsel. simpl.
    by rewrite (selector_row_uuids _ (_store s)). }
  eexists _, _, _, _, s1, s2.
  split; [exact Hrun1|]. split; [exact Hrun2|]. split; [done|].
  split. { simpl. apply list_lookup_insert_eq. by rewrite length_insert. }
  rewrite Hst2, Hst1.
  assert (∀ i : nat,
    (visibility_pass (uniform v rs)
       (visibility_pass (uniform v rs) (_store s) ∅).1 ∅).1 !! i
    = match v with
      | None => _store s
      | Some _ => (visibility_pass (uniform v rs) (_store s) ∅).1
      end !! i) as Hrows; [|destruct v; by apply list_eq].
  intros i. destruct (_store s !! i) as [p|] eqn:Hp.
  - rewrite (visibility_pass_row _ _ _ i _
               (visibility_pass_row _ _ ∅ i p Hp)).
    destruct v as [b|].
    + rewrite (visibility_pass_row _ _ ∅ i p Hp). f_equal.
      apply row_pass_twice_Some.
    + rewrite Hp. f_equal. apply row_pass_twice_None.
  - rewrite !visibility_pass_row_None; try done.
    + destruct v; [|done]. by rewrite visibility_pass_row_None.
    + by apply visibility_pass_row_None.
Qed.

Lemma toggle_layer_visibility_twice_witness :
  ∃ d1 t1 d2 t2 s1 s2,
    Doc.toggle_layer_visibility [Row 0; Row 0; Uuid 2%N] None doc_two_layers
    = (Ok tt, d1, t1)
    ∧ Doc.toggle_layer_visibility [Row 0; Row 0; Uuid 2%N] None d1
      = (Ok tt, d2, t2)
    ∧ stacks d1 !! 0%nat = Some s1 ∧ stacks d2 !! 0%nat = Some s2
    ∧ _store s2 = [pz 1 true None; pz 2 true None].
Proof.
  apply (toggle_layer_visibility_twice doc_two_layers 0%nat
           (MkStack [pz 1 true None; pz 2 true None] None)
           [Row 0; Row 0; Uuid 2%N] [0%nat; 0%nat; 1%nat] None).
  - apply current_at_doc_two_layers.
  - reflexivity.
  - apply cache_ok_None.
  - repeat constructor.
Defined.

Lemma fold_each_app {S A B} (xs ys : list A) (acc : B)
    (body : B → A → M S B) s :
  fold_each (xs ++ ys) acc body s
  = (acc' <- fold_each xs acc body ;; fold_each ys acc' body) s.
Proof.
  revert acc s. induction xs as [|x xs IH]; intros acc s; simpl.
  - unfold bind, ret. by destruct (fold_each ys acc body s) as [[r s'] t].
  - rewrite bind_assoc. unfold bind at 1 2.
    destruct (body acc x s) as [[[b|e] s1] t1]; [|done].
    by rewrite IH.
Qed.

Lemma getitem_raises {A} (l : list A) i e :
  PyList.getitem l i = Raise e → e = IndexError.
Proof.
  unfold PyList.getitem. destruct (PyList.norm_index l i) as [k|];
    [destruct (l !! k)|]; congruence.
Qed.

(** One round of the loop on a selector that stands for no row the loop
    can write to. *)
Lemma toggle_step_fails v zult sel d cur s :
  current_at d cur → stacks d !! cur = Some s → cache_ok s →
  selector_row (_store s) sel = None →
  ∃ s',
    toggle_layer_visibility_step (Some cur) v zult sel d
    = (Raise (match sel with Row _ => IndexError | Uuid _ => ValueError end),
       with_stacks d (<[cur := s']> (stacks d)), [])
    ∧ _store s' = _store s ∧ cache_ok s'.
Proof.
  intros Hcur Hs Hc Hsel. unfold toggle_layer_visibility_step.
  destruct sel as [i|u]; simpl in Hsel.
  - case_decide as Hi; [done|]. exists s.
    rewrite (with_stacks_id d cur s Hs). split; [|done].
    rewrite (bind_run _ _ d (KInt i) d) by done.
    rewrite (bind_run _ _ d cur d) by done.
    destruct (PyList.getitem (_store s) i) as [p|e] eqn:Hg.
    + rewrite (bind_run _ _ d (VPrez p) d).
      2:{ apply (on_stack_read cur _ d s); [done|].
          unfold Stack.__getitem__, bind, Stack.store, lift. simpl.
          by rewrite Hg. }
      apply bind_raise.
      rewrite (on_stack_run cur _ d s Hs), Stack_setitem_run.
      apply getitem_Ok in Hg as (k & Hk & Hlook).
      apply lookup_lt_Some in Hlook.
      assert (i < Z.of_nat (length (_store s))).
      { revert Hk. unfold PyList.norm_index. repeat case_decide; try done; lia. }
      rewrite decide_False by lia. rewrite decide_False by lia. simpl.
      by rewrite (with_stacks_id d cur s Hs).
    + apply getitem_raises in Hg as Heq. subst e.
      apply bind_raise. apply (on_stack_read cur _ d s); [done|].
      unfold Stack.__getitem__, bind, Stack.store, lift. simpl.
      by rewrite Hg.
  - destruct (Stack_index_run u s Hc) as (s1 & Hidx & Hst1 & Hu1).
    rewrite Hsel in Hidx. exists s1.
    set (d1 := with_stacks d (<[cur := s1]> (stacks d))).
    assert (stacks d1 !! cur = Some s1) as Hs1.
    { simpl. apply list_lookup_insert_eq. by eapply lookup_lt_Some. }
    split; [|split; [done|]].
    + rewrite (bind_run _ _ d KNone d1).
      2:{ rewrite (bind_run _ _ d cur d) by done.
          rewrite (bind_run _ _ d None d1); [done|].
          by rewrite (on_stack_run cur _ d s Hs), Hidx. }
      rewrite (bind_run _ _ d1 cur d1) by done.
      apply bind_raise. by apply (on_stack_read cur _ d1 s1).
    + intros c Hc1. rewrite Hu1 in Hc1. injection Hc1 as <-.
      by rewrite Hst1.
Qed.

(** What the call does when the selectors [pre] stand for rows and the
    next one, [bad], does not. *)
Lemma toggle_layer_visibility_fails_run v pre rs bad post d cur s :
  current_at d cur → stacks d !! cur = Some s → cache_ok s →
  Forall2 (λ sel r, selector_row (_store s) sel = Some r) pre rs →
  selector_row (_store s) bad = None →
  ∃ s',
    Doc.toggle_layer_visibility (pre ++ bad :: post) v d
    = (Raise (match bad with Row _ => IndexError | Uuid _ => ValueError end),
       with_stacks d (<[cur := s']> (stacks d)), [])
    ∧ _store s' = (visibility_pass (uniform v rs) (_store s) ∅).1
    ∧ cache_ok s'.
Proof.
  intros Hcur Hs Hc HF Hbad. apply lookup_lt_Some in Hs as Hlt.
  destruct (toggle_fold_run v cur pre rs d s ∅ Hcur Hs Hc HF)
    as (s1 & Hrun1 & Hst1 & Hc1).
  set (d1 := with_stacks d (<[cur := s1]> (stacks d))) in *.
  assert (stacks d1 !! cur = Some s1) as Hs1
    by (simpl; by apply list_lookup_insert_eq).
  destruct (toggle_step_fails v
              (visibility_pass (uniform v rs) (_store s) ∅).2 bad d1 cur s1)
    as (s2 & Hrun2 & Hst2 & Hc2); [done..| |].
  { rewrite (selector_row_uuids _ (_store s)); [done|].
    rewrite Hst1. apply visibility_pass_uuids. }
  exists s2. split; [|split; [by rewrite Hst2|done]].
  rewrite toggle_layer_visibility_unfold.
  rewrite (bind_run _ _ d _ _ (current_layer_set_run d cur Hcur)).
  apply bind_raise. rewrite fold_each_app.
  rewrite (bind_run _ _ d _ _ Hrun1). simpl fold_each.
  rewrite (bind_raise _ _ _ _ _ _ Hrun2). subst d1.
  by rewrite with_stacks_insert_insert.
Qed.

(** [toggle_layer_visibility] is not atomic, and a failed call notifies
    nobody.  When the first selectors stand for rows and the next one does
    not (a row outside [0 .. n-1], negative rows included, or an
    identifier the current set does not hold), the call raises:
    [IndexError] for a row, [ValueError] for an identifier.  The rows
    before the failing selector have been written, the remaining ones have
    not, and no signal was emitted and nothing logged. *)
Theorem toggle_layer_visibility_partial (d : Document) (cur : loc)
    (s : DocLayerStack) (pre : list RowOrUUID) (rs : list nat)
    (bad : RowOrUUID) (post : list RowOrUUID) (v : option bool) :
  current_at d cur → stacks d !! cur = Some s → cache_ok s →
  Forall2 (λ sel r, selector_row (_store s) sel = Some r) pre rs →
  selector_row (_store s) bad = None →
  ∃ s',
    Doc.toggle_layer_visibility (pre ++ bad :: post) v d
    = (Raise (match bad with Row _ => IndexError | Uuid _ => ValueError end),
       with_stacks d (<[cur := s']> (stacks d)), [])
    ∧ _store s' = (visibility_pass (uniform v rs) (_store s) ∅).1
    ∧ ∀ (i : nat) p, i ∉ rs → _store s !! i = Some p →
        _store s' !! i = Some p.
Proof.
  intros Hcur Hs Hc HF Hbad.
  destruct (toggle_layer_visibility_fails_run v pre rs bad post d cur s
              Hcur Hs Hc HF Hbad) as (s' & Hrun & Hst & _).
  exists s'. split; [done|]. split; [done|].
  intros i p Hi Hp. rewrite Hst.
  rewrite (visibility_pass_row _ _ ∅ i p Hp). f_equal.
  by apply row_pass_untouched.
Qed.

Lemma toggle_layer_visibility_partial_witness :
  ∃ s',
    Doc.toggle_layer_visibility [Row 0; Row (-1); Row 1] (Some false)
      doc_two_layers
    = (Raise IndexError, with_stacks doc_two_layers [s'], [])
    ∧ _store s' = [pz 1 false None; pz 2 true None].
Proof.
  destruct (toggle_layer_visibility_partial doc_two_layers 0%nat
              (MkStack [pz 1 true None; pz 2 true None] None)
              [Row 0] [0%nat] (Row (-1)) [Row 1] (Some false))
    as (s' & Hrun & Hst & _).
  - apply current_at_doc_two_layers.
  - reflexivity.
  - apply cache_ok_None.
  - repeat constructor.
  - reflexivity.
  - exists s'. split; [exact Hrun | exact Hst].
Defined.

(** ** Document.animation_changed_visibility *)

(** One round of the loop on an identifier the current set holds. *)
Lemma animation_changed_step_run d cur s u b r p :
  current_at d cur → stacks d !! cur = Some s → cache_ok s →
  Stack.build_u2r (_store s) !! u = Some r → _store s !! r = Some p →
  Doc.animation_changed_visibility_step (Some cur) (u, b) d
  = (Ok tt,
     with_stacks d
       (<[cur := MkStack (<[r := replace_visible p b]> (_store s)) None]>
          (stacks d)), []).
Proof.
  intros Hcur Hs Hc Hr Hp. apply lookup_lt_Some in Hp as Hlt.
  apply lookup_lt_Some in Hs as Hcurlt.
  unfold Doc.animation_changed_visibility_step. cbn [fst snd].
  destruct (key_uuid_getitem (KUUID u) u s eq_refl Hc)
    as (s1 & Hget & Hst1 & Hu1).
  rewrite Hr in Hget.
  set (d1 := with_stacks d (<[cur := s1]> (stacks d))).
  assert (stacks d1 !! cur = Some s1) as Hs1
    by (simpl; by apply list_lookup_insert_eq).
  rewrite (bind_run _ _ d cur d) by done.
  rewrite (bind_run _ _ d (VRow (Some r)) d1)
    by (by rewrite (on_stack_run cur _ d s Hs), Hget).
  simpl key_of_val.
  rewrite (bind_run _ _ d1 (VPrez p) d1)
    by (apply (on_stack_getitem_row d1 cur s1); [done|by rewrite Hst1]).
  rewrite (on_stack_setitem_row d1 cur s1 _ _ Hs1) by by rewrite Hst1.
  rewrite Hst1. subst d1. by rewrite with_stacks_insert_insert.
Qed.

(** One round on an identifier the current set does not hold: the row
    found is [None], and indexing the set with [None] is refused. *)
Lemma animation_changed_step_fails d cur s u b :
  current_at d cur → stacks d !! cur = Some s → cache_ok s →
  Stack.build_u2r (_store s) !! u = None →
  ∃ s',
    Doc.animation_changed_visibility_step (Some cur) (u, b) d
    = (Raise ValueError, with_stacks d (<[cur := s']> (stacks d)), [])
    ∧ _store s' = _store s.
Proof.
  intros Hcur Hs Hc Hr. apply lookup_lt_Some in Hs as Hcurlt.
  unfold Doc.animation_changed_visibility_step. cbn [fst snd].
  destruct (key_uuid_getitem (KUUID u) u s eq_refl Hc)
    as (s1 & Hget & Hst1 & Hu1).
  rewrite Hr in Hget. exists s1. split; [|done].
  set (d1 := with_stacks d (<[cur := s1]> (stacks d))).
  assert (stacks d1 !! cur = Some s1) as Hs1
    by (simpl; by apply list_lookup_insert_eq).
  rewrite (bind_run _ _ d cur d) by done.
  rewrite (bind_run _ _ d (VRow None) d1)
    by (by rewrite (on_stack_run cur _ d s Hs), Hget).
  simpl key_of_val.
  apply bind_raise. by apply (on_stack_read cur _ d1 s1).
Qed.

(** An entry as a dict of changes wants it. *)
Local Abbreviation changed_by changes :=
  (λ p : prez, match py_dict changes !! uuid p with
               | Some b => replace_visible p b
               | None => p
               end).

Lemma changed_by_uuids (changes : list (UUID * bool)) (st : list prez) :
  uuid <$> (changed_by changes <$> st) = uuid <$> st.
Proof.
  rewrite <- list_fmap_compose. apply list_fmap_ext. intros i p _. simpl.
  by destruct (py_dict changes !! uuid p).
Qed.

(** The loop over changes whose identifiers the current set all holds. *)
Lemma animation_changed_loop_run cur : ∀ changes d s,
  current_at d cur → stacks d !! cur = Some s → cache_ok s →
  NoDup (uuid <$> _store s) →
  (∀ uv, uv ∈ changes → uv.1 ∈ uuid <$> _store s) →
  ∃ s',
    for_each changes (Doc.animation_changed_visibility_step (Some cur)) d
    = (Ok tt, with_stacks d (<[cur := s']> (stacks d)), [])
    ∧ _store s' = changed_by changes <$> _store s
    ∧ cache_ok s'.
Proof.
  induction changes as [|[u b] changes IH] using rev_ind;
    intros d s Hcur Hs Hc Hnd Hall.
  - exists s. rewrite (with_stacks_id d cur s Hs). split; [done|].
    split; [|done]. simpl. by rewrite list_fmap_id.
  - apply lookup_lt_Some in Hs as Hcurlt.
    destruct (IH d s Hcur Hs Hc Hnd) as (s1 & Hrun1 & Hst1 & Hc1).
    { intros uv Huv. apply Hall, elem_of_app. by left. }
    set (d1 := with_stacks d (<[cur := s1]> (stacks d))) in *.
    assert (stacks d1 !! cur = Some s1) as Hs1
      by (simpl; by apply list_lookup_insert_eq).
    assert (uuid <$> _store s1 = uuid <$> _store s) as Huu
      by (rewrite Hst1; apply changed_by_uuids).
    assert (is_Some (Stack.build_u2r (_store s) !! u)) as [r Hr].
    { apply build_u2r_is_Some. apply (Hall (u, b)), elem_of_app. right.
      by apply list_elem_of_singleton. }
    pose proof Hr as Hrow. apply build_u2r_lookup in Hrow as [Hat _].
    apply fmap_Some in Hat as (p & Hp & Hup).
    assert (_store s1 !! r = Some (changed_by changes p)) as Hp1
      by (by rewrite Hst1, list_lookup_fmap, Hp).
    eexists. split; [|split; [|apply cache_ok_None]].
    + rewrite for_each_app, (bind_run _ _ d _ _ Hrun1). simpl for_each.
      rewrite bind_ret_tt.
      rewrite (animation_changed_step_run d1 cur s1 u b r
                 (changed_by changes p)); try done.
      * subst d1. by rewrite with_stacks_insert_insert.
      * by rewrite (build_u2r_uuids _ (_store s)).
    + simpl. rewrite Hst1. apply list_eq. intros i.
      rewrite list_lookup_fmap.
      destruct (decide (i = r)) as [->|Hne].
      * rewrite list_lookup_insert_eq
          by (rewrite length_fmap; by eapply lookup_lt_Some).
        rewrite Hp. simpl. rewrite py_dict_snoc, <- Hup, lookup_insert_eq.
        by destruct (py_dict changes !! u).
      * rewrite list_lookup_insert_ne by done. rewrite list_lookup_fmap.
        destruct (_store s !! i) as [q|] eqn:Hq; [|done]. simpl.
        rewrite py_dict_snoc, lookup_insert_ne; [done|].
        intros Heq. apply Hne.
        apply (NoDup_lookup _ _ _ u Hnd);
          rewrite list_lookup_fmap; [by rewrite Hq, Heq|by rewrite Hp, Hup].
Qed.

Lemma animation_changed_head_run d cur s (k : option loc → M Document unit) :
  current_at d cur → stacks d !! cur = Some s →
  (cur <- Doc.current_layer_set ;;
   cur <- Doc.as_stack cur TypeError ;;
   st <- Doc.on_stack cur Stack.store ;;
   L <- Doc.current_layer_set ;;
   k L) d
  = k (Some cur) d.
Proof.
  intros Hcur Hs.
  rewrite (bind_run _ _ d _ _ (current_layer_set_run d cur Hcur)).
  rewrite (bind_run _ _ d cur d) by done.
  rewrite (bind_run _ _ d (_store s) d)
    by (by apply (on_stack_read cur Stack.store d s)).
  by rewrite (bind_run _ _ d _ _ (current_layer_set_run d cur Hcur)).
Qed.

(** [animation_changed_visibility(changes)] on a current set with a sound
    cache and no identifier twice, when the set holds every identifier of
    [changes].  The call returns; each entry whose identifier is in
    [changes] has as its [visible] field the value given for it (the last
    one, if it is named more than once) and is otherwise as it was, and
    every other entry is untouched; then one signal is emitted, whose
    payload is [changes] itself. *)
Theorem animation_changed_visibility_effect (d : Document) (cur : loc)
    (s : DocLayerStack) (changes : list (UUID * bool)) :
  current_at d cur → stacks d !! cur = Some s → cache_ok s →
  NoDup (uuid <$> _store s) →
  (∀ uv, uv ∈ changes → uv.1 ∈ uuid <$> _store s) →
  ∃ s',
    Doc.animation_changed_visibility changes d
    = (Ok tt, with_stacks d (<[cur := s']> (stacks d)),
       [Emit (didChangeLayerVisibility (py_dict changes))
             (with_stacks d (<[cur := s']> (stacks d)))])
    ∧ length (_store s') = length (_store s)
    ∧ ∀ (i : nat) p, _store s !! i = Some p →
        _store s' !! i
        = Some (Prez (uuid p) (kind p)
                     (default (visible p) (py_dict changes !! uuid p))
                     (a_order p) (colormap p) (climits p) (mixing p)).
Proof.
  intros Hcur Hs Hc Hnd Hall.
  destruct (animation_changed_loop_run cur changes d s Hcur Hs Hc Hnd Hall)
    as (s' & Hrun & Hst & _).
  exists s'. split; [|split].
  - unfold Doc.animation_changed_visibility.
    rewrite (animation_changed_head_run d cur s _ Hcur Hs).
    by rewrite (bind_run _ _ d _ _ Hrun).
  - by rewrite Hst, length_fmap.
  - intros i p Hp. rewrite Hst, list_lookup_fmap, Hp. simpl. f_equal.
    destruct (py_dict changes !! uuid p); [done|by destruct p].
Qed.

Lemma animation_changed_visibility_effect_witness :
  ∃ s',
    Doc.animation_changed_visibility [(2%N, false)] doc_two_layers
    = (Ok tt, with_stacks doc_two_layers [s'],
       [Emit (didChangeLayerVisibility (py_dict [(2%N, false)]))
             (with_stacks doc_two_layers [s'])])
    ∧ _store s' !! 0%nat = Some (pz 1 true None)
    ∧ _store s' !! 1%nat = Some (pz 2 false None).
Proof.
  destruct (animation_changed_visibility_effect doc_two_layers 0%nat
              (MkStack [pz 1 true None; pz 2 true None] None)
              [(2%N, false)])
    as (s' & Hrun & _ & Hrows).
  - apply current_at_doc_two_layers.
  - reflexivity.
  - apply cache_ok_None.
  - apply (bool_decide_unpack _). by vm_compute.
  - intros uv Huv. apply list_elem_of_singleton in Huv as ->.
    simpl. right. left.
  - exists s'. split; [exact Hrun|].
    split; [exact (Hrows 0%nat _ eq_refl) | exact (Hrows 1%nat _ eq_refl)].
Defined.

(** When [changes] names an identifier the current set does not hold, the
    call raises [ValueError] at the first such identifier.  The changes
    before it have been applied and stay; and the signal, which is the
    last statement of the method, is never emitted. *)
Theorem animation_changed_visibility_partial (d : Document) (cur : loc)
    (s : DocLayerStack) (pre : list (UUID * bool)) (u : UUID) (b : bool)
    (post : list (UUID * bool)) :
  current_at d cur → stacks d !! cur = Some s → cache_ok s →
  NoDup (uuid <$> _store s) →
  (∀ uv, uv ∈ pre → uv.1 ∈ uuid <$> _store s) →
  u ∉ uuid <$> _store s →
  ∃ s',
    Doc.animation_changed_visibility (pre ++ (u, b) :: post) d
    = (Raise ValueError, with_stacks d (<[cur := s']> (stacks d)), [])
    ∧ ∀ (i : nat) p, _store s !! i = Some p →
        _store s' !! i
        = Some (match py_dict pre !! uuid p with
                | Some b => replace_visible p b
                | None => p
                end).
Proof.
  intros Hcur Hs Hc Hnd Hall Hnot. apply lookup_lt_Some in Hs as Hcurlt.
  destruct (animation_changed_loop_run cur pre d s Hcur Hs Hc Hnd Hall)
    as (s1 & Hrun1 & Hst1 & Hc1).
  set (d1 := with_stacks d (<[cur := s1]> (stacks d))) in *.
  assert (stacks d1 !! cur = Some s1) as Hs1
    by (simpl; by apply list_lookup_insert_eq).
  assert (uuid <$> _store s1 = uuid <$> _store s) as Huu
    by (rewrite Hst1; apply changed_by_uuids).
  destruct (animation_changed_step_fails d1 cur s1 u b) as (s2 & Hrun2 & Hst2);
    [done..| |].
  { rewrite (build_u2r_uuids _ (_store s)) by done.
    destruct (Stack.build_u2r (_store s) !! u) as [r|] eqn:Hr; [|done].
    exfalso. apply Hnot, build_u2r_is_Some. by eexists. }
  exists s2. split.
  - unfold Doc.animation_changed_visibility.
    rewrite (animation_changed_head_run d cur s _ Hcur Hs).
    apply bind_raise. rewrite for_each_app, (bind_run _ _ d _ _ Hrun1).
    simpl for_each. rewrite (bind_raise _ _ _ _ _ _ Hrun2). subst d1.
    by rewrite with_stacks_insert_insert.
  - intros i p Hp. by rewrite Hst2, Hst1, list_lookup_fmap, Hp.
Qed.

Lemma animation_changed_visibility_partial_witness :
  ∃ s',
    Doc.animation_changed_visibility [(2%N, false); (9%N, true)]
      doc_two_layers
    = (Raise ValueError, with_stacks doc_two_layers [s'], [])
    ∧ _store s' !! 1%nat = Some (pz 2 false None).
Proof.
  destruct (animation_changed_visibility_partial doc_two_layers 0%nat
              (MkStack [pz 1 true None; pz 2 true None] None)
              [(2%N, false)] 9%N true [])
    as (s' & Hrun & Hrows).
  - apply current_at_doc_two_layers.
  - reflexivity.
  - apply cache_ok_None.
  - apply (bool_decide_unpack _). by vm_compute.
  - intros uv Huv. apply list_elem_of_singleton in Huv as ->.
    simpl. right. left.
  - apply (bool_decide_unpack _). by vm_compute.
  - exists s'. split; [exact Hrun|]. exact (Hrows 1%nat _ eq_refl).
Defined.

(** ** Document.insert_layer_prez *)

Section InsertRuns.
Context {A : Type}.
Implicit Types (st : list A) (row : Z).

(** Inserting a reversed sequence at one non-negative row within the
    list puts the sequence there in its order. *)
Lemma insert_reversed_in_order st row (ps : list A) :
  0 ≤ row ≤ Z.of_nat (length st) →
  foldl (λ st p, PyList.inserted st row p) st (reverse ps)
  = take (Z.to_nat row) st ++ ps ++ drop (Z.to_nat row) st.
Proof.
  intros Hrow. induction ps as [|p ps IH].
  - simpl. by rewrite take_drop.
  - rewrite reverse_cons, foldl_app, IH. simpl. unfold PyList.inserted.
    assert (length (take (Z.to_nat row) st) = Z.to_nat row) as Hlen
      by (rewrite length_take; lia).
    rewrite clamp_in_range by (rewrite !length_app, Hlen; lia).
    rewrite (take_app_length' _ _ (Z.to_nat row)) by done.
    by rewrite (drop_app_length' _ _ (Z.to_nat row)) by done.
Qed.

(** At a negative row within the list, every insertion lands behind the
    one before: the sequence stands there in the order of insertion. *)
Lemma insert_at_negative_row st row (lps : list A) :
  - Z.of_nat (length st) ≤ row < 0 →
  foldl (λ st p, PyList.inserted st row p) st lps
  = take (Z.to_nat (Z.of_nat (length st) + row)) st ++ lps
    ++ drop (Z.to_nat (Z.of_nat (length st) + row)) st.
Proof.
  intros Hrow. induction lps as [|p lps IH] using rev_ind.
  - simpl. by rewrite take_drop.
  - rewrite foldl_app, IH. simpl. unfold PyList.inserted.
    set (k := Z.to_nat (Z.of_nat (length st) + row)).
    assert (length (take k st) = k) as Hlen
      by (rewrite length_take; lia).
    rewrite clamp_negative
      by (rewrite !length_app, Hlen, length_drop; lia).
    replace (Z.to_nat (row + Z.of_nat (length (take k st ++ lps ++ drop k st))))
      with (length (take k st ++ lps)).
    2:{ rewrite !length_app, Hlen, length_drop. lia. }
    rewrite (app_assoc (take k st) lps).
    rewrite take_app_length, drop_app_length.
    by rewrite <- !app_assoc.
Qed.
End InsertRuns.

Lemma prez_items_reverse ks : prez_items (reverse ks) = reverse (prez_items ks).
Proof.
  unfold prez_items. induction ks as [|k ks IH]; [done|].
  rewrite reverse_cons, omap_app, IH. simpl.
  destruct (key_prez k); simpl; [by rewrite reverse_cons|].
  by rewrite app_nil_r.
Qed.

(** The loop of [insert_layer_prez], for a row that is a machine index. *)
Lemma insert_layer_prez_loop_run (cur : loc) row :
  PyList.fits_index row = true →
  ∀ lps d s (clo : list (option nat)),
  stacks d !! cur = Some s →
  ∃ clo' s',
    fold_each lps clo (λ clo p,
      match p with
      | KPrez p =>
          Doc.on_stack cur (Stack.insert row p) ;;
          lift (PyList.insert clo row None)
      | _ =>
          log ERROR
            "attempt to drop a new layer with the wrong type: {0!r:s}" ;;
          ret clo
      end) d
    = (Ok clo', with_stacks d (<[cur := s']> (stacks d)),
       wrong_type_records lps)
    ∧ _store s'
      = foldl (λ st p, PyList.inserted st row p) (_store s) (prez_items lps).
Proof.
  intros Hfit.
  induction lps as [|k lps IH]; intros d s clo Hs.
  - exists clo, s. by rewrite (with_stacks_id d cur s Hs).
  - apply lookup_lt_Some in Hs as Hlt.
    assert (∀ k', key_prez k' = None →
      ∃ clo' s',
        fold_each (k' :: lps) clo (λ clo p,
          match p with
          | KPrez p =>
              Doc.on_stack cur (Stack.insert row p) ;;
              lift (PyList.insert clo row None)
          | _ =>
              log ERROR
                "attempt to drop a new layer with the wrong type: {0!r:s}" ;;
              ret clo
          end) d
        = (Ok clo', with_stacks d (<[cur := s']> (stacks d)),
           wrong_type_records (k' :: lps))
        ∧ _store s'
          = foldl (λ st p, PyList.inserted st row p) (_store s)
              (prez_items (k' :: lps))) as Hother.
    { intros k' Hk'. destruct (IH d s clo Hs) as (clo' & s' & Hrun & Hst).
      exists clo', s'. split.
      - simpl fold_each.
        erewrite bind_ok; [| |exact Hrun].
        2:{ destruct k'; try discriminate Hk'; reflexivity. }
        unfold wrong_type_records. simpl. by rewrite Hk'.
      - unfold prez_items. simpl. by rewrite Hk'. }
    destruct k as [i|u|l|p|lo hi|]; try (by apply Hother).
    set (s1 := MkStack (PyList.inserted (_store s) row p) None).
    set (d1 := with_stacks d (<[cur := s1]> (stacks d))).
    destruct (IH d1 s1 (PyList.inserted clo row None))
      as (clo' & s' & Hrun & Hst).
    { simpl. by apply list_lookup_insert_eq. }
    exists clo', s'. split; [|done].
    simpl fold_each.
    erewrite bind_ok; [| |exact Hrun].
    2:{ rewrite (bind_run _ _ d tt d1).
        - unfold lift, PyList.insert. by rewrite Hfit.
        - by rewrite (on_stack_run cur _ d s Hs), Stack_insert_run. }
    subst d1. by rewrite with_stacks_insert_insert.
Qed.

(** The loop for a row that is no machine index: it stops at the first
    [prez] tuple. *)
Lemma insert_layer_prez_loop_overflow (cur : loc) row :
  PyList.fits_index row = false →
  ∀ lps d s (clo : list (option nat)),
  stacks d !! cur = Some s → prez_items lps ≠ [] →
  ∃ t,
    fold_each lps clo (λ clo p,
      match p with
      | KPrez p =>
          Doc.on_stack cur (Stack.insert row p) ;;
          lift (PyList.insert clo row None)
      | _ =>
          log ERROR
            "attempt to drop a new layer with the wrong type: {0!r:s}" ;;
          ret clo
      end) d
    = (Raise OverflowError, d, t).
Proof.
  intros Hfit.
  induction lps as [|k lps IH]; intros d s clo Hs Hne; [done|].
  assert (∀ k', key_prez k' = None → prez_items lps ≠ [] →
    ∃ t,
      fold_each (k' :: lps) clo (λ clo p,
        match p with
        | KPrez p =>
            Doc.on_stack cur (Stack.insert row p) ;;
            lift (PyList.insert clo row None)
        | _ =>
            log ERROR
              "attempt to drop a new layer with the wrong type: {0!r:s}" ;;
            ret clo
        end) d
      = (Raise OverflowError, d, t)) as Hother.
  { intros k' Hk' Hne'. destruct (IH d s clo Hs Hne') as (t & Hrun).
    eexists. simpl fold_each.
    erewrite bind_ok; [reflexivity| |exact Hrun].
    destruct k'; try discriminate Hk'; reflexivity. }
  destruct k as [i|u|l|p|lo hi|]; try (by apply Hother).
  exists []. simpl fold_each. apply bind_raise, bind_raise.
  rewrite (on_stack_run cur _ d s Hs), Stack_insert_overflow by done.
  simpl. by rewrite (with_stacks_id d cur s Hs).
Qed.

(** [insert_layer_prez(row, seq)] on a document whose current set is the
    stack [s].  An empty sequence is answered with a warning and nothing
    else.  Otherwise, for a row that is a machine index (from [-2^63] to
    [2^63 - 1]), the call returns; only the current set changes (the other
    sets and the catalogue do not learn of the new entries); the only
    events are error records, one for each object of the sequence that is
    not a [prez] tuple, so no signal is emitted; and the [prez] tuples of
    the sequence are in the store: at a row in [0 .. n] they stand at that
    row in the order of the sequence, and at a negative row [-n .. -1]
    they stand at row [n + row] in reverse order, each having been
    inserted behind the one before.  For any other row the call raises
    [OverflowError] as soon as it comes to a [prez] tuple, and the
    document is as it was. *)
Theorem insert_layer_prez_effect (d : Document) (cur : loc)
    (s : DocLayerStack) (row : Z) (ks : list PyKey) :
  current_at d cur → stacks d !! cur = Some s →
  let n := Z.of_nat (length (_store s)) in
  (ks = [] →
   Doc.insert_layer_prez row ks d
   = (Ok tt, d, [Log WARNING "attempt to drop empty content"]))
  ∧ (ks ≠ [] → - 2 ^ 63 ≤ row ≤ 2 ^ 63 - 1 →
     ∃ s',
       Doc.insert_layer_prez row ks d
       = (Ok tt, with_stacks d (<[cur := s']> (stacks d)),
          wrong_type_records (reverse ks))
       ∧ (0 ≤ row ≤ n →
          _store s'
          = take (Z.to_nat row) (_store s) ++ prez_items ks
            ++ drop (Z.to_nat row) (_store s))
       ∧ (- n ≤ row < 0 →
          _store s'
          = take (Z.to_nat (n + row)) (_store s) ++ reverse (prez_items ks)
            ++ drop (Z.to_nat (n + row)) (_store s)))
  ∧ (prez_items ks ≠ [] → ¬ (- 2 ^ 63 ≤ row ≤ 2 ^ 63 - 1) →
     ∃ t, Doc.insert_layer_prez row ks d = (Raise OverflowError, d, t)).
Proof.
  intros Hcur Hs n.
  assert (∀ k lps, reverse ks = k :: lps →
    Doc.insert_layer_prez row ks d
    = (fold_each (k :: lps) (Some <$> seq 0 (Z.to_nat n)) (λ clo p,
         match p with
         | KPrez p =>
             Doc.on_stack cur (Stack.insert row p) ;;
             lift (PyList.insert clo row None)
         | _ =>
             log ERROR
               "attempt to drop a new layer with the wrong type: {0!r:s}" ;;
             ret clo
         end) ;; ret tt) d) as Hunfold.
  { intros k lps Hrev. unfold Doc.insert_layer_prez.
    rewrite (bind_run _ _ d _ _ (current_layer_set_run d cur Hcur)).
    rewrite (bind_run _ _ d cur d) by done.
    rewrite (bind_run _ _ d (Z.of_nat (length (_store s))) d)
      by (by apply (on_stack_read cur Stack.__len__ d s)).
    by rewrite Hrev. }
  split; [|split].
  - intros ->. unfold Doc.insert_layer_prez.
    rewrite (bind_run _ _ d _ _ (current_layer_set_run d cur Hcur)).
    rewrite (bind_run _ _ d cur d) by done.
    by rewrite (bind_run _ _ d (Z.of_nat (length (_store s))) d)
      by (by apply (on_stack_read cur Stack.__len__ d s)).
  - intros Hne Hfit.
    destruct (insert_layer_prez_loop_run cur row (fits_index_small _ Hfit)
                (reverse ks) d s (Some <$> seq 0 (Z.to_nat n)) Hs)
      as (clo' & s' & Hrun & Hst).
    exists s'. split; [|split].
    + destruct (reverse ks) as [|k lps] eqn:Hrev.
      { apply (f_equal reverse) in Hrev. rewrite reverse_involutive in Hrev.
        done. }
      rewrite (Hunfold k lps eq_refl).
      erewrite bind_ok; [| exact Hrun | reflexivity].
      by rewrite app_nil_r.
    + intros Hrow. rewrite Hst, prez_items_reverse.
      by apply insert_reversed_in_order.
    + intros Hrow. rewrite Hst, prez_items_reverse.
      by apply insert_at_negative_row.
  - intros Hne Hbig.
    destruct (insert_layer_prez_loop_overflow cur row
                (fits_index_large _ Hbig) (reverse ks) d s
                (Some <$> seq 0 (Z.to_nat n)) Hs)
      as (t & Hrun).
    { rewrite prez_items_reverse. intros Hrev. apply Hne.
      apply (f_equal reverse) in Hrev.
      by rewrite reverse_involutive in Hrev. }
    exists t.
    destruct (reverse ks) as [|k lps] eqn:Hrev.
    { rewrite <- (reverse_involutive ks), Hrev in Hne. done. }
    rewrite (Hunfold k lps eq_refl). by apply bind_raise.
Qed.

Lemma insert_layer_prez_effect_witness :
  ∃ s',
    Doc.insert_layer_prez (-1) [KPrez (pz 7 true None); KPrez (pz 8 true None)]
      doc_two_layers
    = (Ok tt, with_stacks doc_two_layers [s'], [])
    ∧ _store s'
      = [pz 1 true None; pz 8 true None; pz 7 true None; pz 2 true None].
Proof.
  destruct (insert_layer_prez_effect doc_two_layers 0%nat
              (MkStack [pz 1 true None; pz 2 true None] None) (-1)
              [KPrez (pz 7 true None); KPrez (pz 8 true None)]
              current_at_doc_two_layers eq_refl) as (_ & Hrun & _).
  destruct Hrun as (s' & Hrun & _ & Hst); [done|lia|].
  exists s'. split; [exact Hrun|]. apply Hst. simpl. lia.
Defined.

(** * The invariant of the documents the code builds *)

(** ** Tidy layer sets *)

Lemma tidy_stack_uuids c s s' :
  uuid <$> _store s' = uuid <$> _store s → cache_ok s' →
  tidy_stack c s → tidy_stack c s'.
Proof.
  intros Huu Hc' (_ & Hnd & Hcat). split; [done|]. by rewrite Huu.
Qed.

Lemma tidy_stack_sub c s st' :
  uuid <$> st' `sublist_of` uuid <$> _store s →
  tidy_stack c s → tidy_stack c (MkStack st' None).
Proof.
  intros Hsub (_ & Hnd & Hcat). split; [apply cache_ok_None|]. simpl. split.
  - by eapply sublist_NoDup.
  - intros u Hu. apply Hcat. by eapply elem_of_sublist.
Qed.

Lemma tidy_stack_delete c s (r : nat) :
  tidy_stack c s → tidy_stack c (MkStack (delete r (_store s)) None).
Proof.
  apply tidy_stack_sub. apply fmap_sublist, sublist_delete.
Qed.

Lemma tidy_stack_catalogue c c' s :
  (∀ u, u ∈ uuid <$> _store s → is_Some (c !! u) → is_Some (c' !! u)) →
  tidy_stack c s → tidy_stack c' s.
Proof.
  intros Hcc (Hc & Hnd & Hcat). split; [done|]. split; [done|].
  intros u Hu. apply Hcc; [done|]. by apply Hcat.
Qed.

Lemma tidy_init n : tidy (Doc.__init__ n).
Proof.
  split; [apply sound_init|]. intros k l s Hk Hs.
  assert (l = 0%nat) as ->.
  { destruct k as [|k]; simpl in Hk; [congruence|].
    apply lookup_replicate in Hk as [? _]. done. }
  simpl in Hs. injection Hs as <-.
  split; [apply cache_ok_None|]. simpl. split; [apply NoDup_nil_2|].
  intros u Hu. by apply elem_of_nil in Hu.
Qed.

Lemma tidy_with_stack d (l : loc) s' :
  tidy d → (l < length (stacks d))%nat →
  tidy_stack (_layer_with_uuid d) s' →
  tidy (with_stacks d (<[l := s']> (stacks d))).
Proof.
  intros [Hd Hsets] Hl Hs'. split.
  - apply sound_with_stacks; [by rewrite length_insert|done].
  - intros k l' s Hk Hs. simpl in *.
    destruct (decide (l' = l)) as [->|Hne].
    + rewrite list_lookup_insert_eq in Hs by done. by injection Hs as <-.
    + rewrite list_lookup_insert_ne in Hs by done. by eapply Hsets.
Qed.

Lemma tidy_current d :
  tidy d →
  ∃ cur s, current_at d cur ∧ stacks d !! cur = Some s
           ∧ tidy_stack (_layer_with_uuid d) s.
Proof.
  intros [[Hwf [cur Hcur]] Hsets].
  destruct (wf_allocated d _ cur Hwf (proj2 Hcur)) as [s Hs].
  exists cur, s. split; [done|]. split; [done|].
  by apply (Hsets _ cur s (proj2 Hcur)).
Qed.

Lemma bind_final_state {S A B} (m : M S A) (k : A → M S B) s a s1 t1 :
  m s = (Ok a, s1, t1) → (bind m k s).1.2 = (k a s1).1.2.
Proof.
  intros Hm. unfold bind. rewrite Hm. by destruct (k a s1) as [[r s2] t2].
Qed.

Lemma hoare_of_final {S A} (P : S → Prop) (m : M S A) :
  (∀ s, P s → P (m s).1.2) → hoare P m (λ _, P) P.
Proof.
  intros Hm s Hs. specialize (Hm s Hs).
  by destruct (m s) as [[[a|e] s'] t].
Qed.

(** ** toggle_layer_visibility keeps a document tidy *)

Lemma selectors_split st rows :
  (∃ rs, Forall2 (λ sel r, selector_row st sel = Some r) rows rs)
  ∨ (∃ pre rs bad post,
       rows = pre ++ bad :: post
       ∧ Forall2 (λ sel r, selector_row st sel = Some r) pre rs
       ∧ selector_row st bad = None).
Proof.
  induction rows as [|sel rows IH].
  - left. exists []. constructor.
  - destruct (selector_row st sel) as [r|] eqn:Hsel.
    + destruct IH as [[rs HF]|(pre & rs & bad & post & -> & HF & Hbad)].
      * left. exists (r :: rs). by constructor.
      * right. exists (sel :: pre), (r :: rs), bad, post.
        split; [done|]. split; [by constructor|done].
    + right. exists [], [], sel, rows. split; [done|].
      split; [constructor|done].
Qed.

Lemma tidy_toggle rows v d :
  tidy d → tidy (Doc.toggle_layer_visibility rows v d).1.2.
Proof.
  intros Hd. destruct (tidy_current d Hd) as (cur & s & Hcur & Hs & Hts).
  pose proof Hts as (Hc & _).
  apply lookup_lt_Some in Hs as Hlt.
  destruct (selectors_split (_store s) rows)
    as [[rs HF]|(pre & rs & bad & post & -> & HF & Hbad)].
  - destruct (toggle_layer_visibility_run v rows rs d cur s Hcur Hs Hc HF)
      as (s' & Hrun & Hst & Hc').
    rewrite Hrun. simpl. apply tidy_with_stack; [done..|].
    apply (tidy_stack_uuids _ s); [|done..].
    rewrite Hst. apply visibility_pass_uuids.
  - destruct (toggle_layer_visibility_fails_run v pre rs bad post d cur s
                Hcur Hs Hc HF Hbad) as (s' & Hrun & Hst & Hc').
    rewrite Hrun. simpl. apply tidy_with_stack; [done..|].
    apply (tidy_stack_uuids _ s); [|done..].
    rewrite Hst. apply visibility_pass_uuids.
Qed.

(** ** remove_layer_prez and remove_layers_from_all_sets keep it tidy *)

Lemma tidy_remove_layer_prez sel count d :
  tidy d → tidy (Doc.remove_layer_prez sel count d).1.2.
Proof.
  intros Hd. destruct (tidy_current d Hd) as (cur & s & Hcur & Hs & Hts).
  pose proof Hd as [[Hwf _] Hsets].
  destruct sel as [row|u].
  { by rewrite (remove_layer_prez_row_raises d cur row count Hwf Hcur). }
  destruct (decide (count = 1)) as [->|Hc]; last first.
  { by rewrite (remove_layer_prez_uuid_count_raises d cur u count Hcur Hc). }
  destruct (Stack.build_u2r (_store s) !! u) as [r|] eqn:Hr; last first.
  { by rewrite (remove_layer_prez_uuid_absent d cur s u Hcur Hs Hr). }
  pose proof Hr as Hrow. apply build_u2r_lookup in Hrow as [Hat _].
  apply fmap_Some in Hat as (p & Hp & Hup).
  rewrite (remove_layer_prez_uuid_run d cur s u r p Hwf Hcur Hs Hr Hp).
  cbv zeta.
  set (db := with_stacks d
               (<[cur := MkStack (delete r (_store s)) None]> (stacks d))).
  assert (tidy db) as Hdb.
  { apply tidy_with_stack; [done|by eapply lookup_lt_Some|].
    by apply tidy_stack_delete. }
  destruct (in_use_b db u) eqn:Huse; [done|].
  destruct (_layer_with_uuid d !! u) as [nfo|] eqn:Hnfo; [|done].
  simpl. destruct Hdb as [Hsound Hsets']. split; [done|].
  intros k l s' Hk Hs'. simpl in *.
  apply (tidy_stack_catalogue (_layer_with_uuid d)); [|by eapply Hsets'].
  intros v Hv Hcat. rewrite lookup_delete_ne; [done|]. intros <-.
  assert (in_use_b db u = true) as Habs; [|congruence].
  apply in_use_b_true. exists k, l. split; [done|]. by exists s'.
Qed.

Lemma tidy_other_sets u d :
  tidy d →
  tidy (with_stacks d
          (on_slots (λ dex s, if decide (Z.of_nat dex = current_set_index d)
                              then s else drop_first u s)
                    0 (_layer_sets d) (stacks d))).
Proof.
  intros [Hd Hsets]. pose proof Hd as [[Hnd Halloc] _]. split.
  - apply sound_with_stacks; [apply on_slots_length|done].
  - intros k l s' Hk Hs'. simpl in *.
    rewrite (on_slots_at _ _ l k) in Hs' by done.
    apply fmap_Some in Hs' as (s & Hs & ->).
    specialize (Hsets k l s Hk Hs). simpl.
    case_decide; [done|]. unfold drop_first.
    destruct (list_find _ (_store s)) as [[pdex q]|]; [|done].
    by apply tidy_stack_delete.
Qed.

Lemma tidy_remove_layers_from_all_sets uuids d :
  tidy d → tidy (Doc.remove_layers_from_all_sets uuids d).1.2.
Proof.
  intros Hd. apply (hoare_final tidy); [|done].
  unfold Doc.remove_layers_from_all_sets.
  apply hoare_for_each. intros u _. apply hoare_of_final.
  intros d0 Hd0. pose proof Hd0 as [[Hwf _] _].
  rewrite (bind_final_state _ _ d0 tt d0 [Log DEBUG "removing {}"]) by done.
  rewrite (bind_final_state _ _ d0 d0 d0 []) by done.
  rewrite (bind_final_state _ _ d0 tt _ [] (other_sets_loop_run u d0 Hwf)).
  apply tidy_remove_layer_prez. by apply tidy_other_sets.
Qed.

(** ** update_dataset_info and select_layer_set keep it tidy *)

Lemma tidy_update_dataset_info ni d :
  tidy d → tidy (Doc.update_dataset_info ni d).1.2.
Proof.
  intros Hd. destruct (_layer_with_uuid d !! ni.1) as [nfo|] eqn:Hnfo.
  - unfold Doc.update_dataset_info, bind, get, Doc.set_layer_with_uuid.
    simpl. rewrite decide_True by by eexists. simpl. rewrite Hnfo. simpl.
    destruct Hd as [Hsound Hsets]. split; [done|].
    intros k l s Hk Hs. simpl in *.
    apply (tidy_stack_catalogue (_layer_with_uuid d)); [|by eapply Hsets].
    intros u _ Hu. destruct (decide (u = ni.1)) as [->|Hne].
    + rewrite lookup_insert_eq. by eexists.
    + by rewrite lookup_insert_ne.
  - by rewrite (update_dataset_info_unknown d ni Hnfo).
Qed.

Lemma tidy_select_layer_set i d :
  tidy d → tidy (Doc.select_layer_set i d).1.2.
Proof.
  intros Hd. pose proof Hd as [Hsound Hsets].
  pose proof (sound_select_layer_set i d Hsound) as Hsound'.
  destruct (tidy_current d Hd) as (src & s_src & Hcur & Hsrc & Hts).
  pose proof Hsound as [Hwf _].
  destruct (decide (i ≤ Z.of_nat (length (_layer_sets d)) ∧ 0 ≤ i))
    as [[Hle Hnn]|Hbad]; last first.
  { unfold Doc.select_layer_set, bind, get. simpl.
    by rewrite decide_False by done. }
  set (slots' := if decide (i = Z.of_nat (length (_layer_sets d)))
                 then _layer_sets d ++ [None] else _layer_sets d).
  assert (Z.to_nat i < length slots')%nat as Hlt.
  { subst slots'. case_decide; [rewrite length_app; simpl|]; lia. }
  assert (∀ k l, slots' !! k = Some (Some l) →
            _layer_sets d !! k = Some (Some l)) as Hold.
  { intros k l Hk. subst slots'. case_decide; [|done].
    apply lookup_app_Some in Hk as [Hk|[_ Hk]]; [done|].
    apply list_elem_of_lookup_2, list_elem_of_singleton in Hk. done. }
  destruct (lookup_lt_is_Some_2 _ _ Hlt) as [[l|] Hslot].
  - apply Hold in Hslot.
    destruct (wf_allocated d _ l Hwf Hslot) as [s Hs].
    rewrite (select_layer_set_existing_trace d i l s Hnn Hslot Hs) in *.
    simpl in *. split; [done|]. exact Hsets.
  - destruct (select_layer_set_run d i src s_src Hcur Hsrc Hnn Hslot)
      as [anim Hrun].
    rewrite Hrun in *. simpl in *. split; [done|].
    intros k l s Hk Hs. simpl in *. fold slots' in Hk.
    destruct (decide (k = Z.to_nat i)) as [->|Hne].
    + rewrite list_lookup_insert_eq in Hk by done. injection Hk as <-.
      rewrite lookup_app_r, Nat.sub_diag in Hs by lia.
      injection Hs as <-. by apply (tidy_stack_uuids _ s_src).
    + rewrite list_lookup_insert_ne in Hk by done. apply Hold in Hk.
      destruct (wf_allocated d _ l Hwf Hk) as [s0 Hs0].
      rewrite lookup_app_l in Hs by by eapply lookup_lt_Some.
      by eapply Hsets.
Qed.

Lemma bind_ret_tt_state {S A} (m : M S A) s :
  (bind m (λ _, ret tt) s).1.2 = (m s).1.2.
Proof. unfold bind, ret. by destruct (m s) as [[[a|e] s1] t1]. Qed.

(** ** open_file keeps it tidy *)

Section OpenRun.
Variable import_image : string → UUID * Layer * Content.
Variable collect_info : Layer → Fields.
Variable default_colormap : Layer → option Colormap.
Variable guidebook_climits : Layer → Climits.
Variable display_name : Layer → option string.

Let open_file' := Doc.open_file import_image collect_info default_colormap
                                guidebook_climits display_name.

(** [open_file] on an identifier new to the catalogue, for any
    [insert_before] that is a machine index. *)
Lemma open_file_new_run path insert_before d cur scur :
  PyList.fits_index insert_before = true →
  wf d → current_at d cur → stacks d !! cur = Some scur →
  _layer_with_uuid d !! (import_image path).1.1 = None →
  ∃ dataset cmap,
    let u := (import_image path).1.1 in
    let p := Prez (INFO_UUID (import_image path).1.2) (INFO_KIND dataset)
                  true None cmap (INFO_CLIM dataset) NORMAL in
    let g := λ (dex : nat) (s : DocLayerStack),
      MkStack (PyList.inserted (_store s) insert_before
                 (if decide (Z.of_nat dex = current_set_index d) then p
                  else replace_visible p false)) None in
    let d' := MkDoc (current_set_index d) (_layer_sets d)
                (<[u := dataset]> (_layer_with_uuid d))
                (on_slots g 0 (_layer_sets d) (stacks d)) in
    open_file' path insert_before d
    = (Ok (u, dataset, (import_image path).2), d',
       [Emit (didAddBasicLayer
                (None :: (Some <$> seq 0 (length (_store scur))))
                (INFO_UUID (import_image path).1.2) p) d']).
Proof.
  intros Hfit Hwf Hcur Hs Hnew. unfold open_file', Doc.open_file.
  destruct (import_image path) as [[u info] content]. simpl in *.
  unfold bind at 1. unfold get at 1.
  rewrite decide_False by (rewrite Hnew; by intros [? ?]).
  repeat (unfold bind at 1; simpl).
  set (dataset :=
    Layer_update
      (Layer_update (Layer_update info (collect_info info))
         (MkFields None
            (Some (guidebook_climits
                     (Layer_update info (collect_info info))))))
      _).
  set (d4 := MkDoc (current_set_index d) (_layer_sets d)
               (<[u := dataset]> (_layer_with_uuid d)) (stacks d)).
  assert (wf d4) as Hwf4 by done.
  assert (current_at d4 cur) as Hcur4 by done.
  rewrite (insert_layer_with_info_run dataset _ insert_before d4 cur scur
             Hfit Hwf4 Hcur4 Hs).
  simpl. by eexists dataset, _.
Qed.

(** With an [insert_before] that is no machine index, no stack changes:
    whichever set is reached first refuses the insertion. *)
Lemma on_stack_same_state {A} (l : loc) (m : M DocLayerStack A) d :
  (∀ s, (m s).1.2 = s) → (Doc.on_stack l m d).1.2 = d.
Proof.
  intros Hm. unfold Doc.on_stack.
  destruct (stacks d !! l) as [s|] eqn:Hl; [|done].
  specialize (Hm s). destruct (m s) as [[r s'] t]. simpl in *. subst s'.
  apply (with_stacks_id d l s Hl).
Qed.

Lemma insert_layer_with_info_overflow_state info cmap insert_before d0 :
  PyList.fits_index insert_before = false →
  (Doc._insert_layer_with_info info cmap insert_before d0).1.2 = d0.
Proof.
  intros Hfit. apply (hoare_final (λ d, d = d0)); [|done].
  unfold Doc._insert_layer_with_info.
  eapply hoare_bind.
  { apply hoare_of_final. intros d ->.
    unfold Doc.current_layer_set, bind, get, lift. by simpl. }
  intros cur. eapply hoare_bind.
  { apply hoare_of_final. intros d ->. by destruct cur. }
  intros cur'. eapply hoare_bind.
  { apply hoare_of_final. intros d ->. by apply on_stack_same_state. }
  intros n.
  eapply (hoare_bind _ _ _ _ (λ _ d, d = d0)); [by apply hoare_get|].
  intros d.
  eapply (hoare_bind _ _ _ _ (λ _ d, d = d0)); [|intros _; by apply hoare_ret].
  apply hoare_for_each. intros [dex [l|]] _; [|by apply hoare_ret].
  apply hoare_of_final. intros d1 ->. apply on_stack_same_state.
  intros s. by rewrite Stack_insert_overflow.
Qed.

Lemma open_file_overflow_state path insert_before d :
  PyList.fits_index insert_before = false →
  _layer_with_uuid d !! (import_image path).1.1 = None →
  ∃ dataset,
    (open_file' path insert_before d).1.2
    = MkDoc (current_set_index d) (_layer_sets d)
        (<[(import_image path).1.1 := dataset]> (_layer_with_uuid d))
        (stacks d).
Proof.
  intros Hfit Hnew. unfold open_file', Doc.open_file.
  destruct (import_image path) as [[u info] content]. simpl in *.
  unfold bind at 1. unfold get at 1.
  rewrite decide_False by (rewrite Hnew; by intros [? ?]).
  repeat (unfold bind at 1; simpl).
  set (dataset :=
    Layer_update
      (Layer_update (Layer_update info (collect_info info))
         (MkFields None
            (Some (guidebook_climits
                     (Layer_update info (collect_info info))))))
      _).
  set (d4 := MkDoc (current_set_index d) (_layer_sets d)
               (<[u := dataset]> (_layer_with_uuid d)) (stacks d)).
  pose proof (insert_layer_with_info_overflow_state dataset
                (default_colormap (Layer_update info (collect_info info)))
                insert_before d4 Hfit) as Hst.
  exists dataset.
  destruct (Doc._insert_layer_with_info _ _ _ d4) as [[[[pr ri]|e] d5] t5];
    simpl in *; by subst d5.
Qed.

Hypothesis import_names_itself :
  ∀ path, INFO_UUID (import_image path).1.2 = (import_image path).1.1.

Lemma tidy_open_file path insert_before d :
  tidy d → tidy (open_file' path insert_before d).1.2.
Proof.
  intros Hd. destruct (tidy_current d Hd) as (cur & s & Hcur & Hs & Hts).
  pose proof Hd as [Hsound Hsets]. pose proof Hsound as [Hwf _].
  destruct (_layer_with_uuid d !! (import_image path).1.1) as [nfo|] eqn:Hnew.
  { unfold open_file'. rewrite open_file_known; [done|]. by eexists. }
  destruct (PyList.fits_index insert_before) eqn:Hfit.
  2:{ destruct (open_file_overflow_state path insert_before d Hfit Hnew)
        as [dataset ->].
      split.
      - destruct Hsound as [[Hnd Halloc] [c Hc]]. split; [by split|].
        by exists c.
      - intros k l s' Hk Hs'. simpl in *.
        destruct (Hsets k l s' Hk Hs') as (Hc0 & Hnd0 & Hcat0).
        split; [done|]. split; [done|]. intros v Hv.
        destruct (decide (v = (import_image path).1.1)) as [->|Hne].
        + rewrite lookup_insert_eq. by eexists.
        + rewrite lookup_insert_ne by done. by apply Hcat0. }
  destruct (open_file_new_run path insert_before d cur s Hfit Hwf Hcur Hs Hnew)
    as (dataset & cmap & Hrun).
  cbv zeta in Hrun. rewrite Hrun. simpl. clear Hrun.
  rewrite import_names_itself.
  set (u := (import_image path).1.1) in *.
  split.
  - destruct Hsound as [[Hnd Halloc] [c Hc]]. split; [split|].
    + done.
    + intros l Hl. simpl. rewrite on_slots_length. by apply Halloc.
    + by exists c.
  - intros k l s' Hk Hs'. simpl in *.
    rewrite (on_slots_at _ _ l k) in Hs' by (done || apply Hwf).
    apply fmap_Some in Hs' as (s0 & Hs0 & ->).
    destruct (Hsets k l s0 Hk Hs0) as (_ & Hnd0 & Hcat0).
    split; [apply cache_ok_None|]. simpl.
    match goal with
    | |- context [PyList.inserted _ _ ?x] => set (q := x)
    end.
    assert (uuid q = u) as Hq by (subst q; by case_decide).
    assert (uuid <$> PyList.inserted (_store s0) insert_before q
            ≡ₚ u :: (uuid <$> _store s0)) as Hperm.
    { unfold PyList.inserted. rewrite fmap_app. simpl. rewrite Hq.
      rewrite <- Permutation_middle, <- fmap_app. by rewrite take_drop. }
    split.
    + rewrite Hperm. apply NoDup_cons. split; [|done].
      intros Hin. apply Hcat0 in Hin as [? Hin]. congruence.
    + intros v Hv. rewrite Hperm in Hv.
      apply elem_of_cons in Hv as [->|Hv].
      * rewrite lookup_insert_eq. by eexists.
      * destruct (decide (v = u)) as [->|Hne].
        -- rewrite lookup_insert_eq. by eexists.
        -- rewrite lookup_insert_ne by done. by apply Hcat0.
Qed.

Let run_op' := run_doc_op import_image collect_info default_colormap
                          guidebook_climits display_name.

Lemma tidy_run_doc_op op d : tidy d → tidy (run_op' op d).1.2.
Proof.
  intros Hd. destruct op; simpl.
  - rewrite bind_ret_tt_state. by apply tidy_open_file.
  - by apply tidy_update_dataset_info.
  - by apply tidy_select_layer_set.
  - by apply tidy_toggle.
  - by apply tidy_remove_layer_prez.
  - by apply tidy_remove_layers_from_all_sets.
Qed.

(** Whatever a client calls on a new document, in whatever order and
    however each call ends, and provided the workspace files each import
    under the identifier its metadata carries, the document stays tidy:
    it is sound, and every layer set has a cache that agrees with its
    store, holds no identifier twice, and holds only identifiers that the
    catalogue knows.  So a presentation entry never outlives the
    catalogue entry of its layer. *)
Theorem reachable_tidy (n : Z) (ops : list DocOp) :
  tidy (run_doc_ops import_image collect_info default_colormap
                    guidebook_climits display_name ops (Doc.__init__ n)).
Proof.
  unfold run_doc_ops. generalize (Doc.__init__ n) (tidy_init n).
  induction ops as [|op ops IH]; intros d Hd; [done|].
  simpl. apply IH. by apply tidy_run_doc_op.
Qed.
End OpenRun.

Lemma import_two_names_itself path :
  INFO_UUID (import_two path).1.2 = (import_two path).1.1.
Proof. unfold import_two. by case_decide. Qed.

Lemma reachable_tidy_witness :
  tidy (run_doc_ops import_two gb_collect_info gb_default_colormap
          gb_climits gb_display_name
          [DoOpenFile "a.tif" 0; DoSelectLayerSet 1; DoOpenFile "b.tif" 0;
           DoRemoveFromAllSets [1%N]]
          (Doc.__init__ 2)).
Proof. apply reachable_tidy, import_two_names_itself. Defined.

(** ** What tidiness gives the queries *)

Lemma tidy_doc_two_layers : tidy doc_two_layers.
Proof.
  split; [apply sound_doc_two_layers|]. intros k l s Hk Hs.
  assert (l = 0%nat) as ->.
  { apply list_elem_of_lookup_2 in Hk. simpl in Hk.
    apply elem_of_cons in Hk as [Hk|Hk]; [congruence|].
    by apply list_elem_of_singleton in Hk. }
  simpl in Hs. injection Hs as <-.
  split; [apply cache_ok_None|]. simpl. split.
  - apply (bool_decide_unpack _). by vm_compute.
  - intros u Hu. apply elem_of_cons in Hu as [->|Hu]; [by eexists|].
    apply list_elem_of_singleton in Hu as ->. by eexists.
Qed.

(** In a tidy document every row of the current set has its layer in the
    catalogue: [get_info(row=...)] never fails with [KeyError] on a row
    that exists, it ignores its [uuid] argument when a row is given, and
    it answers what [get_info(uuid=...)] and [doc[uuid]] answer for the
    identifier of that row.  None of them changes the document. *)
Theorem get_info_by_row_known (d : Document) (st : list prez) (row : Z)
    (p : prez) (other : option UUID) :
  tidy d → current_store d = Some st → PyList.getitem st row = Ok p →
  ∃ nfo,
    _layer_with_uuid d !! uuid p = Some nfo
    ∧ Doc.get_info (Some (KInt row)) other d = (Ok (Some nfo), d, [])
    ∧ Doc.get_info None (Some (uuid p)) d = (Ok (Some nfo), d, [])
    ∧ Doc.__getitem__ (KUUID (uuid p)) d = (Ok nfo, d, []).
Proof.
  intros Hd Hst Hrow.
  destruct (tidy_current d Hd) as (cur & s & Hcur & Hs & (_ & _ & Hcat)).
  assert (st = _store s) as ->.
  { destruct Hcur as [Hi Hc]. unfold current_store in Hst.
    rewrite (getitem_nonneg _ _ _ Hi Hc), Hs in Hst. by injection Hst. }
  assert (is_Some (_layer_with_uuid d !! uuid p)) as [nfo Hnfo].
  { apply Hcat. apply getitem_Ok in Hrow as (k & _ & Hk).
    apply list_elem_of_fmap. exists p. split; [done|].
    by eapply list_elem_of_lookup_2. }
  assert (Doc.layer_with_uuid (uuid p) d = (Ok nfo, d, [])) as Hlook.
  { unfold Doc.layer_with_uuid, bind, get. simpl. by rewrite Hnfo. }
  exists nfo. split; [done|]. split; [|split].
  - unfold Doc.get_info, Doc.uuid_for_current_layer.
    rewrite bind_assoc.
    rewrite (bind_run _ _ d p d)
      by (by rewrite (current_entry_int_run d cur s row Hcur Hs), Hrow).
    rewrite (bind_run _ _ d (uuid p) d) by done.
    by rewrite (bind_run _ _ d nfo d).
  - unfold Doc.get_info. by rewrite (bind_run _ _ d nfo d).
  - done.
Qed.

Lemma get_info_by_row_known_witness :
  ∃ nfo, Doc.get_info (Some (KInt (-1))) None doc_two_layers
         = (Ok (Some nfo), doc_two_layers, []).
Proof.
  destruct (get_info_by_row_known doc_two_layers
              [pz 1 true None; pz 2 true None] (-1) (pz 2 true None) None
              tidy_doc_two_layers eq_refl eq_refl)
    as (nfo & _ & Hrun & _).
  by exists nfo.
Defined.

(** ** Importing a layer and removing it again *)

Lemma delete_insert_clamp {A} (st : list A) i x :
  delete (PyList.clamp st i) (PyList.inserted st i x) = st.
Proof.
  pose proof (clamp_le st i) as Hle. unfold PyList.inserted.
  rewrite delete_take_drop.
  rewrite take_app_le by (rewrite length_take; lia).
  rewrite take_take, Nat.min_id.
  rewrite drop_app_ge by (rewrite length_take; lia).
  rewrite length_take, Nat.min_l by lia.
  replace (S (PyList.clamp st i) - PyList.clamp st i)%nat with 1%nat by lia.
  simpl. by rewrite drop_0, take_drop.
Qed.

Lemma insert_lookup_other {A} (st : list A) i x (j : nat) y :
  PyList.inserted st i x !! j = Some y → j ≠ PyList.clamp st i → y ∈ st.
Proof.
  intros Hj Hne. destruct (decide (j < PyList.clamp st i)%nat).
  - rewrite insert_lookup_before in Hj by done.
    by eapply list_elem_of_lookup_2.
  - destruct j as [|j]; [lia|].
    rewrite insert_lookup_after in Hj by lia.
    by eapply list_elem_of_lookup_2.
Qed.

(** The row of a newly inserted identifier. *)
Lemma build_u2r_inserted st i q :
  uuid q ∉ uuid <$> st →
  Stack.build_u2r (PyList.inserted st i q) !! uuid q
  = Some (PyList.clamp st i).
Proof.
  intros Hnew. apply build_u2r_lookup. split.
  - by rewrite insert_lookup_at.
  - intros j Hlt Hj. apply fmap_Some in Hj as (y & Hy & Hu).
    apply Hnew. rewrite Hu. apply list_elem_of_fmap. exists y.
    split; [done|]. eapply insert_lookup_other; [done|lia].
Qed.

(** Deleting the first entry for an identifier that was just inserted
    gives the store back. *)
Lemma drop_first_inserted st i q :
  uuid q ∉ uuid <$> st →
  drop_first (uuid q) (MkStack (PyList.inserted st i q) None) = MkStack st None.
Proof.
  intros Hnew. unfold drop_first. simpl.
  destruct (list_find _ _) as [[j y]|] eqn:Hf.
  - apply list_find_Some in Hf as (Hj & Hu & Hmin).
    destruct (decide (j = PyList.clamp st i)) as [->|Hne].
    + by rewrite delete_insert_clamp.
    + exfalso. apply Hnew. rewrite <- Hu. apply list_elem_of_fmap.
      exists y. split; [done|]. by eapply insert_lookup_other.
  - exfalso. rewrite list_find_None, Forall_forall in Hf.
    apply (Hf q); [|done]. eapply list_elem_of_lookup_2, insert_lookup_at.
Qed.

Section RoundTrip.
Variable import_image : string → UUID * Layer * Content.
Variable collect_info : Layer → Fields.
Variable default_colormap : Layer → option Colormap.
Variable guidebook_climits : Layer → Climits.
Variable display_name : Layer → option string.

(** Importing a file and then removing its layer from all sets is a
    round trip.  Take a tidy document and a path whose identifier is new
    to the catalogue and is the one its metadata carries.  Then
    [open_file(path, insert_before)] returns, for any [insert_before] that
    is a machine index (from [-2^63] to [2^63 - 1]), and
    [remove_layers_from_all_sets] of the new identifier returns; after it
    the slots, the current index and the catalogue are as they were before
    the import, every layer set has its entries of before, in order, and
    the workspace has been told to remove the layer. *)
Theorem open_then_remove_round_trip (path : string) (insert_before : Z)
    (d : Document) :
  tidy d →
  - 2 ^ 63 ≤ insert_before ≤ 2 ^ 63 - 1 →
  INFO_UUID (import_image path).1.2 = (import_image path).1.1 →
  _layer_with_uuid d !! (import_image path).1.1 = None →
  ∃ r d1 t1 d2 t2,
    Doc.open_file import_image collect_info default_colormap
      guidebook_climits display_name path insert_before d = (Ok r, d1, t1)
    ∧ Doc.remove_layers_from_all_sets [(import_image path).1.1] d1
      = (Ok tt, d2, t2)
    ∧ current_set_index d2 = current_set_index d
    ∧ _layer_sets d2 = _layer_sets d
    ∧ _layer_with_uuid d2 = _layer_with_uuid d
    ∧ (∀ k l s, _layer_sets d !! k = Some (Some l) → stacks d !! l = Some s →
         _store <$> stacks d2 !! l = Some (_store s))
    ∧ WorkspaceRemove (import_image path).1.1 ∈ t2.
Proof.
  intros Hd Hfit Hself Hnew. apply fits_index_small in Hfit.
  destruct (tidy_current d Hd) as (cur & s & Hcur & Hs & Hts).
  pose proof Hd as [[Hwf _] Hsets]. pose proof Hwf as [Hnd Halloc].
  destruct (open_file_new_run import_image collect_info default_colormap
              guidebook_climits display_name path insert_before d cur s
              Hfit Hwf Hcur Hs Hnew) as (dataset & cmap & Hrun).
  cbv zeta in Hrun. rewrite Hself in Hrun.
  set (u := (import_image path).1.1) in *.
  set (p := Prez u (INFO_KIND dataset) true None cmap (INFO_CLIM dataset)
                 NORMAL) in *.
  set (g := λ (dex : nat) (s : DocLayerStack),
         MkStack (PyList.inserted (_store s) insert_before
                    (if decide (Z.of_nat dex = current_set_index d) then p
                     else replace_visible p false)) None) in *.
  set (d1 := MkDoc (current_set_index d) (_layer_sets d)
               (<[u := dataset]> (_layer_with_uuid d))
               (on_slots g 0 (_layer_sets d) (stacks d))) in *.
  assert (∀ k l s0, _layer_sets d !! k = Some (Some l) →
            stacks d !! l = Some s0 → u ∉ uuid <$> _store s0) as Hfresh.
  { intros k l s0 Hk Hs0 Hin.
    destruct (Hsets k l s0 Hk Hs0) as (_ & _ & Hcat).
    apply Hcat in Hin as [? Hin]. congruence. }
  assert (wf d1) as Hwf1.
  { split; [done|]. intros l Hl. simpl. rewrite on_slots_length.
    by apply Halloc. }
  assert (current_at d1 cur) as Hcur1 by done.
  set (g2 := λ (dex : nat) (s : DocLayerStack),
         if decide (Z.of_nat dex = current_set_index d1) then s
         else drop_first u s).
  set (d2' := with_stacks d1 (on_slots g2 0 (_layer_sets d1) (stacks d1))).
  assert (∀ k l s0, _layer_sets d !! k = Some (Some l) →
            stacks d !! l = Some s0 →
            stacks d2' !! l = Some (g2 k (g k s0))) as Hat.
  { intros k l s0 Hk Hs0. simpl.
    rewrite (on_slots_at _ _ l k) by done.
    rewrite (on_slots_at _ _ l k) by done. by rewrite Hs0. }
  assert (wf d2') as Hwf2.
  { split; [done|]. intros l Hl. simpl. rewrite !on_slots_length.
    by apply Halloc. }
  assert (current_at d2' cur) as Hcur2 by done.
  set (sc := MkStack (PyList.inserted (_store s) insert_before p) None).
  destruct Hcur as [Hi Hslot].
  assert (stacks d2' !! cur = Some sc) as Hsc.
  { rewrite (Hat _ cur s Hslot Hs). unfold g2, g. simpl.
    by rewrite !decide_True by lia. }
  set (r := PyList.clamp (_store s) insert_before).
  assert (Stack.build_u2r (_store sc) !! u = Some r) as Hr.
  { apply (build_u2r_inserted (_store s) insert_before p).
    by apply (Hfresh _ cur s Hslot). }
  assert (_store sc !! r = Some p) as Hp by apply insert_lookup_at.
  pose proof (remove_layer_prez_uuid_run d2' cur sc u r p Hwf2 Hcur2 Hsc Hr Hp)
    as Hrem.
  cbv zeta in Hrem.
  set (db := with_stacks d2'
               (<[cur := MkStack (delete r (_store sc)) None]> (stacks d2')))
    in *.
  assert (∀ k l s0, _layer_sets d !! k = Some (Some l) →
            stacks d !! l = Some s0 →
            _store <$> stacks db !! l = Some (_store s0)) as Hstores.
  { intros k l s0 Hk Hs0. simpl stacks.
    destruct (decide (l = cur)) as [->|Hne].
    - rewrite list_lookup_insert_eq by by eapply lookup_lt_Some.
      simpl. rewrite Hs in Hs0. injection Hs0 as <-.
      unfold r. by rewrite delete_insert_clamp.
    - rewrite list_lookup_insert_ne by done.
      trans (_store <$> Some (g2 k (g k s0))).
      { f_equal. exact (Hat k l s0 Hk Hs0). }
      simpl.
      unfold g2. rewrite decide_False.
      + unfold g. case_decide.
        * by rewrite (drop_first_inserted _ _ p) by by eapply Hfresh.
        * by rewrite (drop_first_inserted _ _ (replace_visible p false))
            by by eapply Hfresh.
      + simpl. intros Hk'. apply Hne.
        assert (k = Z.to_nat (current_set_index d)) as -> by lia.
        congruence. }
  assert (in_use_b db u = false) as Huse.
  { destruct (in_use_b db u) eqn:Huse; [|done]. exfalso.
    apply in_use_b_true in Huse as (k & l & Hk & s' & Hs' & Hin).
    simpl in Hk. destruct (wf_allocated d k l Hwf Hk) as [s0 Hs0].
    pose proof (Hstores k l s0 Hk Hs0) as Hst. rewrite Hs' in Hst.
    injection Hst as Hst. rewrite Hst in Hin. by eapply Hfresh. }
  rewrite Huse in Hrem.
  assert (_layer_with_uuid d2' !! u = Some dataset) as Hcat2
    by (simpl; apply lookup_insert_eq).
  rewrite Hcat2 in Hrem.
  eexists _, d1, _, _, _. split; [exact Hrun|]. split.
  { unfold Doc.remove_layers_from_all_sets. simpl for_each.
    rewrite bind_ret_tt.
    unfold bind at 1. unfold log at 1. unfold bind at 1. unfold get at 1.
    unfold bind at 1.
    rewrite (other_sets_loop_run u d1 Hwf1). fold g2. fold d2'.
    rewrite Hrem. reflexivity. }
  simpl. split; [done|]. split; [done|].
  split; [by apply delete_insert_id|]. split; [exact Hstores|].
  rewrite !elem_of_cons. do 6 right. by left.
Qed.
End RoundTrip.

Lemma open_then_remove_round_trip_witness :
  ∃ r d1 t1 d2 t2,
    open_two "a.tif" (-1) (Doc.__init__ 2) = (Ok r, d1, t1)
    ∧ Doc.remove_layers_from_all_sets [1%N] d1 = (Ok tt, d2, t2)
    ∧ _layer_with_uuid d2 = ∅.
Proof.
  destruct (open_then_remove_round_trip import_two gb_collect_info
              gb_default_colormap gb_climits gb_display_name "a.tif" (-1)
              (Doc.__init__ 2))
    as (r & d1 & t1 & d2 & t2 & Hopen & Hrem & _ & _ & Hcat & _).
  - apply tidy_init.
  - lia.
  - reflexivity.
  - reflexivity.
  - exists r, d1, t1, d2, t2. split; [exact Hopen|]. split; [exact Hrem|].
    exact Hcat.
Defined.

Lemma bind_ret_bind {S A B C} (m : M S A) (f : A → B) (k : B → M S C) s :
  bind (bind m (λ a, ret (f a))) k s = bind m (λ a, k (f a)) s.
Proof.
  rewrite bind_assoc. unfold bind at 1 3.
  destruct (m s) as [[[a|e] s1] t1]; [|done].
  unfold bind, ret. by destruct (k (f a) s1) as [[r s2] t2].
Qed.

(** ** Document.open_files and Document.sort_paths *)

Section OpenFiles.
Variable import_image : string → UUID * Layer * Content.
Variable collect_info : Layer → Fields.
Variable default_colormap : Layer → option Colormap.
Variable guidebook_climits : Layer → Climits.
Variable display_name : Layer → option string.
Variable sort_pathnames_into_load_order : list string → list string.

Hypothesis import_names_itself :
  ∀ path, INFO_UUID (import_image path).1.2 = (import_image path).1.1.

Let open_file' := Doc.open_file import_image collect_info default_colormap
                                guidebook_climits display_name.
Let uid (path : string) : UUID := (import_image path).1.1.

(** One import on top of the current set of a tidy document. *)
Lemma open_file_on_top path d st :
  tidy d → current_store d = Some st →
  _layer_with_uuid d !! uid path = None →
  ∃ r d' t p,
    open_file' path 0 d = (Ok r, d', t)
    ∧ r.1.1 = uid path
    ∧ current_store d' = Some (p :: st)
    ∧ uuid p = uid path ∧ visible p = true
    ∧ _layer_with_uuid d' = <[uid path := r.1.2]> (_layer_with_uuid d)
    ∧ tidy d'.
Proof.
  intros Hd Hst Hnew.
  pose proof (tidy_open_file import_image collect_info default_colormap
                guidebook_climits display_name import_names_itself
                path 0 d Hd) as Hd'.
  destruct (tidy_current d Hd) as (cur & s & Hcur & Hs & Hts).
  pose proof Hd as [[Hwf _] _].
  assert (st = _store s) as ->.
  { destruct Hcur as [Hi Hc]. unfold current_store in Hst.
    rewrite (getitem_nonneg _ _ _ Hi Hc), Hs in Hst. by injection Hst. }
  destruct (open_file_new_run import_image collect_info default_colormap
              guidebook_climits display_name path 0 d cur s
              eq_refl Hwf Hcur Hs Hnew) as (dataset & cmap & Hrun).
  cbv zeta in Hrun. fold open_file' in Hrun. unfold open_file' in Hd'.
  fold open_file' in Hd'. rewrite Hrun in Hd'. simpl in Hd'.
  eexists _, _, _,
    (Prez (INFO_UUID (import_image path).1.2) (INFO_KIND dataset) true None
          cmap (INFO_CLIM dataset) NORMAL).
  split; [exact Hrun|]. simpl.
  split; [done|]. split; [|split; [apply import_names_itself|]].
  2:{ split; [done|]. split; [done|exact Hd']. }
  destruct Hcur as [Hi Hc]. unfold current_store. simpl.
  rewrite (getitem_nonneg _ _ _ Hi Hc).
  rewrite (on_slots_at _ _ cur (Z.to_nat (current_set_index d)))
    by (done || apply Hwf).
  rewrite Hs. simpl. rewrite decide_True by lia. by rewrite insert_front.
Qed.

(** The loop of [open_files] over paths that import under distinct
    identifiers, all new to the catalogue. *)
Lemma open_files_loop_run : ∀ paths d st yielded,
  tidy d → current_store d = Some st →
  NoDup (uid <$> paths) →
  (∀ path, path ∈ paths → _layer_with_uuid d !! uid path = None) →
  ∃ rs d' t st',
    fold_each paths yielded (λ yielded path,
      r <- open_file' path 0 ;; ret (yielded ++ [r])) d
    = (Ok (yielded ++ rs), d', t)
    ∧ rs.*1.*1 = uid <$> paths
    ∧ current_store d' = Some (st' ++ st)
    ∧ uuid <$> st' = reverse (uid <$> paths)
    ∧ Forall (λ p, visible p = true) st'
    ∧ (∀ u, is_Some (_layer_with_uuid d' !! u) ↔
            is_Some (_layer_with_uuid d !! u) ∨ u ∈ uid <$> paths)
    ∧ tidy d'.
Proof.
  induction paths as [|path paths IH] using rev_ind;
    intros d st yielded Hd Hst Hnd Hnew.
  - exists [], d, [], []. simpl. rewrite app_nil_r.
    split; [done|]. split; [done|]. split; [done|]. split; [done|].
    split; [constructor|]. split; [|done].
    intros u. split; [by left|]. intros [?|Hu]; [done|].
    by apply elem_of_nil in Hu.
  - rewrite fmap_app in Hnd. apply NoDup_app in Hnd as (Hnd & Hdisj & _).
    destruct (IH d st yielded Hd Hst Hnd)
      as (rs & d1 & t1 & st1 & Hrun1 & Hrs & Hst1 & Huu1 & Hvis1 & Hcat1 & Hd1).
    { intros q Hq. apply Hnew, elem_of_app. by left. }
    destruct (open_file_on_top path d1 (st1 ++ st) Hd1 Hst1)
      as (r & d2 & t2 & p & Hrun2 & Hr & Hst2 & Hup & Hvp & Hcat2 & Hd2).
    { destruct (_layer_with_uuid d1 !! uid path) as [x|] eqn:Hx; [|done].
      exfalso. assert (is_Some (_layer_with_uuid d1 !! uid path)) as Hsome
        by by eexists.
      apply Hcat1 in Hsome as [[y Hy]|Hin].
      - rewrite Hnew in Hy; [done|]. apply elem_of_app. right.
        by apply list_elem_of_singleton.
      - apply (Hdisj (uid path) Hin). simpl. by left. }
    exists (rs ++ [r]), d2, (t1 ++ t2 ++ []), (p :: st1).
    split; [|split; [|split; [|split; [|split; [|split]]]]].
    + rewrite fold_each_app. erewrite bind_ok; [|exact Hrun1|].
      * reflexivity.
      * simpl fold_each. rewrite bind_ret_bind.
        erewrite bind_ok; [|exact Hrun2|reflexivity].
        by rewrite app_assoc.
    + rewrite !fmap_app, Hrs. simpl. by rewrite Hr.
    + done.
    + by rewrite fmap_cons, fmap_app, reverse_app, Hup, Huu1.
    + by constructor.
    + intros u. rewrite Hcat2, fmap_app, elem_of_app. simpl.
      rewrite list_elem_of_singleton.
      destruct (decide (u = uid path)) as [->|Hne].
      * rewrite lookup_insert_eq. split; [by right; right|by eexists].
      * rewrite lookup_insert_ne by done. rewrite Hcat1.
        split; [intros [?|?]; auto|intros [?|[?|?]]; auto; done].
    + done.
Qed.

(** [open_files] and [sort_paths] agree on the display order.  Take a
    tidy document and paths that import under distinct identifiers, all
    new to the catalogue.  Then [open_files(paths)], run to its end with
    its default [insert_before=0], yields one result per path in load
    order, and afterwards the current set shows the new layers on top of
    the old ones, all visible, in the order of [sort_paths(paths)]: what
    was loaded last is shown first.  The catalogue holds the old and the
    new identifiers and the document is still tidy. *)
Theorem open_files_display_order (paths : list string) (d : Document)
    (st : list prez) :
  tidy d → current_store d = Some st →
  NoDup (uid <$> sort_pathnames_into_load_order paths) →
  (∀ path, path ∈ sort_pathnames_into_load_order paths →
     _layer_with_uuid d !! uid path = None) →
  ∃ rs d' t st',
    Doc.open_files import_image collect_info default_colormap
      guidebook_climits display_name sort_pathnames_into_load_order
      paths 0 d = (Ok rs, d', t)
    ∧ rs.*1.*1 = uid <$> sort_pathnames_into_load_order paths
    ∧ current_store d' = Some (st' ++ st)
    ∧ uuid <$> st'
      = uid <$> Doc.sort_paths sort_pathnames_into_load_order paths
    ∧ Forall (λ p, visible p = true) st'
    ∧ (∀ u, is_Some (_layer_with_uuid d' !! u) ↔
            is_Some (_layer_with_uuid d !! u)
            ∨ u ∈ uid <$> sort_pathnames_into_load_order paths)
    ∧ tidy d'.
Proof.
  intros Hd Hst Hnd Hnew.
  destruct (open_files_loop_run (sort_pathnames_into_load_order paths)
              d st [] Hd Hst Hnd Hnew)
    as (rs & d' & t & st' & Hrun & Hrs & Hst' & Huu & Hvis & Hcat & Hd').
  exists rs, d', t, st'. split; [exact Hrun|]. split; [done|].
  split; [done|]. split; [|done].
  unfold Doc.sort_paths. by rewrite fmap_reverse.
Qed.
End OpenFiles.

Lemma open_files_display_order_witness :
  ∃ rs d' t st',
    Doc.open_files import_two gb_collect_info gb_default_colormap gb_climits
      gb_display_name reverse ["b.tif"; "a.tif"] 0 (Doc.__init__ 2)
    = (Ok rs, d', t)
    ∧ current_store d' = Some (st' ++ [])
    ∧ uuid <$> st' = [2%N; 1%N].
Proof.
  destruct (open_files_display_order import_two gb_collect_info
              gb_default_colormap gb_climits gb_display_name reverse
              import_two_names_itself ["b.tif"; "a.tif"] (Doc.__init__ 2) [])
    as (rs & d' & t & st' & Hrun & _ & Hst & Huu & _).
  - apply tidy_init.
  - reflexivity.
  - apply (bool_decide_unpack _). by vm_compute.
  - intros path _. reflexivity.
  - exists rs, d', t, st'. split; [exact Hrun|]. split; [exact Hst|].
    exact Huu.
Defined.

(** * The methods that edit a presentation *)

(** ** Document.change_layer_name *)

Lemma lift_doc_run {A} (m : M Document A) d r d' t :
  m d = (r, d', t) → Edit.lift_doc m d = (r, d', Inner <$> t).
Proof. intros Hm. unfold Edit.lift_doc. by rewrite Hm. Qed.

Lemma and_then_emit_run {A} (m : M Document A) (sig : A → EditSignal) d a d' :
  m d = (Ok a, d', []) →
  Edit.and_then (Edit.lift_doc m) (λ a, Edit.emit (sig a)) d
  = (Ok tt, d', [EmitEdit (sig a) d']).
Proof.
  intros Hm. unfold Edit.and_then. by rewrite (lift_doc_run m d _ _ _ Hm).
Qed.

Lemma and_then_raise_run {A B} (m : M Document A) (k : A → EM B) d e d' :
  m d = (Raise e, d', []) →
  Edit.and_then (Edit.lift_doc m) k d = (Raise e, d', []).
Proof.
  intros Hm. unfold Edit.and_then. by rewrite (lift_doc_run m d _ _ _ Hm).
Qed.

(** [change_layer_name] on a sound document.  Given the identifier of a
    layer that the catalogue files under its own identifier, the call
    returns; only the name of that catalogue entry has changed; one
    signal, [didChangeLayerName], is emitted afterwards; and [get_info]
    for the identifier then gives the entry with the new name.  For an
    identifier the catalogue does not know the call raises [KeyError], for
    one filed under another identifier than its metadata carries it fails
    the assertion, and in both cases nothing has changed and nothing is
    emitted.  Given an [int] row that the current set has, the call does
    what it does for the identifier of the entry at that row. *)
Theorem change_layer_name_effect (d : Document) (new_name : string) :
  sound d →
  (∀ u info, _layer_with_uuid d !! u = Some info → INFO_UUID info = u →
     let d' := MkDoc (current_set_index d) (_layer_sets d)
                 (<[u := set_name info new_name]> (_layer_with_uuid d))
                 (stacks d) in
     Edit.change_layer_name (KUUID u) new_name d
     = (Ok tt, d', [EmitEdit (didChangeLayerName u new_name) d'])
     ∧ Doc.get_info None (Some u) d'
       = (Ok (Some (set_name info new_name)), d', [])
     ∧ INFO_NAME (set_name info new_name) = new_name)
  ∧ (∀ u, _layer_with_uuid d !! u = None →
       Edit.change_layer_name (KUUID u) new_name d = (Raise KeyError, d, []))
  ∧ (∀ u info, _layer_with_uuid d !! u = Some info → INFO_UUID info ≠ u →
       Edit.change_layer_name (KUUID u) new_name d
       = (Raise AssertionError, d, []))
  ∧ (∀ st row p, current_store d = Some st → PyList.getitem st row = Ok p →
       Edit.change_layer_name (KInt row) new_name d
       = Edit.change_layer_name (KUUID (uuid p)) new_name d).
Proof.
  intros Hd. split; [|split; [|split]].
  - intros u info Hu Hself d'. split; [|split; [|done]].
    + unfold Edit.change_layer_name.
      apply (and_then_emit_run _ (λ uuid, didChangeLayerName uuid new_name)).
      rewrite (bind_run _ _ d u d) by done.
      rewrite (bind_run _ _ d info d)
        by (unfold Doc.layer_with_uuid, bind, get; simpl; by rewrite Hu).
      rewrite decide_True by done.
      rewrite (bind_run _ _ d tt d) by done.
      rewrite (bind_run _ _ d d d) by done.
      by rewrite (bind_run _ _ d tt d').
    + unfold Doc.get_info.
      rewrite (bind_run _ _ d' (set_name info new_name) d'); [done|].
      unfold Doc.layer_with_uuid, bind, get. simpl.
      by rewrite lookup_insert_eq.
  - intros u Hu. unfold Edit.change_layer_name. apply and_then_raise_run.
    rewrite (bind_run _ _ d u d) by done.
    apply bind_raise.
    unfold Doc.layer_with_uuid, bind, get. simpl. by rewrite Hu.
  - intros u info Hu Hne. unfold Edit.change_layer_name.
    apply and_then_raise_run.
    rewrite (bind_run _ _ d u d) by done.
    rewrite (bind_run _ _ d info d)
      by (unfold Doc.layer_with_uuid, bind, get; simpl; by rewrite Hu).
    rewrite decide_False by done. by apply bind_raise.
  - intros st row p Hst Hrow.
    destruct (current_store_sound d Hd) as (cur & s & Hcur & Hs & Hst').
    rewrite Hst' in Hst. injection Hst as <-.
    unfold Edit.change_layer_name, Edit.and_then, Edit.lift_doc.
    assert (Doc.uuid_for_current_layer (KInt row) d = (Ok (uuid p), d, []))
      as Hu.
    { unfold Doc.uuid_for_current_layer.
      rewrite (bind_run _ _ d p d); [done|].
      by rewrite (current_entry_int_run d cur s row Hcur Hs), Hrow. }
    by rewrite (bind_run _ _ d (uuid p) d Hu), (bind_run _ _ d (uuid p) d).
Qed.

Lemma change_layer_name_effect_witness :
  Edit.change_layer_name (KInt 0) "new" doc_two_layers
  = Edit.change_layer_name (KUUID 1%N) "new" doc_two_layers.
Proof.
  apply (proj2 (proj2 (proj2 (change_layer_name_effect doc_two_layers "new"
                                 sound_doc_two_layers)))
           [pz 1 true None; pz 2 true None] 0 (pz 1 true None));
    reflexivity.
Defined.

(** ** Loops that rewrite the rows of the current set *)

(** A loop over the rows of the stack at [cur] whose round, at a row that
    holds [p], overwrites the row with [f p] and updates what it carries
    when [c p] holds, and otherwise does nothing. *)
Lemma rows_loop_run {B} (cur : loc) (c : prez → bool) (f : prez → prez)
    (upd : B → prez → B) (body : B → nat → M Document B) :
  (∀ acc dex d s p, stacks d !! cur = Some s → _store s !! dex = Some p →
     body acc dex d
     = if c p then
         (Ok (upd acc p),
          with_stacks d (<[cur := MkStack (<[dex := f p]> (_store s)) None]>
                           (stacks d)), [])
       else (Ok acc, d, [])) →
  ∀ n k0 d s acc,
    stacks d !! cur = Some s → (k0 + n = length (_store s))%nat →
    ∃ s',
      fold_each (seq k0 n) acc body d
      = (Ok (foldl (λ a p, if c p then upd a p else a) acc
               (drop k0 (_store s))),
         with_stacks d (<[cur := s']> (stacks d)), [])
      ∧ _store s'
        = take k0 (_store s)
          ++ ((λ p, if c p then f p else p) <$> drop k0 (_store s))
      ∧ (cache_ok s → cache_ok s').
Proof.
  intros Hbody. induction n as [|n IH]; intros k0 d s acc Hs Hlen.
  - exists s. rewrite (with_stacks_id d cur s Hs).
    rewrite drop_ge by lia. rewrite take_ge by lia. simpl.
    by rewrite app_nil_r.
  - destruct (lookup_lt_is_Some_2 (_store s) k0) as [p Hp]; [lia|].
    apply lookup_lt_Some in Hs as Hcurlt.
    rewrite (drop_S _ p k0 Hp). simpl seq. simpl fold_each.
    pose proof (Hbody acc k0 d s p Hs Hp) as Hstep.
    destruct (c p) eqn:Hc.
    + set (s1 := MkStack (<[k0 := f p]> (_store s)) None).
      set (d1 := with_stacks d (<[cur := s1]> (stacks d))) in *.
      destruct (IH (S k0) d1 s1 (upd acc p)) as (s' & Hrun & Hst & Hok).
      { simpl. by apply list_lookup_insert_eq. }
      { simpl. rewrite length_insert. lia. }
      exists s'. rewrite (bind_run _ _ d _ _ Hstep). fold s1. fold d1.
      rewrite Hrun.
      subst d1. rewrite with_stacks_insert_insert. simpl in *.
      rewrite Hc. split; [|split].
      * by rewrite drop_insert_lt by lia.
      * rewrite Hst, drop_insert_lt by lia.
        rewrite (take_S_r _ k0 (f p))
          by (apply list_lookup_insert_eq; lia).
        rewrite take_insert_ge by lia. by rewrite <- app_assoc.
      * intros _. apply Hok, cache_ok_None.
    + destruct (IH (S k0) d s acc Hs) as (s' & Hrun & Hst & Hok); [lia|].
      exists s'. rewrite (bind_run _ _ d _ _ Hstep), Hrun. simpl.
      rewrite Hc. split; [done|]. split; [|done].
      rewrite Hst, (take_S_r _ k0 p Hp). by rewrite <- app_assoc.
Qed.

Lemma foldl_mark {V} (u : UUID) (x : V) (st : list prez) : ∀ nfo : gmap UUID V,
  foldl (λ a p, if bool_decide (uuid p = u) then <[u := x]> a else a) nfo st
  = if bool_decide (u ∈ uuid <$> st) then <[u := x]> nfo else nfo.
Proof.
  induction st as [|p st IH]; intros nfo; [done|]. simpl. rewrite IH.
  destruct (decide (uuid p = u)) as [Hp|Hp].
  - rewrite (bool_decide_eq_true_2 (uuid p = u)) by done.
    rewrite (bool_decide_eq_true_2 (u ∈ uuid p :: _)) by (rewrite Hp; left).
    case_bool_decide; [|done]. by rewrite insert_insert_eq.
  - rewrite (bool_decide_eq_false_2 (uuid p = u)) by done.
    assert (bool_decide (u ∈ uuid <$> st)
            = bool_decide (u ∈ uuid p :: (uuid <$> st))) as Heq;
      [|by rewrite Heq].
    apply bool_decide_ext. rewrite elem_of_cons.
    split; [by right|]. by intros [?|?].
Qed.

(** ** Document.change_colormap_for_layers *)

(** The inner loop, for one identifier. *)
Lemma colormap_rows_run (cur : loc) name u d s
    (nfo : gmap UUID (option Colormap)) :
  stacks d !! cur = Some s →
  ∃ s',
    (l <- Doc.as_stack (Some cur) TypeError ;;
     st <- Doc.on_stack l Stack.store ;;
     fold_each (seq 0 (length st)) nfo (λ nfo dex,
       cur <- Doc.on_stack l Stack.store ;;
       match cur !! dex with
       | Some pinfo =>
           if decide (uuid pinfo = u) then
             Doc.on_stack l
               (Stack.__setitem__ (Z.of_nat dex)
                  (replace_colormap pinfo name)) ;;
             ret (<[u := name]> nfo)
           else ret nfo
       | None => ret nfo
       end)) d
    = (Ok (if bool_decide (u ∈ uuid <$> _store s) then <[u := name]> nfo
           else nfo),
       with_stacks d (<[cur := s']> (stacks d)), [])
    ∧ _store s'
      = (λ p, if bool_decide (uuid p = u) then replace_colormap p name
              else p) <$> _store s
    ∧ (cache_ok s → cache_ok s').
Proof.
  intros Hs.
  rewrite (bind_run _ _ d cur d) by done.
  rewrite (bind_run _ _ d (_store s) d)
    by (by apply (on_stack_read cur Stack.store d s)).
  match goal with
  | |- context [fold_each _ _ ?b d] =>
      destruct (rows_loop_run cur (λ p, bool_decide (uuid p = u))
                  (λ p, replace_colormap p name)
                  (λ (a : gmap UUID (option Colormap)) _, <[u := name]> a) b)
        with (n := length (_store s)) (k0 := 0%nat) (d := d) (s := s)
             (acc := nfo)
        as (s' & Hrun & Hst & Hok); [|done|done|]
  end.
  - intros acc dex d0 s0 p Hs0 Hp.
    rewrite (bind_run _ _ d0 (_store s0) d0)
      by (by apply (on_stack_read cur Stack.store d0 s0)).
    rewrite Hp. case_decide.
    + rewrite bool_decide_eq_true_2 by done.
      by rewrite (bind_run _ _ d0 tt _
                    (on_stack_setitem_row d0 cur s0 dex _ Hs0
                       (lookup_lt_Some _ _ _ Hp))).
    + by rewrite bool_decide_eq_false_2 by done.
  - exists s'. rewrite Hrun, drop_0, take_0 in *.
    rewrite foldl_mark. done.
Qed.

(** The outer loop, over the identifiers [targets]. *)
Lemma colormap_loop_run (cur : loc) name :
  ∀ (targets : list UUID) d s (nfo : gmap UUID (option Colormap)),
  stacks d !! cur = Some s →
  ∃ s' nfo',
    fold_each targets nfo (λ nfo u,
      l <- Doc.as_stack (Some cur) TypeError ;;
      st <- Doc.on_stack l Stack.store ;;
      fold_each (seq 0 (length st)) nfo (λ nfo dex,
        cur <- Doc.on_stack l Stack.store ;;
        match cur !! dex with
        | Some pinfo =>
            if decide (uuid pinfo = u) then
              Doc.on_stack l
                (Stack.__setitem__ (Z.of_nat dex)
                   (replace_colormap pinfo name)) ;;
              ret (<[u := name]> nfo)
            else ret nfo
        | None => ret nfo
        end)) d
    = (Ok nfo', with_stacks d (<[cur := s']> (stacks d)), [])
    ∧ _store s'
      = (λ p, if bool_decide (uuid p ∈ targets) then replace_colormap p name
              else p) <$> _store s
    ∧ (∀ v, nfo' !! v
            = if bool_decide (v ∈ targets ∧ v ∈ uuid <$> _store s)
              then Some name else nfo !! v)
    ∧ (cache_ok s → cache_ok s').
Proof.
  induction targets as [|u targets IH]; intros d s nfo Hs.
  - exists s, nfo. rewrite (with_stacks_id d cur s Hs).
    split; [done|]. split; [|split; [|done]].
    + rewrite <- (list_fmap_id (_store s)) at 1.
      apply list_fmap_ext. intros i p _.
      rewrite bool_decide_eq_false_2; [done|]. apply not_elem_of_nil.
    + intros v. rewrite bool_decide_eq_false_2; [done|].
      intros [Hv _]. by apply elem_of_nil in Hv.
  - apply lookup_lt_Some in Hs as Hcurlt.
    destruct (colormap_rows_run cur name u d s nfo Hs)
      as (s1 & Hrun1 & Hst1 & Hok1).
    set (d1 := with_stacks d (<[cur := s1]> (stacks d))) in *.
    destruct (IH d1 s1
                (if bool_decide (u ∈ uuid <$> _store s) then <[u := name]> nfo
                 else nfo))
      as (s' & nfo' & Hrun & Hst & Hnfo & Hok).
    { simpl. by apply list_lookup_insert_eq. }
    assert (uuid <$> _store s1 = uuid <$> _store s) as Huu.
    { rewrite Hst1, <- list_fmap_compose. apply list_fmap_ext.
      intros i p _. simpl. by destruct (bool_decide (uuid p = u)). }
    exists s', nfo'. split; [|split; [|split]].
    + simpl fold_each. rewrite (bind_run _ _ d _ _ Hrun1).
      etrans; [exact Hrun|]. subst d1. by rewrite with_stacks_insert_insert.
    + rewrite Hst, Hst1, <- list_fmap_compose. apply list_fmap_ext.
      intros i p _. simpl.
      destruct (decide (uuid p = u)) as [Hp|Hp].
      * rewrite (bool_decide_eq_true_2 (uuid p = u)) by done.
        rewrite (bool_decide_eq_true_2 (uuid p ∈ u :: targets))
          by (rewrite Hp; left).
        simpl. by destruct (bool_decide (uuid p ∈ targets)).
      * rewrite (bool_decide_eq_false_2 (uuid p = u)) by done.
        assert (bool_decide (uuid p ∈ targets)
                = bool_decide (uuid p ∈ u :: targets)) as Heq;
          [|by rewrite Heq].
        apply bool_decide_ext. rewrite elem_of_cons.
        split; [by right|]. by intros [?|?].
    + intros v. rewrite Hnfo, Huu.
      destruct (decide (v = u)) as [->|Hv].
      * destruct (decide (u ∈ uuid <$> _store s)) as [Hin|Hin].
        -- rewrite (bool_decide_eq_true_2 (u ∈ uuid <$> _store s)) by done.
           rewrite (bool_decide_eq_true_2 (u ∈ u :: targets ∧ _))
             by (split; [left|done]).
           rewrite lookup_insert_eq.
           by destruct (bool_decide (u ∈ targets ∧ u ∈ uuid <$> _store s)).
        -- rewrite (bool_decide_eq_false_2 (u ∈ uuid <$> _store s)) by done.
           rewrite !bool_decide_eq_false_2; [done|by intros [_ ?]..].
      * assert (bool_decide (v ∈ targets ∧ v ∈ uuid <$> _store s)
                = bool_decide (v ∈ u :: targets ∧ v ∈ uuid <$> _store s))
          as Heq.
        { apply bool_decide_ext. rewrite elem_of_cons.
          split; [intros [? ?]; by split; [right|]|].
          intros [[?|?] ?]; [done|by split]. }
        rewrite Heq.
        destruct (bool_decide (v ∈ u :: targets ∧ v ∈ uuid <$> _store s));
          [done|].
        destruct (bool_decide (u ∈ uuid <$> _store s));
          [by rewrite lookup_insert_ne|done].
    + intros Hc. by apply Hok, Hok1.
Qed.

Section ColormapEffect.
Variable time_siblings_uuids : list UUID → gmap UUID Layer → list UUID.

(** [change_colormap_for_layers(name, uuids)] on a document whose current
    set is the stack [s].  The identifiers it goes over are those the
    guidebook gives for [uuids], or, with [uuids=None], those of the
    current set.  The call returns; only the current set changes; every
    entry whose identifier is among them has the colour map [name] and is
    otherwise as it was, and every other entry is untouched; and one
    signal, [didChangeColormap], is emitted afterwards, whose payload maps
    to [name] exactly the identifiers among them that the current set
    holds.  So with [uuids=None] every entry ends with the colour map
    [name]. *)
Theorem change_colormap_for_layers_effect (d : Document) (cur : loc)
    (s : DocLayerStack) (name : option Colormap)
    (uuids : option (list UUID)) :
  current_at d cur → stacks d !! cur = Some s →
  let targets := match uuids with
                 | Some us => time_siblings_uuids us (_layer_with_uuid d)
                 | None => uuid <$> _store s
                 end in
  ∃ s' nfo,
    Edit.change_colormap_for_layers time_siblings_uuids name uuids d
    = (Ok tt, with_stacks d (<[cur := s']> (stacks d)),
       [EmitEdit (didChangeColormap nfo)
                 (with_stacks d (<[cur := s']> (stacks d)))])
    ∧ length (_store s') = length (_store s)
    ∧ (∀ (i : nat) p, _store s !! i = Some p →
         _store s' !! i
         = Some (if bool_decide (uuid p ∈ targets)
                 then replace_colormap p name else p))
    ∧ (∀ v c, nfo !! v = Some c ↔
              c = name ∧ v ∈ targets ∧ v ∈ uuid <$> _store s)
    ∧ (uuids = None → ∀ p, p ∈ _store s' → colormap p = name).
Proof.
  intros Hcur Hs targets.
  destruct (colormap_loop_run cur name targets d s ∅ Hs)
    as (s' & nfo & Hrun & Hst & Hnfo & _).
  exists s', nfo. split; [|split; [|split; [|split]]].
  - unfold Edit.change_colormap_for_layers.
    apply (and_then_emit_run _ didChangeColormap).
    rewrite (bind_run _ _ d _ _ (current_layer_set_run d cur Hcur)).
    rewrite (bind_run _ _ d targets d); [exact Hrun|].
    unfold Edit.uuids_or_all, targets. destruct uuids as [us|]; [done|].
    rewrite (bind_run _ _ d cur d) by done.
    by rewrite (bind_run _ _ d (_store s) d)
      by (by apply (on_stack_read cur Stack.store d s)).
  - by rewrite Hst, length_fmap.
  - intros i p Hp. by rewrite Hst, list_lookup_fmap, Hp.
  - intros v c. rewrite Hnfo, lookup_empty. case_bool_decide as Hv.
    + split; [by intros [= <-]|]. by intros [-> _].
    + split; [done|]. intros (_ & ? & ?). exfalso. by apply Hv.
  - intros -> p Hp. rewrite Hst in Hp.
    apply list_elem_of_fmap in Hp as (q & -> & Hq).
    rewrite bool_decide_eq_true_2; [done|].
    unfold targets. apply list_elem_of_fmap. by exists q.
Qed.
End ColormapEffect.

Lemma change_colormap_for_layers_effect_witness :
  ∃ s' nfo,
    Edit.change_colormap_for_layers (λ us _, us) (Some (CmapName "hot"))
      (Some [2%N; 9%N]) doc_two_layers
    = (Ok tt, with_stacks doc_two_layers [s'],
       [EmitEdit (didChangeColormap nfo) (with_stacks doc_two_layers [s'])])
    ∧ length (_store s') = 2%nat.
Proof.
  destruct (change_colormap_for_layers_effect (λ us _, us) doc_two_layers
              0%nat (MkStack [pz 1 true None; pz 2 true None] None)
              (Some (CmapName "hot")) (Some [2%N; 9%N])
              current_at_doc_two_layers eq_refl)
    as (s' & nfo & Hrun & Hlen & _).
  exists s', nfo. split; [exact Hrun | exact Hlen].
Defined.

(** ** Document.flip_climits_for_layers *)

Lemma reversed_reversed c : reversed (reversed c) = c.
Proof. by destruct c. Qed.

Lemma flipped_flipped p : flipped (flipped p) = p.
Proof.
  destruct p. unfold flipped, replace_climits. simpl.
  by rewrite reversed_reversed.
Qed.

Lemma flip_for_uuid u p : uuid (flip_for u p) = uuid p.
Proof. unfold flip_for. by destruct (bool_decide (uuid p = u)). Qed.

Lemma flip_for_twice u p : flip_for u (flip_for u p) = p.
Proof.
  unfold flip_for at 1. rewrite flip_for_uuid. unfold flip_for.
  destruct (bool_decide (uuid p = u)); [apply flipped_flipped|done].
Qed.

Lemma flip_for_commute u v p :
  flip_for u (flip_for v p) = flip_for v (flip_for u p).
Proof.
  unfold flip_for at 1 3. rewrite !flip_for_uuid. unfold flip_for.
  by destruct (bool_decide (uuid p = u)), (bool_decide (uuid p = v)).
Qed.

Lemma flip_rounds_cons u targets p :
  flip_rounds (u :: targets) p = flip_rounds targets (flip_for u p).
Proof. reflexivity. Qed.

Lemma flip_rounds_uuid targets : ∀ p, uuid (flip_rounds targets p) = uuid p.
Proof.
  induction targets as [|u targets IH]; intros p; [done|].
  by rewrite flip_rounds_cons, IH, flip_for_uuid.
Qed.

Lemma flip_rounds_commute u targets : ∀ p,
  flip_rounds targets (flip_for u p) = flip_for u (flip_rounds targets p).
Proof.
  induction targets as [|v targets IH]; intros p; [done|].
  by rewrite !flip_rounds_cons, (flip_for_commute v u p), IH.
Qed.

Lemma flip_rounds_twice targets : ∀ p,
  flip_rounds targets (flip_rounds targets p) = p.
Proof.
  induction targets as [|u targets IH]; intros p; [done|].
  by rewrite !flip_rounds_cons, flip_rounds_commute, IH, flip_for_twice.
Qed.

Lemma flip_rounds_once targets : ∀ p,
  NoDup targets →
  flip_rounds targets p
  = if bool_decide (uuid p ∈ targets) then flipped p else p.
Proof.
  induction targets as [|u targets IH]; intros p Hnd.
  - by rewrite bool_decide_eq_false_2 by apply not_elem_of_nil.
  - apply NoDup_cons in Hnd as [Hu Hnd].
    rewrite flip_rounds_cons, flip_rounds_commute, (IH p Hnd).
    unfold flip_for.
    destruct (decide (uuid p = u)) as [Hp|Hp].
    + rewrite (bool_decide_eq_false_2 (uuid p ∈ targets))
        by by rewrite Hp.
      rewrite (bool_decide_eq_true_2 (uuid p ∈ u :: targets))
        by (rewrite Hp; left).
      by rewrite bool_decide_eq_true_2 by done.
    + assert (bool_decide (uuid p ∈ targets)
              = bool_decide (uuid p ∈ u :: targets)) as <-.
      { apply bool_decide_ext. rewrite elem_of_cons.
        split; [by right|]. by intros [?|?]. }
      destruct (bool_decide (uuid p ∈ targets));
        by rewrite bool_decide_eq_false_2 by done.
Qed.

(** An entry is reversed once for each time its identifier is gone
    over. *)
Lemma flip_rounds_parity targets : ∀ p,
  flip_rounds targets p
  = if Nat.even (length (filter (λ v, v = uuid p) targets)) then p
    else flipped p.
Proof.
  induction targets as [|v targets IH]; intros p; [done|].
  rewrite flip_rounds_cons, flip_rounds_commute, IH.
  destruct (decide (v = uuid p)) as [Hv|Hv].
  - rewrite filter_cons_True by done. simpl length.
    rewrite Nat.even_succ, <- Nat.negb_even. unfold flip_for.
    destruct (Nat.even _); simpl; rewrite bool_decide_eq_true_2 by done;
      [done|apply flipped_flipped].
  - rewrite filter_cons_False by done. unfold flip_for.
    destruct (Nat.even _); by rewrite bool_decide_eq_false_2 by done.
Qed.

Lemma record_for_absent u (st : list prez) : ∀ nfo,
  u ∉ uuid <$> st → foldl (record_for u) nfo st = nfo.
Proof.
  induction st as [|p st IH]; intros nfo Hu; [done|]. cbn [foldl].
  rewrite fmap_cons, not_elem_of_cons in Hu. destruct Hu as [Hp Hu].
  unfold record_for at 2. rewrite bool_decide_eq_false_2 by done.
  by apply IH.
Qed.

Lemma record_for_other u (st : list prez) v : ∀ nfo,
  v ≠ u → foldl (record_for u) nfo st !! v = nfo !! v.
Proof.
  induction st as [|p st IH]; intros nfo Hv; [done|]. cbn [foldl].
  rewrite IH by done. unfold record_for.
  destruct (bool_decide (uuid p = u)); [by rewrite lookup_insert_ne|done].
Qed.

Lemma record_for_present u (st : list prez) p : ∀ nfo,
  NoDup (uuid <$> st) → p ∈ st → uuid p = u →
  foldl (record_for u) nfo st !! u = Some (reversed (climits p)).
Proof.
  induction st as [|q st IH]; intros nfo Hnd Hp Hu;
    [by apply elem_of_nil in Hp|].
  rewrite fmap_cons in Hnd. apply NoDup_cons in Hnd as [Hq Hnd].
  cbn [foldl]. apply elem_of_cons in Hp as [->|Hp].
  - unfold record_for at 2. rewrite bool_decide_eq_true_2 by done.
    rewrite record_for_absent by by rewrite <- Hu.
    apply lookup_insert_eq.
  - unfold record_for at 2. rewrite bool_decide_eq_false_2; [by apply IH|].
    intros Hqu. apply Hq. rewrite Hqu, <- Hu.
    apply list_elem_of_fmap. by exists p.
Qed.

(** The inner loop, for one identifier. *)
Lemma flip_rows_run (cur : loc) u d s (nfo : gmap UUID Climits) :
  stacks d !! cur = Some s →
  ∃ s',
    (l <- Doc.as_stack (Some cur) TypeError ;;
     st <- Doc.on_stack l Stack.store ;;
     fold_each (seq 0 (length st)) nfo (λ nfo dex,
       cur <- Doc.on_stack l Stack.store ;;
       match cur !! dex with
       | Some pinfo =>
           if decide (uuid pinfo = u) then
             let nfo := <[u := reversed (climits pinfo)]> nfo in
             Doc.on_stack l
               (Stack.__setitem__ (Z.of_nat dex)
                  (replace_climits pinfo (reversed (climits pinfo)))) ;;
             ret nfo
           else ret nfo
       | None => ret nfo
       end)) d
    = (Ok (foldl (record_for u) nfo (_store s)),
       with_stacks d (<[cur := s']> (stacks d)), [])
    ∧ _store s' = flip_for u <$> _store s
    ∧ (cache_ok s → cache_ok s').
Proof.
  intros Hs.
  rewrite (bind_run _ _ d cur d) by done.
  rewrite (bind_run _ _ d (_store s) d)
    by (by apply (on_stack_read cur Stack.store d s)).
  match goal with
  | |- context [fold_each _ _ ?b d] =>
      destruct (rows_loop_run cur (λ p, bool_decide (uuid p = u))
                  flipped
                  (λ (a : gmap UUID Climits) p,
                     <[u := reversed (climits p)]> a) b)
        with (n := length (_store s)) (k0 := 0%nat) (d := d) (s := s)
             (acc := nfo)
        as (s' & Hrun & Hst & Hok); [|done|done|]
  end.
  - intros acc dex d0 s0 p Hs0 Hp.
    rewrite (bind_run _ _ d0 (_store s0) d0)
      by (by apply (on_stack_read cur Stack.store d0 s0)).
    rewrite Hp. case_decide.
    + rewrite bool_decide_eq_true_2 by done. cbv zeta.
      by rewrite (bind_run _ _ d0 tt _
                    (on_stack_setitem_row d0 cur s0 dex _ Hs0
                       (lookup_lt_Some _ _ _ Hp))).
    + by rewrite bool_decide_eq_false_2 by done.
  - exists s'. by rewrite Hrun, drop_0, take_0 in *.
Qed.

(** The outer loop, over the identifiers [targets]. *)
Lemma flip_loop_run (cur : loc) :
  ∀ (targets : list UUID) d s (nfo : gmap UUID Climits),
  stacks d !! cur = Some s →
  ∃ s' nfo',
    fold_each targets nfo (λ nfo u,
      l <- Doc.as_stack (Some cur) TypeError ;;
      st <- Doc.on_stack l Stack.store ;;
      fold_each (seq 0 (length st)) nfo (λ nfo dex,
        cur <- Doc.on_stack l Stack.store ;;
        match cur !! dex with
        | Some pinfo =>
            if decide (uuid pinfo = u) then
              let nfo := <[u := reversed (climits pinfo)]> nfo in
              Doc.on_stack l
                (Stack.__setitem__ (Z.of_nat dex)
                   (replace_climits pinfo (reversed (climits pinfo)))) ;;
              ret nfo
            else ret nfo
        | None => ret nfo
        end)) d
    = (Ok nfo', with_stacks d (<[cur := s']> (stacks d)), [])
    ∧ _store s' = flip_rounds targets <$> _store s
    ∧ (NoDup targets → NoDup (uuid <$> _store s) →
       (∀ p, p ∈ _store s → uuid p ∈ targets →
          nfo' !! uuid p = Some (reversed (climits p)))
       ∧ (∀ v, ¬ (v ∈ targets ∧ v ∈ uuid <$> _store s) →
            nfo' !! v = nfo !! v))
    ∧ (cache_ok s → cache_ok s').
Proof.
  induction targets as [|u targets IH]; intros d s nfo Hs.
  - exists s, nfo. rewrite (with_stacks_id d cur s Hs).
    split; [done|]. split; [|split; [|done]].
    + rewrite <- (list_fmap_id (_store s)) at 1. by apply list_fmap_ext.
    + intros _ _. split; [|done]. intros p _ Hp. by apply elem_of_nil in Hp.
  - apply lookup_lt_Some in Hs as Hcurlt.
    destruct (flip_rows_run cur u d s nfo Hs) as (s1 & Hrun1 & Hst1 & Hok1).
    set (d1 := with_stacks d (<[cur := s1]> (stacks d))) in *.
    destruct (IH d1 s1 (foldl (record_for u) nfo (_store s)))
      as (s' & nfo' & Hrun & Hst & Hnfo & Hok).
    { simpl. by apply list_lookup_insert_eq. }
    assert (uuid <$> _store s1 = uuid <$> _store s) as Huu.
    { rewrite Hst1, <- list_fmap_compose. apply list_fmap_ext.
      intros i p _. simpl. apply flip_for_uuid. }
    exists s', nfo'. split; [|split; [|split]].
    + simpl fold_each. rewrite (bind_run _ _ d _ _ Hrun1).
      etrans; [exact Hrun|]. subst d1. by rewrite with_stacks_insert_insert.
    + rewrite Hst, Hst1, <- list_fmap_compose. by apply list_fmap_ext.
    + intros Hnd Hnds. apply NoDup_cons in Hnd as [Hu Hnd].
      destruct (Hnfo Hnd) as [Hin Hout]; [by rewrite Huu|].
      split.
      * intros p Hp Hpu. apply elem_of_cons in Hpu as [Hpu|Hpu].
        -- rewrite Hpu, Hout by (by intros [? _]).
           by apply (record_for_present u (_store s) p).
        -- assert (uuid p ≠ u) as Hne by (by intros <-).
           apply Hin; [|done]. rewrite Hst1. apply list_elem_of_fmap.
           exists p. split; [|done]. unfold flip_for.
           by rewrite bool_decide_eq_false_2.
      * intros v Hv. rewrite Hout.
        2:{ rewrite Huu. intros [? ?]. apply Hv. by split; [right|]. }
        destruct (decide (v = u)) as [->|Hvu].
        -- rewrite record_for_absent; [done|].
           intros Hin'. apply Hv. by split; [left|].
        -- by apply record_for_other.
    + intros Hc. by apply Hok, Hok1.
Qed.

Section FlipEffect.
Variable time_siblings_uuids : list UUID → gmap UUID Layer → list UUID.

(** One call, going over the identifiers [targets]. *)
Lemma flip_climits_for_layers_run (d : Document) (cur : loc)
    (s : DocLayerStack) (uuids : option (list UUID)) (targets : list UUID) :
  current_at d cur → stacks d !! cur = Some s →
  targets = match uuids with
            | Some us => time_siblings_uuids us (_layer_with_uuid d)
            | None => uuid <$> _store s
            end →
  ∃ s' nfo,
    Edit.flip_climits_for_layers time_siblings_uuids uuids d
    = (Ok tt, with_stacks d (<[cur := s']> (stacks d)),
       [EmitEdit (didChangeColorLimits nfo)
                 (with_stacks d (<[cur := s']> (stacks d)))])
    ∧ _store s' = flip_rounds targets <$> _store s
    ∧ (NoDup targets → NoDup (uuid <$> _store s) →
       (∀ p, p ∈ _store s → uuid p ∈ targets →
          nfo !! uuid p = Some (reversed (climits p)))
       ∧ (∀ v, ¬ (v ∈ targets ∧ v ∈ uuid <$> _store s) → nfo !! v = None)).
Proof.
  intros Hcur Hs Htargets.
  destruct (flip_loop_run cur targets d s ∅ Hs)
    as (s' & nfo & Hrun & Hst & Hnfo & _).
  exists s', nfo. split; [|split; [done|]].
  - unfold Edit.flip_climits_for_layers.
    apply (and_then_emit_run _ didChangeColorLimits).
    rewrite (bind_run _ _ d _ _ (current_layer_set_run d cur Hcur)).
    rewrite (bind_run _ _ d targets d); [exact Hrun|].
    unfold Edit.uuids_or_all. subst targets.
    destruct uuids as [us|]; [done|].
    rewrite (bind_run _ _ d cur d) by done.
    by rewrite (bind_run _ _ d (_store s) d)
      by (by apply (on_stack_read cur Stack.store d s)).
  - intros Hnd Hnds. destruct (Hnfo Hnd Hnds) as [Hin Hout].
    split; [done|]. intros v Hv. by rewrite (Hout v Hv), lookup_empty.
Qed.

(** [flip_climits_for_layers(uuids)] on a document whose current set is
    the stack [s].  The identifiers it goes over are those the guidebook
    gives for [uuids], or, with [uuids=None], those of the current set.
    The call returns; only the current set changes, and it keeps its
    length; every entry is as it was but for its colour limits, which have
    been reversed once for each time its identifier is gone over: they
    are reversed if that is an odd number of times and as before if it is
    even; and one signal, [didChangeColorLimits], is emitted afterwards.
    So when no identifier is gone over twice, the entries with an
    identifier among them have their limits reversed and the others are
    untouched; when moreover no two entries of the set share an
    identifier, the payload maps exactly the identifiers among them that
    the set holds, each to the reversed limits of its entry. *)
Theorem flip_climits_for_layers_effect (d : Document) (cur : loc)
    (s : DocLayerStack) (uuids : option (list UUID)) :
  current_at d cur → stacks d !! cur = Some s →
  let targets := match uuids with
                 | Some us => time_siblings_uuids us (_layer_with_uuid d)
                 | None => uuid <$> _store s
                 end in
  ∃ s' nfo,
    Edit.flip_climits_for_layers time_siblings_uuids uuids d
    = (Ok tt, with_stacks d (<[cur := s']> (stacks d)),
       [EmitEdit (didChangeColorLimits nfo)
                 (with_stacks d (<[cur := s']> (stacks d)))])
    ∧ length (_store s') = length (_store s)
    ∧ (∀ (i : nat) p, _store s !! i = Some p →
         _store s' !! i
         = Some (Prez (uuid p) (kind p) (visible p) (a_order p) (colormap p)
                   (if Nat.even (length (filter (λ v, v = uuid p) targets))
                    then climits p else reversed (climits p))
                   (mixing p)))
    ∧ (NoDup targets → ∀ (i : nat) p, _store s !! i = Some p →
         _store s' !! i
         = Some (Prez (uuid p) (kind p) (visible p) (a_order p) (colormap p)
                   (if bool_decide (uuid p ∈ targets)
                    then reversed (climits p) else climits p)
                   (mixing p)))
    ∧ (NoDup targets → NoDup (uuid <$> _store s) →
       ∀ v c, nfo !! v = Some c ↔
              v ∈ targets
              ∧ ∃ p, p ∈ _store s ∧ uuid p = v ∧ c = reversed (climits p)).
Proof.
  intros Hcur Hs targets.
  destruct (flip_climits_for_layers_run d cur s uuids targets Hcur Hs eq_refl)
    as (s' & nfo & Hrun & Hst & Hnfo).
  exists s', nfo. split; [done|].
  split; [by rewrite Hst, length_fmap|]. split; [|split].
  - intros i p Hp.
    rewrite Hst, list_lookup_fmap, Hp. simpl.
    rewrite flip_rounds_parity. f_equal.
    destruct (Nat.even _); [by destruct p|done].
  - intros Hnd i p Hp.
    rewrite Hst, list_lookup_fmap, Hp. simpl.
    rewrite flip_rounds_once by done. f_equal.
    destruct (bool_decide _); [done|by destruct p].
  - intros Hnd Hnds v c. destruct (Hnfo Hnd Hnds) as [Hin Hout]. split.
    + intros Hv.
      destruct (decide (v ∈ targets ∧ v ∈ uuid <$> _store s))
        as [[Ht Hvs]|Hno].
      * split; [done|]. apply list_elem_of_fmap in Hvs as (p & -> & Hp).
        exists p. rewrite (Hin p Hp Ht) in Hv. by injection Hv as <-.
      * by rewrite (Hout v Hno) in Hv.
    + intros (Ht & p & Hp & <- & ->). by apply Hin.
Qed.

(** Two calls of [flip_climits_for_layers(uuids)] in a row both return,
    each emits one signal, and after the second every entry of the current
    set is what it was before the first, whatever identifiers are gone
    over and however often. *)
Theorem flip_climits_for_layers_twice (d : Document) (cur : loc)
    (s : DocLayerStack) (uuids : option (list UUID)) :
  current_at d cur → stacks d !! cur = Some s →
  ∃ s1 nfo1 s2 nfo2,
    Edit.flip_climits_for_layers time_siblings_uuids uuids d
    = (Ok tt, with_stacks d (<[cur := s1]> (stacks d)),
       [EmitEdit (didChangeColorLimits nfo1)
                 (with_stacks d (<[cur := s1]> (stacks d)))])
    ∧ Edit.flip_climits_for_layers time_siblings_uuids uuids
        (with_stacks d (<[cur := s1]> (stacks d)))
      = (Ok tt, with_stacks d (<[cur := s2]> (stacks d)),
         [EmitEdit (didChangeColorLimits nfo2)
                   (with_stacks d (<[cur := s2]> (stacks d)))])
    ∧ _store s2 = _store s.
Proof.
  intros Hcur Hs. apply lookup_lt_Some in Hs as Hcurlt.
  set (targets := match uuids with
                  | Some us => time_siblings_uuids us (_layer_with_uuid d)
                  | None => uuid <$> _store s
                  end).
  destruct (flip_climits_for_layers_run d cur s uuids targets Hcur Hs eq_refl)
    as (s1 & nfo1 & Hrun1 & Hst1 & _).
  set (d1 := with_stacks d (<[cur := s1]> (stacks d))) in *.
  destruct (flip_climits_for_layers_run d1 cur s1 uuids targets)
    as (s2 & nfo2 & Hrun2 & Hst2 & _).
  { by apply current_at_with_stacks. }
  { simpl. by apply list_lookup_insert_eq. }
  { unfold targets. destruct uuids as [us|]; [done|].
    rewrite Hst1, <- list_fmap_compose. apply list_fmap_ext.
    intros i p _. simpl. symmetry. apply flip_rounds_uuid. }
  exists s1, nfo1, s2, nfo2. split; [done|].
  subst d1. rewrite with_stacks_insert_insert in Hrun2.
  split; [exact Hrun2|].
  rewrite Hst2, Hst1, <- list_fmap_compose.
  rewrite <- (list_fmap_id (_store s)) at 2. apply list_fmap_ext.
  intros i p _. simpl. apply flip_rounds_twice.
Qed.
End FlipEffect.

Lemma flip_climits_for_layers_effect_witness :
  ∃ s' nfo,
    Edit.flip_climits_for_layers (λ us _, us) (Some [2%N; 9%N])
      doc_with_limits
    = (Ok tt, with_stacks doc_with_limits [s'],
       [EmitEdit (didChangeColorLimits nfo)
                 (with_stacks doc_with_limits [s'])])
    ∧ _store s' !! 0%nat
      = Some (Prez 1%N IMAGE true None None (ClimPair 1%N 5%N) NORMAL)
    ∧ _store s' !! 1%nat
      = Some (Prez 2%N IMAGE true None None (ClimPair 7%N 2%N) NORMAL)
    ∧ nfo !! 2%N = Some (ClimPair 7%N 2%N).
Proof.
  destruct (flip_climits_for_layers_effect (λ us _, us) doc_with_limits
              0%nat
              (MkStack
                 [Prez 1%N IMAGE true None None (ClimPair 1%N 5%N) NORMAL;
                  Prez 2%N IMAGE true None None (ClimPair 2%N 7%N) NORMAL]
                 None)
              (Some [2%N; 9%N]))
    as (s' & nfo & Hrun & _ & Hrows & _ & Hnfo).
  - split; [simpl; lia | reflexivity].
  - reflexivity.
  - exists s', nfo. split; [exact Hrun|].
    split; [exact (Hrows 0%nat _ eq_refl)|].
    split; [exact (Hrows 1%nat _ eq_refl)|].
    apply Hnfo.
    + apply (bool_decide_unpack _). by vm_compute.
    + apply (bool_decide_unpack _). by vm_compute.
    + split; [left|]. eexists. split; [right; left|]. by split.
Defined.

Lemma flip_climits_for_layers_twice_witness :
  ∃ s1 nfo1 s2 nfo2,
    Edit.flip_climits_for_layers (λ us _, us) None doc_two_layers
    = (Ok tt, with_stacks doc_two_layers [s1],
       [EmitEdit (didChangeColorLimits nfo1)
                 (with_stacks doc_two_layers [s1])])
    ∧ Edit.flip_climits_for_layers (λ us _, us) None
        (with_stacks doc_two_layers [s1])
      = (Ok tt, with_stacks doc_two_layers [s2],
         [EmitEdit (didChangeColorLimits nfo2)
                   (with_stacks doc_two_layers [s2])])
    ∧ _store s2 = [pz 1 true None; pz 2 true None].
Proof.
  exact (flip_climits_for_layers_twice (λ us _, us) doc_two_layers 0%nat
           (MkStack [pz 1 true None; pz 2 true None] None) None
           current_at_doc_two_layers eq_refl).
Defined.
